(** * gammapy: model parameters and the data-store index

    A shallow embedding of
      - [gammapy/modeling/parameter.py]  ([Parameter], [Parameters],
        [restore_parameters_status]) and
      - [gammapy/data/data_store.py]     ([DataStore], [DataStoreMaker]),
    followed by the properties stated about them.

    Numbers.  A Python [float] is modelled by [float] below: a real number,
    or one of the three IEEE special values.  Arithmetic is exact (rounding
    and overflow are not modelled); the special values follow IEEE 754 as
    numpy implements it. *)

From Stdlib Require Import Reals Lra Psatz ZArith QArith List String Ascii Bool.
From stdpp Require Import base option list functions gmap strings sorting.

Set Default Proof Using "Type".

(* ===================================================================== *)
(** * Part I -- definitions                                                *)
(* ===================================================================== *)

(** ** Python floats *)

Module PyFloat.

Local Open Scope R_scope.

Inductive float : Type :=
| NaN
| PInf
| NInf
| Fin (r : R).

Definition fisnan (x : float) : bool :=
  match x with NaN => true | _ => false end.

Definition fneg (x : float) : float :=
  match x with
  | NaN => NaN
  | PInf => NInf
  | NInf => PInf
  | Fin r => Fin (- r)
  end.

Definition fabs (x : float) : float :=
  match x with
  | NaN => NaN
  | PInf | NInf => PInf
  | Fin r => Fin (Rabs r)
  end.

Definition fadd (x y : float) : float :=
  match x, y with
  | NaN, _ | _, NaN => NaN
  | PInf, NInf | NInf, PInf => NaN
  | PInf, _ | _, PInf => PInf
  | NInf, _ | _, NInf => NInf
  | Fin a, Fin b => Fin (a + b)
  end.

Definition fsub (x y : float) : float := fadd x (fneg y).

(** The sign of a real as numpy's [sign] has it: -1, 0 or 1. *)
Definition Rsign (r : R) : R :=
  if Rlt_dec 0 r then 1 else if Rlt_dec r 0 then -1 else 0.

(** An infinity of the given sign; sign 0 gives NaN (inf * 0). *)
Definition inf_signed (r : R) : float :=
  if Rlt_dec 0 r then PInf else if Rlt_dec r 0 then NInf else NaN.

Definition fmul (x y : float) : float :=
  match x, y with
  | NaN, _ | _, NaN => NaN
  | PInf, PInf | NInf, NInf => PInf
  | PInf, NInf | NInf, PInf => NInf
  | PInf, Fin b | Fin b, PInf => inf_signed b
  | NInf, Fin b | Fin b, NInf => inf_signed (- b)
  | Fin a, Fin b => Fin (a * b)
  end.

(** Division by a divisor that is not zero, as IEEE 754 has it. *)
Definition fdiv (x y : float) : float :=
  match x, y with
  | NaN, _ | _, NaN => NaN
  | (PInf | NInf), (PInf | NInf) => NaN
  | Fin _, (PInf | NInf) => Fin 0
  | PInf, Fin b => if Rlt_dec b 0 then NInf else PInf
  | NInf, Fin b => if Rlt_dec b 0 then PInf else NInf
  | Fin a, Fin b => Fin (a / b)
  end.

Definition fsqrt (x : float) : float :=
  match x with
  | NaN | NInf => NaN
  | PInf => PInf
  | Fin r => if Rlt_dec r 0 then NaN else Fin (sqrt r)
  end.

Definition flog (x : float) : float :=
  match x with
  | NaN | NInf => NaN
  | PInf => PInf
  | Fin r => if Rlt_dec 0 r then Fin (ln r)
             else if Rlt_dec r 0 then NaN else NInf
  end.

Definition fexp (x : float) : float :=
  match x with
  | NaN => NaN
  | PInf => PInf
  | NInf => Fin 0
  | Fin r => Fin (exp r)
  end.

Definition fsign (x : float) : float :=
  match x with
  | NaN => NaN
  | PInf => Fin 1
  | NInf => Fin (-1)
  | Fin r => Fin (Rsign r)
  end.

(** [np.maximum] and [np.minimum]: NaN if either argument is NaN. *)
Definition fmax (x y : float) : float :=
  match x, y with
  | NaN, _ | _, NaN => NaN
  | PInf, _ | _, PInf => PInf
  | NInf, z | z, NInf => z
  | Fin a, Fin b => Fin (Rmax a b)
  end.

Definition fmin (x y : float) : float :=
  match x, y with
  | NaN, _ | _, NaN => NaN
  | NInf, _ | _, NInf => NInf
  | PInf, z | z, PInf => z
  | Fin a, Fin b => Fin (Rmin a b)
  end.

(** Comparisons: every comparison with NaN is false, except [!=]. *)
Definition fltb (x y : float) : bool :=
  match x, y with
  | NaN, _ | _, NaN => false
  | _, NInf | PInf, _ => false
  | NInf, _ | _, PInf => true
  | Fin a, Fin b => if Rlt_dec a b then true else false
  end.

Definition fgtb (x y : float) : bool := fltb y x.

Definition feqb (x y : float) : bool :=
  match x, y with
  | PInf, PInf | NInf, NInf => true
  | Fin a, Fin b => if Req_dec_T a b then true else false
  | _, _ => false
  end.

Definition fleb (x y : float) : bool :=
  match x, y with
  | NaN, _ | _, NaN => false
  | _, _ => negb (fltb y x)
  end.

Definition fgeb (x y : float) : bool := fleb y x.

Definition fneqb (x y : float) : bool := negb (feqb x y).

(** [x / y].  At a zero divisor Python raises [ZeroDivisionError] when both
    operands are plain floats, and numpy gives an infinity or NaN with a
    warning when one of them is a numpy scalar; which of the two happens
    depends on run-time types that are not tracked here.  [py_div] gives
    [None] there, callers treat it as the raised error, and every property
    below that goes through a division is stated for a divisor that is not
    zero. *)
Definition py_div (x y : float) : option float :=
  if feqb y (Fin 0) then None else Some (fdiv x y).

(** [np.floor], [np.log10] and [np.power(10.0, e)]. *)
Definition ffloor (x : float) : float :=
  match x with
  | Fin r => Fin (IZR (Int_part r))
  | other => other
  end.

Definition flog10 (x : float) : float := fdiv (flog x) (Fin (ln 10)).

Definition fpow10 (e : float) : float :=
  match e with
  | NaN => NaN
  | PInf => PInf
  | NInf => Fin 0
  | Fin r => Fin (Rpower 10 r)
  end.

Definition of_Z (z : Z) : float := Fin (IZR z).


End PyFloat.

(** ** [gammapy/modeling/parameter.py] *)

Module ParameterModel.
Import PyFloat.

(** [scale_transform]: one of the strings "lin", "log", "sqrt". *)
Inductive ScaleTransform : Type := Lin | Log | Sqrt.

(** [scale_method]: "scale10" or "factor1"; Python's [None] is [None]. *)
Inductive ScaleMethod : Type := Scale10 | Factor1.

Inductive exn : Type :=
| TypeError
| ValueError
| ZeroDivisionError.

(** Modelled from the spec: [gammapy.utils.interpolation.interpolation_scale]
    is not among the sources.  The spec gives the three scales as
    lin: identity; log: [log(value)] / [exp(factor_raw)];
    sqrt: [sign(value) * sqrt(|value|)] / inverse squaring preserving sign. *)
Definition interp_scale (t : ScaleTransform) (value : float) : float :=
  match t with
  | Lin => value
  | Log => flog value
  | Sqrt => fmul (fsign value) (fsqrt (fabs value))
  end.

Definition interp_scale_inverse (t : ScaleTransform) (x : float) : float :=
  match t with
  | Lin => x
  | Log => fexp x
  | Sqrt => fmul (fsign x) (fmul x x)
  end.

(** The fields of a [Parameter] object that the modelled methods read or
    write ([Parameter] and [Parameters] are reserved words here, hence the
    lower case).  [_frozen] holds a Python [bool] (or [np.bool_]). *)
Record parameter : Type := mk_parameter {
  _name : string;
  _value : float;
  _factor : float;
  _scale : float;
  _min : float;
  _max : float;
  _error : float;
  _frozen : bool;
  _scan_n_sigma : Z;
  _scale_method : option ScaleMethod;
  _scale_transform : ScaleTransform
}.

Definition set_value (p : parameter) (v : float) : parameter :=
  mk_parameter (_name p) v (_factor p) (_scale p) (_min p) (_max p) (_error p)
    (_frozen p) (_scan_n_sigma p) (_scale_method p) (_scale_transform p).

Definition set_factor (p : parameter) (f : float) : parameter :=
  mk_parameter (_name p) (_value p) f (_scale p) (_min p) (_max p) (_error p)
    (_frozen p) (_scan_n_sigma p) (_scale_method p) (_scale_transform p).

Definition set_scale (p : parameter) (s : float) : parameter :=
  mk_parameter (_name p) (_value p) (_factor p) s (_min p) (_max p) (_error p)
    (_frozen p) (_scan_n_sigma p) (_scale_method p) (_scale_transform p).

Definition set_frozen (p : parameter) (b : bool) : parameter :=
  mk_parameter (_name p) (_value p) (_factor p) (_scale p) (_min p) (_max p)
    (_error p) b (_scan_n_sigma p) (_scale_method p) (_scale_transform p).

(** [Parameter.update_scale(value)]; the argument is whatever the caller
    passes, which in [transform] is the transformed value. *)
Definition update_scale (p : parameter) (value : float) : parameter :=
  match _scale_method p with
  | Some Scale10 =>
      if fneqb value (Fin 0)
      then let exponent := ffloor (flog10 (fabs value)) in
           set_scale p (fpow10 exponent)
      else p
  | Some Factor1 => set_scale p value
  | None => p
  end.

(** [Parameter.transform(value, update_scale)]: the call may write [_scale],
    so the object is threaded through and returned with the result, which
    is the quotient or the error of the division. *)
Definition transform (p : parameter) (value : float) (upd : bool)
  : parameter * (exn + float) :=
  let transformed_value := interp_scale (_scale_transform p) value in
  let p' := if upd then update_scale p transformed_value else p in
  (p', match py_div transformed_value (_scale p') with
       | Some q => inr q
       | None => inl ZeroDivisionError
       end).

(** [transform(value)] with the default [update_scale=False] leaves the
    object alone. *)
Definition transform0 (p : parameter) (value : float) : exn + float :=
  snd (transform p value false).

Definition inverse_transform (p : parameter) (factor : float) : float :=
  interp_scale_inverse (_scale_transform p) (fmul (_scale p) factor).

(** The [value] setter: [self._value = float(val)], then
    [self._factor = self.transform(val)]; when the second statement raises,
    the first has already happened. *)
Definition value_setter (p : parameter) (val : float) : parameter * option exn :=
  let p1 := set_value p val in
  match transform0 p1 val with
  | inr f => (set_factor p1 f, None)
  | inl e => (p1, Some e)
  end.

(** The [factor] setter: [self._factor = float(val)], then
    [self._value = float(self.inverse_transform(self._factor))]. *)
Definition factor_setter (p : parameter) (val : float) : parameter :=
  let p1 := set_factor p val in
  set_value p1 (inverse_transform p1 (_factor p1)).

(** [Parameter.autoscale]: [self.factor = self.transform(self.value,
    update_scale=True)], an assignment through the [factor] property. *)
Definition autoscale (p : parameter) : parameter * option exn :=
  match transform p (_value p) true with
  | (p1, inr f) => (factor_setter p1 f, None)
  | (p1, inl e) => (p1, Some e)
  end.

Definition reset_autoscale (p : parameter) : parameter :=
  set_scale (set_factor p (_value p)) (Fin 1).




(** The round-trip invariant: both comparisons evaluate to [True], with
    Python's [==] on floats. *)
Definition roundtrip (p : parameter) : Prop :=
  feqb (_value p) (inverse_transform p (_factor p)) = true /\
  exists f, transform0 p (_value p) = inr f /\ feqb (_factor p) f = true.

(** [_step], [conf_min], [conf_max]. *)
Definition _step (p : parameter) : float :=
  if fgtb (_error p) (Fin 0) then _error p else fabs (_value p).

Definition large_step (p : parameter) : float :=
  fmax (_step p) (fabs (_value p)).

Definition conf_min (p : parameter) : float :=
  if negb (fisnan (_min p)) then _min p
  else
    let min_ := fsub (_value p) (fmul (_step p) (of_Z (_scan_n_sigma p))) in
    fmin min_ (fmul (fneg (large_step p)) (Fin 100000)).

Definition conf_max (p : parameter) : float :=
  if negb (fisnan (_max p)) then _max p
  else
    let max_ := fadd (_value p) (fmul (_step p) (of_Z (_scan_n_sigma p))) in
    fmax max_ (fmul (large_step p) (Fin 100000)).

(** Values a caller can hand to the [frozen] setter. *)
Inductive pyvalue : Type :=
| PyBool (b : bool)
| PyNpBool (b : bool)
| PyStr (s : string)
| PyInt (z : Z)
| PyFloat (x : float)
| PyNone.

(** Python's [bool(val)]. *)
Definition py_bool (v : pyvalue) : bool :=
  match v with
  | PyBool b | PyNpBool b => b
  | PyStr s => negb (String.eqb s "")
  | PyInt z => negb (Z.eqb z 0)
  | PyFloat x => fneqb x (Fin 0)
  | PyNone => false
  end.

(** [val in ["True", "False"]]: only a string compares equal to a string. *)
Definition in_True_False (v : pyvalue) : bool :=
  match v with
  | PyStr s => String.eqb s "True" || String.eqb s "False"
  | _ => false
  end.

Definition frozen_setter (p : parameter) (val : pyvalue) : exn + parameter :=
  let val := if in_True_False val then PyBool (py_bool val) else val in
  match val with
  | PyBool b | PyNpBool b => inr (set_frozen p b)
  | _ => inl TypeError
  end.

(** *** [Parameters] and [restore_parameters_status]

    Parameter objects live in a store and a [Parameters] container holds
    references to them; the same object may fill several slots. *)
Abbreviation loc := nat (only parsing).
Abbreviation store := (loc -> parameter) (only parsing).

Abbreviation parameters := (list loc) (only parsing).






End ParameterModel.

(** ** [gammapy/data/data_store.py]: [DataStore] *)

Module DataStoreModel.

Definition ALL_IRFS : list string := ["aeff"; "edisp"; "psf"; "bkg"; "rad_max"].
Definition ALL_HDUS : list string := ["events"; "gti"; "pointing"] ++ ALL_IRFS.

(** [REQUIRED_IRFS]: the named presets. *)
Definition REQUIRED_IRFS (preset : string) : option (list string) :=
  if String.eqb preset "full-enclosure" then Some ["aeff"; "edisp"; "psf"; "bkg"]
  else if String.eqb preset "point-like" then Some ["aeff"; "edisp"]
  else if String.eqb preset "all-optional" then Some []
  else None.

Inductive exn : Type :=
| ValueError
| KeyError (key : string)
| TypeError
| AttributeError
| IndexError
| RuntimeError
| OSError
| MissingRequiredHDU (missing_hdus : list string) (obs_id : Z).

Definition result (A : Type) : Type := exn + A.

Definition bind {A B : Type} (m : result A) (k : A -> result B) : result B :=
  match m with
  | inl e => inl e
  | inr a => k a
  end.

Notation "'let?' x ':=' m 'in' k" := (bind m (fun x => k))
  (at level 10, x name, m at level 100, k at level 200).

(** One row of the HDU index table and the table itself. *)
Record HDUIndexRow : Type := mkHDURow {
  OBS_ID : Z;
  HDU_TYPE : string;
  HDU_CLASS : string;
  FILE_DIR : string;
  FILE_NAME : string;
  HDU_NAME : string
}.

Record HDUIndexTable : Type := mkHDUTable {
  hdu_rows : list HDUIndexRow;
  BASE_DIR : string
}.

Record HDULocation : Type := mkHDULocation {
  hdu_class : string;
  base_dir : string;
  file_dir : string;
  file_name : string;
  hdu_name : string
}.

#[global] Instance HDULocation_eq_dec : EqDecision HDULocation.
Proof. solve_decision. Defined.

Definition location_info (t : HDUIndexTable) (row : HDUIndexRow) : HDULocation :=
  mkHDULocation (HDU_CLASS row) (BASE_DIR t) (FILE_DIR row) (FILE_NAME row)
                (HDU_NAME row).

(** Modelled from the spec: [HDUIndexTable.hdu_location] is not among the
    sources.  The spec: "looks up the unique matching row; returns a location
    descriptor or a 'not found' sentinel".  The first row whose [OBS_ID] and
    [HDU_TYPE] match is taken. *)
Definition hdu_location (t : HDUIndexTable) (obs_id : Z) (hdu_type : string)
  : option HDULocation :=
  match List.find (fun row => Z.eqb (OBS_ID row) obs_id &&
                              String.eqb (HDU_TYPE row) hdu_type) (hdu_rows t) with
  | Some row => Some (location_info t row)
  | None => None
  end.

(** What the [Observation] constructor receives: the id and the keyword arguments
    that carry HDU locations. *)
Record Observation : Type := mkObservation {
  obs_id_of : Z;
  kwargs : gmap string HDULocation
}.

#[global] Instance Observation_eq_dec : EqDecision Observation.
Proof. solve_decision. Defined.

(** [required_irf]: a preset name or a list of HDU keys. *)
Inductive required_irf_arg : Type :=
| IrfPreset (name : string)
| IrfList (keys : list string).

Definition resolve_required_irf (a : required_irf_arg) : result (list string) :=
  match a with
  | IrfPreset name =>
      match REQUIRED_IRFS name with
      | Some l => inr l
      | None => inl (KeyError name)
      end
  | IrfList l => inr l
  end.

Definition mem (x : string) (l : list string) : bool :=
  existsb (String.eqb x) l.

Definition issubset (l1 l2 : list string) : bool :=
  forallb (fun x => mem x l2) l1.

(** The loop of [obs] over [ALL_HDUS]. *)
Fixpoint locate_hdus (t : HDUIndexTable) (obs_id : Z) (required_hdus : list string)
    (hdus : list string) (kw : gmap string HDULocation) (missing_hdus : list string)
  : gmap string HDULocation * list string :=
  match hdus with
  | [] => (kw, missing_hdus)
  | hdu :: rest =>
      match hdu_location t obs_id hdu with
      | Some l => locate_hdus t obs_id required_hdus rest (<[hdu := l]> kw) missing_hdus
      | None =>
          if mem hdu required_hdus
          then locate_hdus t obs_id required_hdus rest kw (missing_hdus ++ [hdu])
          else locate_hdus t obs_id required_hdus rest kw missing_hdus
      end
  end.

(** [copy(location)] followed by [location.hdu_class = c]. *)
Definition retag (l : HDULocation) (c : string) : HDULocation :=
  mkHDULocation c (base_dir l) (file_dir l) (file_name l) (hdu_name l).

Definition add_derived (kw : gmap string HDULocation) : gmap string HDULocation :=
  match kw !! "events" with
  | Some ev =>
      <["meta" := retag ev "observation_metadata"]>
        (<["pointing" := retag ev "pointing"]> kw)
  | None => kw
  end.

Definition OBS_ID_column (t : HDUIndexTable) : list Z := map OBS_ID (hdu_rows t).

Definition Z_mem (x : Z) (l : list Z) : bool := existsb (Z.eqb x) l.

(** [DataStore.obs]. *)
Definition obs (hdu_table : HDUIndexTable) (obs_id : Z)
    (required_irf : required_irf_arg) (require_events : bool)
  : result Observation :=
  if negb (Z_mem obs_id (OBS_ID_column hdu_table)) then inl ValueError
  else
    let? required_irf := resolve_required_irf required_irf in
    if negb (issubset required_irf ALL_IRFS) then inl ValueError
    else
      let required_hdus :=
        if require_events then ["events"; "gti"] ++ required_irf
        else required_irf in
      let '(kw, missing_hdus) :=
        locate_hdus hdu_table obs_id required_hdus ALL_HDUS ∅ [] in
      if (0 <? length missing_hdus)%nat
      then inl (MissingRequiredHDU missing_hdus obs_id)
      else inr (mkObservation obs_id (add_derived kw)).

(** The HDU types present for an observation and the required ones that
    are not: the sets the spec calls [present] and [missing]. *)
Definition present_hdus (t : HDUIndexTable) (obs_id : Z) : list string :=
  filter (fun hdu => is_Some (hdu_location t obs_id hdu)) ALL_HDUS.

Definition required_set (required_irf : list string) (require_events : bool)
  : list string :=
  if require_events then ["events"; "gti"] ++ required_irf else required_irf.

(** *** [get_observations] *)

Inductive log_record : Type :=
| WarnSkipMissingObsId (obs_id : Z)
| WarnNotUnique (multiples : list Z)
| WarnSkipMissingHDUs (e : exn)
| InfoSelected (n_selected n_requested : nat).

Definition is_warning (r : log_record) : bool :=
  match r with InfoSelected _ _ => false | _ => true end.

(** [np.unique]: the sorted distinct values. *)
Definition np_unique (l : list Z) : list Z :=
  merge_sort Z.le (remove_dups l).

Definition obs_ids (t : HDUIndexTable) : list Z := np_unique (OBS_ID_column t).

(** The validation loop over the requested ids. *)
Fixpoint check_requested (known : list Z) (skip_missing : bool) (ids : list Z)
    (log : list log_record) : list log_record * result unit :=
  match ids with
  | [] => (log, inr tt)
  | i :: rest =>
      if negb (Z_mem i known)
      then if skip_missing
           then check_requested known skip_missing rest
                  (log ++ [WarnSkipMissingObsId i])
           else (log, inl ValueError)
      else check_requested known skip_missing rest log
  end.

Definition count_occ_Z (l : list Z) (x : Z) : nat :=
  length (filter (fun y => Z.eqb x y = true) l).

Definition multiples_of (ids : list Z) : list Z :=
  filter (fun x => (1 < count_occ_Z ids x)%nat) (np_unique ids).

(** The loop that resolves each selected id: a [MissingRequiredHDU] is
    logged and the id skipped, any other error leaves the function. *)
Fixpoint resolve_loop (t : HDUIndexTable) (required_irf : required_irf_arg)
    (require_events : bool) (ids : list Z)
    (log : list log_record) (obs_list : list Observation)
  : list log_record * result (list Observation) :=
  match ids with
  | [] => (log, inr obs_list)
  | i :: rest =>
      match obs t i required_irf require_events with
      | inr o => resolve_loop t required_irf require_events rest log (obs_list ++ [o])
      | inl (MissingRequiredHDU m k) =>
          resolve_loop t required_irf require_events rest
            (log ++ [WarnSkipMissingHDUs (MissingRequiredHDU m k)]) obs_list
      | inl e => (log, inl e)
      end
  end.

(** [DataStore.get_observations] with [selection=None].  The result is the
    log written and either the error raised or the observation list. *)
Definition get_observations (t : HDUIndexTable) (obs_id : option (list Z))
    (skip_missing : bool) (required_irf : required_irf_arg) (require_events : bool)
  : list log_record * result (list Observation) :=
  let obs_id_selection := obs_ids t in
  let '(log, checked, obs_id, obs_id_selection) :=
    match obs_id with
    | None => ([], inr tt, obs_id_selection, obs_id_selection)
    | Some ids =>
        let '(log, r) := check_requested (obs_ids t) skip_missing ids [] in
        (log, r, ids, filter (fun i => Z_mem i obs_id_selection = true) ids)
    end in
  match checked with
  | inl e => (log, inl e)
  | inr _ =>
      let log :=
        if negb (length (np_unique obs_id) =? length obs_id)%nat
        then log ++ [WarnNotUnique (multiples_of obs_id)]
        else log in
      match resolve_loop t required_irf require_events obs_id_selection log [] with
      | (log, inl e) => (log, inl e)
      | (log, inr obs_list) =>
          (log ++ [InfoSelected (length obs_list) (length obs_id)], inr obs_list)
      end
  end.

End DataStoreModel.

(** ** [gammapy/data/data_store.py]: [DataStoreMaker] *)

Module DataStoreMakerModel.
Import DataStoreModel.

(** A FITS header value, or what [read_events_info] derives from one.
    Header numbers are kept as exact rationals. *)
Inductive value : Type :=
| VInt (z : Z)
| VFloat (q : Q)
| VStr (s : string)
| VQuantity (q : Q) (unit : string)
| VNone.

(** Python's [==] on these values. *)
Definition value_eqb (a b : value) : bool :=
  match a, b with
  | VInt x, VInt y => Z.eqb x y
  | VFloat x, VFloat y => Qeq_bool x y
  | VInt x, VFloat y | VFloat y, VInt x => Qeq_bool (inject_Z x) y
  | VStr x, VStr y => String.eqb x y
  | VQuantity x u, VQuantity y v => Qeq_bool x y && String.eqb u v
  | VNone, VNone => true
  | _, _ => false
  end.

(** A Python [dict] with string keys, in insertion order. *)
Definition dict : Type := list (string * value).

Fixpoint dict_get (d : dict) (k : string) : option value :=
  match d with
  | [] => None
  | (k', v) :: rest => if String.eqb k k' then Some v else dict_get rest k
  end.

Fixpoint dict_set (d : dict) (k : string) (v : value) : dict :=
  match d with
  | [] => [(k, v)]
  | (k', v') :: rest =>
      if String.eqb k k' then (k', v) :: rest else (k', v') :: dict_set rest k v
  end.

Definition dict_keys (d : dict) : list string := map fst d.

(** [d[k]]: raises [KeyError] on a missing key. *)
Definition getitem (d : dict) (k : string) : result value :=
  match dict_get d k with
  | Some v => inr v
  | None => inl (KeyError k)
  end.

Fixpoint dict_eqb (a b : dict) : bool :=
  match a, b with
  | [], [] => true
  | (k, v) :: a', (k', v') :: b' =>
      String.eqb k k' && value_eqb v v' && dict_eqb a' b'
  | _, _ => false
  end.

(** [header[k]] and [header.get(k, default)]. *)
Definition header_getitem (h : gmap string value) (k : string) : result value :=
  match h !! k with
  | Some v => inr v
  | None => inl (KeyError k)
  end.

Definition header_get (h : gmap string value) (k : string) (default : value)
  : value :=
  match h !! k with
  | Some v => v
  | None => default
  end.

(** [x * u.unit] for a header number [x]. *)
Definition times_unit (v : value) (unit : string) : result value :=
  match v with
  | VInt z => inr (VQuantity (inject_Z z) unit)
  | VFloat q => inr (VQuantity q unit)
  | _ => inl TypeError
  end.

(** [90 * u.deg - x]. *)
Definition ninety_deg_minus (v : value) : result value :=
  match v with
  | VQuantity q unit => inr (VQuantity (inject_Z 90 - q) "deg")
  | _ => inl TypeError
  end.

Definition degrees_of (v : value) : result Q :=
  match v with
  | VQuantity q _ => inr q
  | VInt z => inr (inject_Z z)
  | VFloat q => inr q
  | _ => inl TypeError
  end.

Definition lower_ascii (c : ascii) : ascii :=
  let n := nat_of_ascii c in
  if ((65 <=? n) && (n <=? 90))%nat then ascii_of_nat (n + 32) else c.

Fixpoint lower (s : string) : string :=
  match s with
  | EmptyString => EmptyString
  | String c rest => String (lower_ascii c) (lower rest)
  end.

Definition na_int : value := VInt (-1).
Definition na_str : value := VStr "NOT AVAILABLE".

Record ObservationTable : Type := mkObservationTable {
  obs_rows : list dict;
  obs_names : list string;
  obs_meta : dict
}.

Record DataStoreMaker : Type := mkDataStoreMaker {
  events_paths : list string;
  irfs_paths : list (option string);
  _events_info : gmap string dict
}.

(** The [irfs_paths] argument: [None], one path, or a list of paths. *)
Inductive irfs_paths_arg : Type :=
| IrfsNone
| IrfsSingle (path : string)
| IrfsList (paths : list string).

Definition DataStoreMaker_init (events : list string) (irfs : irfs_paths_arg)
  : DataStoreMaker :=
  mkDataStoreMaker events
    match irfs with
    | IrfsNone => repeat None (length events)
    | IrfsSingle path => repeat (Some path) (length events)
    | IrfsList paths => map Some paths
    end
    ∅.

Section Maker.

(** What lies outside the module: reading the header of the EVENTS HDU of
    a file, the ICRS to Galactic transform, [int] and [str] of Python, the
    first file of a directory, and [gammapy.utils.time.TIME_KEYWORDS]. *)
Variable fits_events_header : string -> result (gmap string value).
Variable galactic : Q -> Q -> Q * Q.
Variable int_of_str : string -> option Z.
Variable str_of_number : value -> string.
Variable first_file_name : string -> result string.
Variable TIME_KEYWORDS : list string.

(** [int(x)]. *)
Definition py_int (v : value) : result Z :=
  match v with
  | VInt z => inr z
  | VFloat q => inr (Z.quot (Qnum q) (Z.pos (Qden q)))
  | VStr s => match int_of_str s with
              | Some z => inr z
              | None => inl ValueError
              end
  | _ => inl TypeError
  end.

Definition py_str (v : value) : string :=
  match v with
  | VStr s => s
  | other => str_of_number other
  end.

(** [info[key] = header[key] * unit]. *)
Definition set_quantity (header : gmap string value) (key unit : string)
    (info : dict) : result dict :=
  let? v := header_getitem header key in
  let? q := times_unit v unit in
  inr (dict_set info key q).

(** [CalDBIRF.from_meta(info).file_path]. *)
Definition caldb_file_path (info : dict) : result string :=
  let? telescop := getitem info "TELESCOP" in
  let? caldb := getitem info "CALDB" in
  let? irf := getitem info "IRF" in
  match telescop with
  | VStr t =>
      let file_dir :=
        ("$CALDB/data/" ++ lower t ++ "/" ++ py_str caldb ++ "/bcf/"
           ++ py_str irf)%string in
      let? file_name := first_file_name file_dir in
      inr (file_dir ++ "/" ++ file_name)%string
  | _ => inl AttributeError
  end.

Definition has_all_keys (header : gmap string value) (ks : list string) : bool :=
  forallb (fun k => bool_decide (is_Some (header !! k))) ks.

(** [for name in TIME_KEYWORDS: info[name] = header.get(name, None)]. *)
Fixpoint set_time_keywords (header : gmap string value) (names : list string)
    (info : dict) : dict :=
  match names with
  | [] => info
  | name :: rest =>
      set_time_keywords header rest (dict_set info name (header_get header name VNone))
  end.

(** The pointing block: [OBS_MODE] decides which keys are filled. *)
Definition set_pointing (header : gmap string value) (info : dict) : result dict :=
  let obs_mode := header_get header "OBS_MODE" (VStr "POINTING") in
  if value_eqb obs_mode (VStr "DRIFT")
  then
    let? info := set_quantity header "ALT_PNT" "deg" info in
    let? info := set_quantity header "AZ_PNT" "deg" info in
    let? alt := getitem info "ALT_PNT" in
    let? zen := ninety_deg_minus alt in
    inr (dict_set info "ZEN_PNT" zen)
  else
    let? info := set_quantity header "RA_PNT" "deg" info in
    set_quantity header "DEC_PNT" "deg" info.

(** [pos = SkyCoord(info["RA_PNT"], info["DEC_PNT"], unit="deg").galactic]
    and the two assignments that follow. *)
Definition set_galactic (info : dict) : result dict :=
  let? ra := getitem info "RA_PNT" in
  let? dec := getitem info "DEC_PNT" in
  let? ra := degrees_of ra in
  let? dec := degrees_of dec in
  let pos := galactic ra dec in
  let info := dict_set info "GLON_PNT" (VQuantity (fst pos) "deg") in
  inr (dict_set info "GLAT_PNT" (VQuantity (snd pos) "deg")).

Definition set_dates (header : gmap string value) (info : dict) : dict :=
  if has_all_keys header ["DATE-OBS"; "TIME-OBS"; "DATE-END"; "TIME-END"]
  then
    let info := dict_set info "DATE-OBS" (header_get header "DATE-OBS" VNone) in
    let info := dict_set info "TIME-OBS" (header_get header "TIME-OBS" VNone) in
    let info := dict_set info "DATE-END" (header_get header "DATE-END" VNone) in
    dict_set info "TIME-END" (header_get header "TIME-END" VNone)
  else
    let info := dict_set info "DATE-OBS" (header_get header "DATE_OBS" na_str) in
    let info := dict_set info "TIME-OBS" (header_get header "TIME_OBS" na_str) in
    let info := dict_set info "DATE-END" (header_get header "DATE_END" na_str) in
    dict_set info "TIME-END" (header_get header "TIME_END" na_str).

Definition set_irf_filename (irf_path : option string) (info : dict)
  : result dict :=
  match irf_path with
  | Some path => inr (dict_set info "IRF_FILENAME" (VStr path))
  | None =>
      let? caldb := getitem info "CALDB" in
      let? irf := getitem info "IRF" in
      if negb (value_eqb caldb na_str) && negb (value_eqb irf na_str)
      then
        let? path := caldb_file_path info in
        inr (dict_set info "IRF_FILENAME" (VStr path))
      else
        let? name := getitem info "EVENTS_FILENAME" in
        inr (dict_set info "IRF_FILENAME" name)
  end.

(** [DataStoreMaker.read_events_info], statement by statement. *)
Definition read_events_info (events_path : string) (irf_path : option string)
  : result dict :=
  let? header := fits_events_header events_path in
  let info : dict := [] in
  let? v := header_getitem header "OBS_ID" in
  let? z := py_int v in
  let info := dict_set info "OBS_ID" (VInt z) in
  let? info := set_quantity header "TSTART" "s" info in
  let? info := set_quantity header "TSTOP" "s" info in
  let? info := set_quantity header "ONTIME" "s" info in
  let? info := set_quantity header "LIVETIME" "s" info in
  let? v := header_getitem header "DEADC" in
  let info := dict_set info "DEADC" v in
  let info := dict_set info "TELESCOP" (header_get header "TELESCOP" na_str) in
  let? info := set_pointing header info in
  let? info := set_galactic info in
  let info := set_dates header info in
  let info := dict_set info "N_TELS" (header_get header "N_TELS" na_int) in
  let info := dict_set info "OBJECT" (header_get header "OBJECT" na_str) in
  let info := dict_set info "EVENTS_FILENAME" (VStr events_path) in
  let? v := header_getitem header "NAXIS2" in
  let info := dict_set info "EVENT_COUNT" v in
  let info := dict_set info "CALDB" (header_get header "CALDB" na_str) in
  let info := dict_set info "IRF" (header_get header "IRF" na_str) in
  let? info := set_irf_filename irf_path info in
  inr (set_time_keywords header TIME_KEYWORDS info).

(** [get_events_info]: reads a file once and keeps the result. *)
Definition get_events_info (m : DataStoreMaker) (events_path : string)
    (irf_path : option string) : DataStoreMaker * result dict :=
  match _events_info m !! events_path with
  | Some info => (m, inr info)
  | None =>
      match read_events_info events_path irf_path with
      | inl e => (m, inl e)
      | inr info =>
          (mkDataStoreMaker (events_paths m) (irfs_paths m)
             (<[events_path := info]> (_events_info m)), inr info)
      end
  end.

Definition get_obs_info := get_events_info.

(** Modelled from the spec: [gammapy.utils.time.extract_time_info] and
    [unique_time_info] are not among the sources.  The spec: the
    time-reference metadata are the [TIME_KEYWORDS] entries of a row, and
    the check passes when they are identical across all input files. *)
Fixpoint extract_keys (row : dict) (names : list string) (acc : dict)
  : result dict :=
  match names with
  | [] => inr acc
  | name :: rest =>
      let? v := getitem row name in
      extract_keys row rest (dict_set acc name v)
  end.

Definition extract_time_info (row : dict) : result dict :=
  extract_keys row TIME_KEYWORDS [].

Definition unique_time_info (rows : list dict) : bool :=
  match rows with
  | [] => true
  | first :: rest => forallb (dict_eqb first) rest
  end.

(** The loop of [make_obs_table]. *)
Fixpoint obs_table_loop (m : DataStoreMaker)
    (pairs : list (string * option string)) (rows time_rows : list dict)
  : DataStoreMaker * result (list dict * list dict) :=
  match pairs with
  | [] => (m, inr (rows, time_rows))
  | (events_path, irf_path) :: rest =>
      match get_obs_info m events_path irf_path with
      | (m1, inl e) => (m1, inl e)
      | (m1, inr row) =>
          match extract_time_info row with
          | inl e => (m1, inl e)
          | inr time_row =>
              obs_table_loop m1 rest (rows ++ [row]) (time_rows ++ [time_row])
          end
      end
  end.

Fixpoint copy_keys (src : dict) (names : list string) (m : dict) : result dict :=
  match names with
  | [] => inr m
  | name :: rest =>
      let? v := getitem src name in
      copy_keys src rest (dict_set m name v)
  end.

(** [DataStoreMaker.make_obs_table]. *)
Definition make_obs_table (m : DataStoreMaker)
  : DataStoreMaker * result ObservationTable :=
  match obs_table_loop m (zip (events_paths m) (irfs_paths m)) [] [] with
  | (m1, inl e) => (m1, inl e)
  | (m1, inr (rows, time_rows)) =>
      match rows with
      | [] => (m1, inl IndexError)
      | row0 :: _ =>
          let names := dict_keys row0 in
          if negb (unique_time_info time_rows) then (m1, inl RuntimeError)
          else
            (m1,
             let? meta := copy_keys (hd [] time_rows) TIME_KEYWORDS [] in
             let meta := dict_set meta "HDUCLASS" (VStr "GADF") in
             let meta := dict_set meta "HDUDOC"
               (VStr "https://github.com/open-gamma-ray-astro/gamma-astro-data-formats") in
             let meta := dict_set meta "HDUVERS" (VStr "0.2") in
             let meta := dict_set meta "HDUCLAS1" (VStr "INDEX") in
             let meta := dict_set meta "HDUCLAS2" (VStr "OBS") in
             inr (mkObservationTable rows names meta))
      end
  end.

End Maker.

End DataStoreMakerModel.

(** ** Side conditions and sample objects used in the statements below *)

Module Samples.
Import PyFloat ParameterModel.
Local Open Scope R_scope.


Definition finite_nonzero (x : float) : Prop :=
  exists r, x = Fin r /\ r <> 0.

(** The scale is not zero, so that dividing by it is defined. *)
Definition nonzero_scale (p : parameter) : Prop :=
  feqb (_scale p) (Fin 0) = false.

(** The step and the large step of [conf_min] and [conf_max] on real
    numbers: [step = error if error > 0 else |value|] and
    [large_step = max(step, |value|)]. *)
Definition Rstep (v e : R) : R := if Rlt_dec 0 e then e else Rabs v.
Definition Rlarge_step (v e : R) : R := Rmax (Rstep v e) (Rabs v).

(** Values that are neither booleans nor one of the two strings the
    [frozen] setter converts. *)
Definition not_boolean_like (v : pyvalue) : Prop :=
  match v with
  | PyBool _ | PyNpBool _ => False
  | PyStr s => s <> "True"%string /\ s <> "False"%string
  | _ => True
  end.



(** [Parameter("x", 4.0, scale_method="factor1", scale_transform="sqrt")]. *)
Definition par_sqrt_factor1 : parameter :=
  mk_parameter "x" (Fin 4) (Fin 2) (Fin 1) NaN NaN (Fin 0) false 2
    (Some Factor1) Sqrt.

(** [Parameter("x", -3.0, scale_method="factor1")]. *)
Definition par_lin_factor1_negative : parameter :=
  mk_parameter "x" (Fin (-3)) (Fin (-3)) (Fin 1) NaN NaN (Fin 0) false 2
    (Some Factor1) Lin.

(** [Parameter("index", 2.0)]: all defaults. *)
Definition par_index : parameter :=
  mk_parameter "index" (Fin 2) (Fin 2) (Fin 1) NaN NaN (Fin 0) false 2
    (Some Scale10) Lin.

(** [Parameter("norm", 1.0)]: all defaults. *)
Definition par_norm : parameter :=
  mk_parameter "norm" (Fin 1) (Fin 1) (Fin 1) NaN NaN (Fin 0) false 2
    (Some Scale10) Lin.




End Samples.

Module DataSamples.
Import DataStoreModel DataStoreMakerModel.

(** The required HDU types that [obs] finds missing, in the order of
    [ALL_HDUS]. *)
Definition missing_of (t : HDUIndexTable) (obs_id : Z) (required_hdus : list string)
  : list string :=
  filter (fun hdu => mem hdu required_hdus = true)
    (filter (fun hdu => hdu_location t obs_id hdu = None) ALL_HDUS).

(** An index with one observation that has an events, a gti and a pointing
    HDU. *)
Definition table_with_pointing : HDUIndexTable :=
  mkHDUTable
    [ mkHDURow 1 "events" "events" "run1" "events.fits" "EVENTS";
      mkHDURow 1 "gti" "gti" "run1" "events.fits" "GTI";
      mkHDURow 1 "pointing" "pointing" "run1" "pointing.fits" "POINTING" ]
    "/data".

Definition located_pointing : HDULocation :=
  mkHDULocation "pointing" "/data" "run1" "pointing.fits" "POINTING".

Definition located_events : HDULocation :=
  mkHDULocation "events" "/data" "run1" "events.fits" "EVENTS".

Definition located_gti : HDULocation :=
  mkHDULocation "gti" "/data" "run1" "events.fits" "GTI".

(** An index with observations 1 and 3, each with events, gti, aeff and
    edisp HDUs, and an observation 5 that has events only. *)
Definition rows_of (i : Z) (dir : string) : list HDUIndexRow :=
  [ mkHDURow i "events" "events" dir "events.fits" "EVENTS";
    mkHDURow i "gti" "gti" dir "events.fits" "GTI";
    mkHDURow i "aeff" "aeff_2d" dir "irf.fits" "EFFECTIVE AREA";
    mkHDURow i "edisp" "edisp_2d" dir "irf.fits" "ENERGY DISPERSION" ].

Definition table_1_3_5 : HDUIndexTable :=
  mkHDUTable
    (rows_of 3 "run3" ++ rows_of 1 "run1" ++
     [ mkHDURow 5 "events" "events" "run5" "events.fits" "EVENTS" ])
    "/data".

(** The observations [resolve_loop] keeps and the warnings it writes. *)
Fixpoint resolved (t : HDUIndexTable) (required_irf : required_irf_arg)
    (require_events : bool) (ids : list Z) : list Observation :=
  match ids with
  | [] => []
  | i :: rest =>
      match obs t i required_irf require_events with
      | inr o => o :: resolved t required_irf require_events rest
      | inl _ => resolved t required_irf require_events rest
      end
  end.

Fixpoint skip_warnings (t : HDUIndexTable) (required_irf : required_irf_arg)
    (require_events : bool) (ids : list Z) : list log_record :=
  match ids with
  | [] => []
  | i :: rest =>
      match obs t i required_irf require_events with
      | inr _ => skip_warnings t required_irf require_events rest
      | inl e => WarnSkipMissingHDUs e
                 :: skip_warnings t required_irf require_events rest
      end
  end.

Definition is_missing_hdu_error (e : exn) : Prop :=
  match e with MissingRequiredHDU _ _ => True | _ => False end.

Definition resolves_or_misses_hdus (t : HDUIndexTable)
    (required_irf : required_irf_arg) (require_events : bool) (i : Z) : Prop :=
  match obs t i required_irf require_events with
  | inr _ => True
  | inl e => is_missing_hdu_error e
  end.

(** Conditions on a [DataStoreMaker] and its files. *)
Section MakerConditions.

Variable fits_events_header : string -> result (gmap string value).
Variable galactic : Q -> Q -> Q * Q.
Variable int_of_str : string -> option Z.
Variable str_of_number : value -> string.
Variable first_file_name : string -> result string.
Variable TIME_KEYWORDS : list string.

Local Abbreviation read :=
  (read_events_info fits_events_header galactic int_of_str str_of_number
     first_file_name TIME_KEYWORDS).

(** [row] is the header information of the events file [events_path]. *)
Definition info_of_file (events_path : string) (row : dict) : Prop :=
  exists irf_path, read events_path irf_path = inr row.

(** Every cached entry was read from its file. *)
Definition cache_ok (m : DataStoreMaker) : Prop :=
  forall path info, _events_info m !! path = Some info -> info_of_file path info.

(** Every events file of the maker can be read. *)
Definition all_readable (m : DataStoreMaker) : Prop :=
  Forall (fun pair => exists info, read (fst pair) (snd pair) = inr info)
         (zip (events_paths m) (irfs_paths m)).

End MakerConditions.

(** Sample events headers: two pointing runs with the same time reference,
    one with another [TIMESYS], and a drift-mode run that gives [ALT_PNT] and
    [AZ_PNT] and no [RA_PNT]/[DEC_PNT]. *)
Definition header_pointing (i : Z) (timesys : string) : gmap string value :=
  list_to_map
    [ ("OBS_ID", VInt i); ("TSTART", VFloat 0); ("TSTOP", VFloat 100);
      ("ONTIME", VFloat 100); ("LIVETIME", VFloat 100); ("DEADC", VFloat 1);
      ("RA_PNT", VFloat (836 # 10)); ("DEC_PNT", VFloat 22); ("NAXIS2", VInt 0);
      ("MJDREF", VFloat 51544); ("TIMEUNIT", VStr "s");
      ("TIMESYS", VStr timesys); ("TIMEREF", VStr "LOCAL") ].

Definition header_drift : gmap string value :=
  list_to_map
    [ ("OBS_ID", VInt 7); ("TSTART", VFloat 0); ("TSTOP", VFloat 100);
      ("ONTIME", VFloat 100); ("LIVETIME", VFloat 100); ("DEADC", VFloat 1);
      ("OBS_MODE", VStr "DRIFT"); ("ALT_PNT", VFloat 70); ("AZ_PNT", VFloat 0);
      ("NAXIS2", VInt 0);
      ("MJDREF", VFloat 51544); ("TIMEUNIT", VStr "s");
      ("TIMESYS", VStr "TT"); ("TIMEREF", VStr "LOCAL") ].

Definition sample_fits (path : string) : result (gmap string value) :=
  if String.eqb path "run1.fits" then inr (header_pointing 1 "TT")
  else if String.eqb path "run2.fits" then inr (header_pointing 2 "TT")
  else if String.eqb path "run3.fits" then inr (header_pointing 3 "UTC")
  else if String.eqb path "drift.fits" then inr header_drift
  else inl OSError.

Definition sample_galactic (ra dec : Q) : Q * Q := (ra, dec).
Definition sample_int_of_str (s : string) : option Z := None.
Definition sample_str_of_number (v : value) : string := "".
Definition sample_first_file_name (dir : string) : result string := inl OSError.
Definition sample_TIME_KEYWORDS : list string :=
  ["MJDREF"; "TIMEUNIT"; "TIMESYS"; "TIMEREF"].

Definition sample_read := read_events_info sample_fits sample_galactic
  sample_int_of_str sample_str_of_number sample_first_file_name
  sample_TIME_KEYWORDS.


Definition maker_same_time : DataStoreMaker :=
  DataStoreMaker_init ["run1.fits"; "run2.fits"] IrfsNone.


End DataSamples.

(** ** [gammapy/modeling/parameter.py]: the remaining methods *)

Module ParameterMore.
Import PyFloat ParameterModel.

(** What a method of [Parameters] can raise, besides the errors of the
    [Parameter] setters. *)
Inductive raised : Type :=
| Raised (e : exn)
| IndexError.

(** *** Bounds and scan range *)

(** The [min] and [max] setters on a float or [None] (a masked table entry
    counts as [None]): [None] becomes NaN. *)
Definition bound_of (val : option float) : float :=
  match val with
  | None => NaN
  | Some x => x
  end.

Definition set_min (p : parameter) (m : float) : parameter :=
  mk_parameter (_name p) (_value p) (_factor p) (_scale p) m (_max p) (_error p)
    (_frozen p) (_scan_n_sigma p) (_scale_method p) (_scale_transform p).

Definition set_max (p : parameter) (m : float) : parameter :=
  mk_parameter (_name p) (_value p) (_factor p) (_scale p) (_min p) m (_error p)
    (_frozen p) (_scan_n_sigma p) (_scale_method p) (_scale_transform p).

Definition min_setter (p : parameter) (val : option float) : parameter :=
  set_min p (bound_of val).

Definition max_setter (p : parameter) (val : option float) : parameter :=
  set_max p (bound_of val).

(** [set_lim(min, max)]: an argument that is [None] is skipped. *)
Definition set_lim (p : parameter) (min max : option float) : parameter :=
  let p1 := match min with Some _ => min_setter p min | None => p end in
  match max with Some _ => max_setter p1 max | None => p1 end.

(** [factor_min] and [factor_max]: [transform(min)], [transform(max)]. *)
Definition factor_min (p : parameter) : exn + float := transform0 p (_min p).
Definition factor_max (p : parameter) : exn + float := transform0 p (_max p).

(** [scan_min] and [scan_max]; the argument is the attribute [_scan_min]
    (respectively [_scan_max]) of the object, [None] when unset. *)
Definition scan_min (p : parameter) (_scan_min : option float) : float :=
  match _scan_min with
  | None => fsub (_value p) (fmul (_step p) (of_Z (_scan_n_sigma p)))
  | Some x => x
  end.

Definition scan_max (p : parameter) (_scan_max : option float) : float :=
  match _scan_max with
  | None => fadd (_value p) (fmul (_step p) (of_Z (_scan_n_sigma p)))
  | Some x => x
  end.

(** [check_limits]: [true] when the warning is logged.  On a boolean
    [~np.isnan(x)] is the negation. *)
Definition check_limits (p : parameter) : bool :=
  if negb (_frozen p)
  then (negb (fisnan (_min p)) && fltb (_value p) (_min p))
       || (negb (fisnan (_max p)) && fgtb (_value p) (_max p))
  else false.

(** *** The [scale_method] and [scale_transform] setters *)

Definition set_scale_method (p : parameter) (m : option ScaleMethod) : parameter :=
  mk_parameter (_name p) (_value p) (_factor p) (_scale p) (_min p) (_max p)
    (_error p) (_frozen p) (_scan_n_sigma p) m (_scale_transform p).

Definition set_scale_transform (p : parameter) (t : ScaleTransform) : parameter :=
  mk_parameter (_name p) (_value p) (_factor p) (_scale p) (_min p) (_max p)
    (_error p) (_frozen p) (_scan_n_sigma p) (_scale_method p) t.

(** The value handed to the setter is a string or [None]. *)
Definition parse_scale_method (val : option string) : option (option ScaleMethod) :=
  match val with
  | None => Some None
  | Some s =>
      if String.eqb s "scale10" then Some (Some Scale10)
      else if String.eqb s "factor1" then Some (Some Factor1)
      else None
  end.

Definition parse_scale_transform (val : string) : option ScaleTransform :=
  if String.eqb val "lin" then Some Lin
  else if String.eqb val "log" then Some Log
  else if String.eqb val "sqrt" then Some Sqrt
  else None.

Definition scale_method_setter (p : parameter) (val : option string)
  : exn + parameter :=
  match parse_scale_method val with
  | None => inl ValueError
  | Some m => inr (set_scale_method (reset_autoscale p) m)
  end.

Definition scale_transform_setter (p : parameter) (val : string)
  : exn + parameter :=
  match parse_scale_transform val with
  | None => inl ValueError
  | Some t => inr (set_scale_transform (reset_autoscale p) t)
  end.

(** *** Constructors *)




(** *** [Parameters] *)

Definition names (ps : parameters) (h : store) : list string :=
  map (fun a => _name (h a)) ps.

(** [list[i]] of Python: negative indices count from the end. *)
Definition py_getitem {A : Type} (l : list A) (i : Z) : option A :=
  if (0 <=? i)%Z then nth_error l (Z.to_nat i)
  else if (- Z.of_nat (length l) <=? i)%Z
       then nth_error l (Z.to_nat (Z.of_nat (length l) + i))
       else None.

(** [list.index(x)]: the first position of [x]. *)
Fixpoint list_index (x : loc) (l : list loc) : option nat :=
  match l with
  | [] => None
  | y :: rest =>
      if Nat.eqb y x then Some O
      else match list_index x rest with
           | Some i => Some (S i)
           | None => None
           end
  end.

Fixpoint name_index (val : string) (ps : parameters) (h : store) : option nat :=
  match ps with
  | [] => None
  | a :: rest =>
      if String.eqb val (_name (h a)) then Some O
      else match name_index val rest h with
           | Some i => Some (S i)
           | None => None
           end
  end.

(** The argument of [index] and [__getitem__]: an [int], a [Parameter]
    object or a name. *)
Inductive index_arg : Type :=
| ByInt (i : Z)
| ByParameter (a : loc)
| ByName (s : string).

Definition index (ps : parameters) (h : store) (val : index_arg) : raised + Z :=
  match val with
  | ByInt i => inr i
  | ByParameter a =>
      match list_index a ps with
      | Some i => inr (Z.of_nat i)
      | None => inl (Raised ValueError)
      end
  | ByName s =>
      match name_index s ps h with
      | Some i => inr (Z.of_nat i)
      | None => inl IndexError
      end
  end.

Definition getitem (ps : parameters) (h : store) (key : index_arg) : raised + loc :=
  match index ps h key with
  | inl e => inl e
  | inr idx =>
      match py_getitem ps idx with
      | Some a => inr a
      | None => inl IndexError
      end
  end.

(** [__getitem__] with a boolean mask. *)
Fixpoint getitem_mask (ps : parameters) (mask : list bool) : parameters :=
  match ps, mask with
  | a :: ps', b :: mask' =>
      if b then a :: getitem_mask ps' mask' else getitem_mask ps' mask'
  | _, _ => []
  end.

Definition free_parameters (ps : parameters) (h : store) : parameters :=
  List.filter (fun a => negb (_frozen (h a))) ps.

(** [dict.fromkeys(l)]: the distinct elements in the order of their first
    occurrence. *)
Fixpoint fromkeys (l : list loc) (seen : list loc) : list loc :=
  match l with
  | [] => []
  | a :: rest =>
      if existsb (Nat.eqb a) seen then fromkeys rest seen
      else a :: fromkeys rest (a :: seen)
  end.

Definition unique_parameters (ps : parameters) : parameters := fromkeys ps [].

Definition free_unique_parameters (ps : parameters) (h : store) : parameters :=
  List.filter (fun a => negb (_frozen (h a))) (unique_parameters ps).

(** The [value] getter and setter of the container. *)
Definition get_values (ps : parameters) (h : store) : list float :=
  map (fun a => _value (h a)) ps.

Fixpoint assign_values (items : list (float * loc)) (h : store)
  : store * option exn :=
  match items with
  | [] => (h, None)
  | (value, par) :: rest =>
      match value_setter (h par) value with
      | (p1, Some e) => (<[par := p1]> h, Some e)
      | (p1, None) => assign_values rest (<[par := p1]> h)
      end
  end.

Definition set_values (ps : parameters) (vals : list float) (h : store)
  : store * option exn :=
  if negb (length ps =? length vals)%nat then (h, Some ValueError)
  else assign_values (zip vals ps) h.

(** [set_parameter_factors(factors)]: [idx] advances on every slot that is
    not frozen; [factors[idx]] past the end raises [IndexError]. *)
Fixpoint set_parameter_factors (ps : parameters) (factors : list float)
    (idx : nat) (h : store) : store * option raised :=
  match ps with
  | [] => (h, None)
  | a :: rest =>
      if negb (_frozen (h a))
      then match nth_error factors idx with
           | Some f =>
               set_parameter_factors rest factors (S idx)
                 (<[a := factor_setter (h a) f]> h)
           | None => (h, Some IndexError)
           end
      else set_parameter_factors rest factors idx h
  end.

Fixpoint set_frozen_all (b : bool) (ps : parameters) (h : store) : store :=
  match ps with
  | [] => h
  | a :: rest => set_frozen_all b rest (<[a := set_frozen (h a) b]> h)
  end.

Definition freeze_all := set_frozen_all true.
Definition unfreeze_all := set_frozen_all false.


(** [__eq__]: [p is p_new] on the zipped slots, and equal lengths. *)
Definition parameters_eq (ps other : parameters) : bool :=
  forallb (fun pair => Nat.eqb (fst pair) (snd pair)) (zip ps other)
  && (length ps =? length other)%nat.

(** [from_stack] and [__add__]. *)
Definition from_stack (parameters_list : list parameters) : parameters :=
  concat parameters_list.

Definition add (ps other : parameters) : parameters := from_stack [ps; other].

(** [update_link_label]: the loop that collects the shared parameters, and
    the labels written; [labels] holds the attribute [_link_label_io] of
    every object and [make_name] is the name generator, asked once per shared
    parameter. *)
Fixpoint shared_loop (ps : parameters) (params_list params_shared : list loc)
  : list loc :=
  match ps with
  | [] => params_shared
  | param :: rest =>
      if negb (existsb (Nat.eqb param) params_list)
      then shared_loop rest (params_list ++ [param; param]) params_shared
      else if negb (existsb (Nat.eqb param) params_shared)
           then shared_loop rest params_list (params_shared ++ [param])
           else shared_loop rest params_list params_shared
  end.

Fixpoint label_loop (make_name : nat -> string) (k : nat) (shared : list loc)
    (h : store) (labels : loc -> option string) : loc -> option string :=
  match shared with
  | [] => labels
  | param :: rest =>
      label_loop make_name (S k) rest h
        (<[param := Some (_name (h param) ++ "@" ++ make_name k)%string]> labels)
  end.

Definition update_link_label (make_name : nat -> string) (ps : parameters)
    (h : store) (labels : loc -> option string) : loc -> option string :=
  label_loop make_name 0 (shared_loop ps [] []) h labels.

(** [select(name, type, frozen)].  [name] is [None], one name or a list of
    names; a filter whose value is false in Python ([None], the empty string,
    the empty list) is skipped.  [types] holds the attribute [_type] of every
    object.  The mask entry starts as [True]; [&=] is bitwise, and on a
    Python [bool] so is [~]: [~True = -2] and [~False = -1]. *)
Inductive name_arg : Type :=
| NameNone
| NameStr (s : string)
| NameList (l : list string).

Definition name_filter (name : name_arg) : list string :=
  match name with
  | NameNone => []
  | NameStr s => if String.eqb s "" then [] else [s]
  | NameList l => l
  end.

Definition Z_of_bool (b : bool) : Z := if b then 1%Z else 0%Z.

Definition select_entry (name : list string) (type : option string)
    (frozen : option bool) (p : parameter) (p_type : option string) : bool :=
  let sel := 1%Z in
  let sel :=
    match name with
    | [] => sel
    | _ => Z.land sel (Z_of_bool (existsb (fun n => String.eqb n (_name p)) name))
    end in
  let sel :=
    match type with
    | None => sel
    | Some t =>
        if String.eqb t "" then sel
        else Z.land sel (Z_of_bool match p_type with
                                   | Some t' => String.eqb t t'
                                   | None => false
                                   end)
    end in
  let sel :=
    match frozen with
    | None => sel
    | Some true => Z.land sel (Z_of_bool (_frozen p))
    | Some false => Z.land sel (Z.lnot (Z_of_bool (_frozen p)))
    end in
  negb (Z.eqb sel 0).

Definition select (ps : parameters) (h : store) (types : loc -> option string)
    (name : name_arg) (type : option string) (frozen : option bool)
  : parameters :=
  getitem_mask ps
    (map (fun a => select_entry (name_filter name) type frozen (h a) (types a)) ps).

End ParameterMore.

(** ** [DataStoreMaker]: the HDU index table and [run] *)

Module DataStoreMakerMore.
Import DataStoreModel DataStoreMakerModel.

(** [HDUIndexTable(rows=rows, names=names)] as the maker builds it: the
    rows are dictionaries, and [meta] starts empty. *)
Record HDUIndexTableRows : Type := mkHDUIndexTableRows {
  hdu_table_rows : list dict;
  hdu_table_names : list string;
  hdu_table_meta : dict
}.

Section MakerMore.

Variable fits_events_header : string -> result (gmap string value).
Variable galactic : Q -> Q -> Q * Q.
Variable int_of_str : string -> option Z.
Variable str_of_number : value -> string.
Variable first_file_name : string -> result string.
Variable TIME_KEYWORDS : list string.

(** [Path(p).parent.as_posix()] and [Path(p).name]. *)
Variable path_parent : string -> string.
Variable path_name : string -> string.

(** [dict(OBS_ID=..., FILE_DIR=path.parent.as_posix(), FILE_NAME=path.name)]. *)
Definition file_info (obs_id : value) (path : string) : dict :=
  [("OBS_ID", obs_id); ("FILE_DIR", VStr (path_parent path));
   ("FILE_NAME", VStr (path_name path))]%string.

(** [dict(HDU_TYPE=..., HDU_CLASS=..., HDU_NAME=..., **info)]. *)
Definition hdu_row (hdu_type hdu_class hdu_name : string) (info : dict) : dict :=
  [("HDU_TYPE", VStr hdu_type); ("HDU_CLASS", VStr hdu_class);
   ("HDU_NAME", VStr hdu_name)]%string ++ info.

(** [Path(x)]: a [str] is needed. *)
Definition py_Path (v : value) : result string :=
  match v with
  | VStr s => inr s
  | _ => inl TypeError
  end.

(** [get_hdu_table_rows]: the rows the generator yields when it is run to
    its end, or the error that ends it. *)
Definition get_hdu_table_rows (m : DataStoreMaker) (events_path : string)
    (irf_path : option string) : DataStoreMaker * result (list dict) :=
  match get_obs_info fits_events_header galactic int_of_str str_of_number
          first_file_name TIME_KEYWORDS m events_path irf_path with
  | (m1, inl e) => (m1, inl e)
  | (m1, inr events_info) =>
      (m1,
       let? obs_id := getitem events_info "OBS_ID" in
       let info := file_info obs_id events_path in
       let rows := [hdu_row "events" "events" "EVENTS" info;
                    hdu_row "gti" "gti" "GTI" info] in
       let? irf_filename := getitem events_info "IRF_FILENAME" in
       let? irf_path := py_Path irf_filename in
       let? obs_id := getitem events_info "OBS_ID" in
       let info := file_info obs_id irf_path in
       inr (rows ++
            [hdu_row "aeff" "aeff_2d" "EFFECTIVE AREA" info;
             hdu_row "edisp" "edisp_2d" "ENERGY DISPERSION" info;
             hdu_row "psf" "psf_3gauss" "POINT SPREAD FUNCTION" info;
             hdu_row "bkg" "bkg_3d" "BACKGROUND" info]))
  end.

(** The loop of [make_hdu_table]. *)
Fixpoint hdu_table_loop (m : DataStoreMaker)
    (pairs : list (string * option string)) (rows : list dict)
  : DataStoreMaker * result (list dict) :=
  match pairs with
  | [] => (m, inr rows)
  | (events_path, irf_path) :: rest =>
      match get_hdu_table_rows m events_path irf_path with
      | (m1, inl e) => (m1, inl e)
      | (m1, inr new_rows) => hdu_table_loop m1 rest (rows ++ new_rows)
      end
  end.

(** [DataStoreMaker.make_hdu_table]; [rows[0]] raises [IndexError] when
    there is no row. *)
Definition make_hdu_table (m : DataStoreMaker)
  : DataStoreMaker * result HDUIndexTableRows :=
  match hdu_table_loop m (zip (events_paths m) (irfs_paths m)) [] with
  | (m1, inl e) => (m1, inl e)
  | (m1, inr rows) =>
      match rows with
      | [] => (m1, inl IndexError)
      | row0 :: _ =>
          let names := dict_keys row0 in
          let meta : dict := [] in
          let meta := dict_set meta "HDUCLASS" (VStr "GADF") in
          let meta := dict_set meta "HDUDOC"
            (VStr "https://github.com/open-gamma-ray-astro/gamma-astro-data-formats") in
          let meta := dict_set meta "HDUVERS" (VStr "0.2") in
          let meta := dict_set meta "HDUCLAS1" (VStr "INDEX") in
          let meta := dict_set meta "HDUCLAS2" (VStr "HDU") in
          (m1, inr (mkHDUIndexTableRows rows names meta))
      end
  end.

(** [DataStoreMaker.run]: the two tables that are handed to [DataStore]. *)
Definition run (m : DataStoreMaker)
  : DataStoreMaker * result (HDUIndexTableRows * ObservationTable) :=
  match make_hdu_table m with
  | (m1, inl e) => (m1, inl e)
  | (m1, inr hdu_table) =>
      match make_obs_table fits_events_header galactic int_of_str str_of_number
              first_file_name TIME_KEYWORDS m1 with
      | (m2, inl e) => (m2, inl e)
      | (m2, inr obs_table) => (m2, inr (hdu_table, obs_table))
      end
  end.

End MakerMore.

(** [table[name]]: one column of a table made from rows. *)
Definition column (rows : list dict) (name : string) : list (option value) :=
  map (fun row => dict_get row name) rows.

(** [DataStoreChecker.check_consistency]: the records it yields; the two
    arguments are the [OBS_ID] columns of the observation table and of the
    HDU index table. *)
Inductive check_record : Type :=
| CheckError (msg : string).

(** [==] on the cells of a column, and [set(a) == set(b)]. *)
Definition cell_eqb (a b : option value) : bool :=
  match a, b with
  | Some x, Some y => value_eqb x y
  | None, None => true
  | _, _ => false
  end.

Definition cell_mem (x : option value) (l : list (option value)) : bool :=
  existsb (cell_eqb x) l.

Definition set_eqb (a b : list (option value)) : bool :=
  forallb (fun x => cell_mem x b) a && forallb (fun x => cell_mem x a) b.

Definition check_consistency
    (obs_table_obs_id hdu_table_obs_id : list (option value))
  : list check_record :=
  if negb (set_eqb obs_table_obs_id hdu_table_obs_id)
  then [CheckError "Inconsistent OBS_ID in obs and HDU index tables"]
  else [].

End DataStoreMakerMore.

(** ** Side conditions and sample objects for the remaining methods *)

Module MoreSamples.
Import PyFloat ParameterModel ParameterMore Samples.
Local Open Scope R_scope.

(** The three scales on real numbers. *)
Definition Rinterp (t : ScaleTransform) (v : R) : R :=
  match t with
  | Lin => v
  | Log => ln v
  | Sqrt => Rsign v * sqrt (Rabs v)
  end.

(** [Parameter("amplitude", 3e-12)] with bounds [1e-13, 1e-10]: the
    constructor leaves [factor = value / 1]. *)
Definition par_amplitude : parameter :=
  mk_parameter "amplitude" (Fin (3 / 1000000000000)) (Fin (3 / 1000000000000))
    (Fin 1) (Fin (1 / 10000000000000)) (Fin (1 / 10000000000)) (Fin 0) false 2
    (Some Scale10) Lin.

(** [Parameter("lambda", 5.0, scale_transform="log")]: [factor = log(5)]. *)
Definition par_lambda : parameter :=
  mk_parameter "lambda" (Fin 5) (Fin (ln 5)) (Fin 1) NaN NaN (Fin 0) false 2
    (Some Scale10) Log.

(** A frozen parameter outside its bounds. *)
Definition par_frozen_outside : parameter :=
  mk_parameter "z" (Fin 5) (Fin 5) (Fin 1) (Fin 0) (Fin 1) (Fin 0) true 2
    (Some Scale10) Lin.

(** A store with three different objects and one filler, and containers
    over it: one without repetition and one that links slot 0 and slot 2. *)
Definition store3 : store :=
  fun a => match a with
           | O => par_index
           | S O => par_frozen_outside
           | S (S O) => par_amplitude
           | _ => par_norm
           end.

Definition ps_distinct : parameters := [0%nat; 1%nat; 2%nat].
Definition ps_linked : parameters := [0%nat; 1%nat; 0%nat; 2%nat; 1%nat].

Definition no_labels : loc -> option string := fun _ => None.
Definition no_types : loc -> option string := fun _ => None.
Definition sample_types : loc -> option string :=
  fun a => match a with O => Some "spectral"%string | _ => Some "spatial"%string end.
Definition sample_make_name (k : nat) : string :=
  match k with O => "aaaa" | S O => "bbbb" | _ => "cccc" end.

(** The plain reading of one [select] filter set on one parameter. *)
Definition matches (name : list string) (type : option string)
    (frozen : option bool) (p : parameter) (p_type : option string) : bool :=
  match name with
  | [] => true
  | _ => existsb (fun n => String.eqb n (_name p)) name
  end
  && match type with
     | None => true
     | Some t => if String.eqb t "" then true
                 else match p_type with
                      | Some t' => String.eqb t t'
                      | None => false
                      end
     end
  && match frozen with
     | None => true
     | Some b => Bool.eqb (_frozen p) b
     end.



End MoreSamples.

Module DataMoreSamples.
Import DataStoreModel DataSamples.

(** Whether [obs_id] is one of [obs_ids], and whether [obs] returns for it. *)
Definition known (t : HDUIndexTable) (i : Z) : bool := Z_mem i (obs_ids t).

Definition resolves (t : HDUIndexTable) (required_irf : required_irf_arg)
    (require_events : bool) (i : Z) : bool :=
  match obs t i required_irf require_events with
  | inr _ => true
  | inl _ => false
  end.

(** The warnings [get_observations] writes before it resolves anything. *)
Definition missing_warnings (t : HDUIndexTable) (ids : list Z) : list log_record :=
  map WarnSkipMissingObsId (List.filter (fun i => negb (known t i)) ids).

Definition not_unique_warning (ids : list Z) : list log_record :=
  if decide (NoDup ids) then [] else [WarnNotUnique (multiples_of ids)].

Definition is_request_warning (r : log_record) : Prop :=
  match r with
  | WarnSkipMissingObsId _ | WarnNotUnique _ => True
  | _ => False
  end.

End DataMoreSamples.

Module MakerMoreSamples.
Import DataStoreModel DataStoreMakerModel DataStoreMakerMore DataSamples.

(** The time keywords do not name an entry that [read_events_info] fills
    from elsewhere. *)
Definition time_keywords_apart (TIME_KEYWORDS : list string) : Prop :=
  ("OBS_ID"%string ∉ TIME_KEYWORDS) /\
  ("IRF_FILENAME"%string ∉ TIME_KEYWORDS) /\
  ("EVENTS_FILENAME"%string ∉ TIME_KEYWORDS).

(** The six HDU types of the rows made for one events file, in order. *)
Definition made_hdu_types : list string :=
  ["events"; "gti"; "aeff"; "edisp"; "psf"; "bkg"].

(** The sample file names have no directory part. *)
Definition sample_path_parent (p : string) : string := ".".
Definition sample_path_name (p : string) : string := p.

Definition sample_make_hdu_table := make_hdu_table sample_fits sample_galactic
  sample_int_of_str sample_str_of_number sample_first_file_name
  sample_TIME_KEYWORDS sample_path_parent sample_path_name.

Definition sample_run := run sample_fits sample_galactic
  sample_int_of_str sample_str_of_number sample_first_file_name
  sample_TIME_KEYWORDS sample_path_parent sample_path_name.

Definition sample_get_events_info := get_events_info sample_fits sample_galactic
  sample_int_of_str sample_str_of_number sample_first_file_name
  sample_TIME_KEYWORDS.

(** Three events files and two IRF paths. *)
Definition maker_short_irfs : DataStoreMaker :=
  DataStoreMaker_init ["run1.fits"; "run2.fits"; "drift.fits"]
    (IrfsList ["irf1.fits"; "irf2.fits"]).

End MakerMoreSamples.

(* ===================================================================== *)
(** * Part II -- properties                                                *)
(* ===================================================================== *)

(** ** Facts about the float operations *)

Module PyFloatFacts.
Import PyFloat.
Local Open Scope R_scope.

Ltac case_real :=
  repeat match goal with
  | |- context [Rlt_dec ?a ?b] => destruct (Rlt_dec a b)
  | |- context [Req_dec_T ?a ?b] => destruct (Req_dec_T a b)
  end.

Lemma feqb_refl_fin (r : R) : feqb (Fin r) (Fin r) = true.
Proof. simpl. case_real; congruence. Qed.

Lemma feqb_fin (a b : R) : a = b -> feqb (Fin a) (Fin b) = true.
Proof. intros ->. apply feqb_refl_fin. Qed.

Lemma feqb_nan_r (x : float) : feqb x NaN = false.
Proof. destruct x; reflexivity. Qed.

Lemma fdiv_fin (a b : R) : fdiv (Fin a) (Fin b) = Fin (a / b).
Proof. reflexivity. Qed.

Lemma py_div_nonzero (x : float) (b : R) :
  b <> 0 -> py_div x (Fin b) = Some (fdiv x (Fin b)).
Proof. intros Hb. unfold py_div. simpl. case_real; congruence. Qed.

Lemma py_div_zero (x : float) : py_div x (Fin 0) = None.
Proof. unfold py_div. simpl. case_real; congruence. Qed.

Lemma fmul_fin (a b : R) : fmul (Fin a) (Fin b) = Fin (a * b).
Proof. reflexivity. Qed.

Lemma flog_pos (r : R) : 0 < r -> flog (Fin r) = Fin (ln r).
Proof. intros Hr. simpl. case_real; [reflexivity | lra | lra]. Qed.


Lemma fsqrt_abs (r : R) : fsqrt (fabs (Fin r)) = Fin (sqrt (Rabs r)).
Proof.
  simpl. pose proof (Rabs_pos r). case_real; [lra | reflexivity].
Qed.

Lemma Rsign_pos (r : R) : 0 < r -> Rsign r = 1.
Proof. intros. unfold Rsign. case_real; lra. Qed.

Lemma Rsign_neg (r : R) : r < 0 -> Rsign r = -1.
Proof. intros. unfold Rsign. case_real; lra. Qed.

Lemma Rsign_zero : Rsign 0 = 0.
Proof. unfold Rsign. case_real; lra. Qed.






End PyFloatFacts.

(** ** Properties of [Parameter] *)

Module ParameterFacts.
Import PyFloat PyFloatFacts ParameterModel Samples.
Local Open Scope R_scope.

Lemma transform0_nonzero (p : parameter) (s : R) (v : float) :
  _scale p = Fin s -> s <> 0 ->
  transform0 p v = inr (fdiv (interp_scale (_scale_transform p) v) (Fin s)).
Proof.
  intros Hsc Hs. unfold transform0, transform. cbn [snd].
  rewrite Hsc, py_div_nonzero by assumption. reflexivity.
Qed.












(** *** Confidence bounds *)

Lemma step_fin (p : parameter) (v e : R) :
  _value p = Fin v -> _error p = Fin e -> _step p = Fin (Rstep v e).
Proof.
  intros Hv He. unfold _step, fgtb, Rstep. rewrite Hv, He. cbn.
  destruct (Rlt_dec 0 e); reflexivity.
Qed.

Lemma large_step_fin (p : parameter) (v e : R) :
  _value p = Fin v -> _error p = Fin e -> large_step p = Fin (Rlarge_step v e).
Proof.
  intros Hv He. unfold large_step. rewrite (step_fin p v e Hv He), Hv.
  reflexivity.
Qed.

Lemma conf_min_derived (p : parameter) (v e : R) :
  _value p = Fin v -> _error p = Fin e -> fisnan (_min p) = true ->
  conf_min p = Fin (Rmin (v - Rstep v e * IZR (_scan_n_sigma p))
                         (- (Rlarge_step v e * 100000))).
Proof.
  intros Hv He Hnan. unfold conf_min. rewrite Hnan. cbn [negb].
  rewrite (large_step_fin p v e Hv He), (step_fin p v e Hv He), Hv.
  cbn. f_equal. f_equal; ring.
Qed.

Lemma conf_max_derived (p : parameter) (v e : R) :
  _value p = Fin v -> _error p = Fin e -> fisnan (_max p) = true ->
  conf_max p = Fin (Rmax (v + Rstep v e * IZR (_scan_n_sigma p))
                         (Rlarge_step v e * 100000)).
Proof.
  intros Hv He Hnan. unfold conf_max. rewrite Hnan. cbn [negb].
  rewrite (large_step_fin p v e Hv He), (step_fin p v e Hv He), Hv.
  reflexivity.
Qed.

Lemma Rlarge_step_ge_abs (v e : R) : Rabs v <= Rlarge_step v e.
Proof. unfold Rlarge_step. apply Rmax_r. Qed.

(** C5 (amended).  For a parameter with a finite value and error: an
    explicit (non-NaN) bound is returned unchanged; when [min] is NaN,
    [conf_min] is the smaller of [value - step * scan_n_sigma] and
    [-large_step * 1e5]; when [max] is NaN, [conf_max] is the larger of
    [value + step * scan_n_sigma] and [large_step * 1e5], with
    [step = error if error > 0 else |value|] and
    [large_step = max(step, |value|)].  The clamp is measured from zero: the
    bound is [large_step * 1e5] away from the value when the value lies on
    the other side of zero. *)
Theorem conf_bounds_derivation (p : parameter) (v e : R) :
  _value p = Fin v -> _error p = Fin e ->
  let n := IZR (_scan_n_sigma p) in
  let step := Rstep v e in
  let large := Rlarge_step v e in
  (fisnan (_min p) = false -> conf_min p = _min p) /\
  (fisnan (_max p) = false -> conf_max p = _max p) /\
  (fisnan (_min p) = true ->
     conf_min p = Fin (Rmin (v - step * n) (- (large * 100000))) /\
     (0 <= v -> large * 100000 <= v - Rmin (v - step * n) (- (large * 100000)))) /\
  (fisnan (_max p) = true ->
     conf_max p = Fin (Rmax (v + step * n) (large * 100000)) /\
     (v <= 0 -> large * 100000 <= Rmax (v + step * n) (large * 100000) - v)).
Proof.
  intros Hv He n step large. repeat split.
  - intros H. unfold conf_min. rewrite H. reflexivity.
  - intros H. unfold conf_max. rewrite H. reflexivity.
  - apply conf_min_derived; assumption.
  - intros H0. pose proof (Rmin_r (v - step * n) (- (large * 100000))). lra.
  - apply conf_max_derived; assumption.
  - intros H0. pose proof (Rmax_r (v + step * n) (large * 100000)). lra.
Qed.

Lemma conf_bounds_derivation_witness :
  (fisnan (_min par_norm) = false -> conf_min par_norm = _min par_norm) /\
  (fisnan (_max par_norm) = false -> conf_max par_norm = _max par_norm) /\
  (fisnan (_min par_norm) = true ->
     conf_min par_norm
       = Fin (Rmin (1 - Rstep 1 0 * IZR 2) (- (Rlarge_step 1 0 * 100000))) /\
     (0 <= 1 -> Rlarge_step 1 0 * 100000
                <= 1 - Rmin (1 - Rstep 1 0 * IZR 2) (- (Rlarge_step 1 0 * 100000)))) /\
  (fisnan (_max par_norm) = true ->
     conf_max par_norm
       = Fin (Rmax (1 + Rstep 1 0 * IZR 2) (Rlarge_step 1 0 * 100000)) /\
     (1 <= 0 -> Rlarge_step 1 0 * 100000
                <= Rmax (1 + Rstep 1 0 * IZR 2) (Rlarge_step 1 0 * 100000) - 1)).
Proof.
  apply (conf_bounds_derivation par_norm 1 0); reflexivity.
Defined.

Lemma Rstep_1_0 : Rstep 1 0 = 1.
Proof. unfold Rstep. destruct (Rlt_dec 0 0); [lra |]. apply Rabs_right. lra. Qed.

Lemma Rlarge_step_1_0 : Rlarge_step 1 0 = 1.
Proof.
  unfold Rlarge_step. rewrite Rstep_1_0.
  rewrite Rabs_right by lra. apply Rmax_left. lra.
Qed.

(** C5 as stated fails: for [Parameter("norm", 1.0)] (error 0, no bounds)
    [conf_max] is [1e5], which is [99999] above the value and not
    [large_step * 1e5 = 1e5] above it. *)
Lemma conf_max_clamp_not_relative_to_value :
  conf_max par_norm = Fin 100000 /\
  fmul (large_step par_norm) (Fin 100000) = Fin 100000 /\
  fgeb (fsub (conf_max par_norm) (_value par_norm))
       (fmul (large_step par_norm) (Fin 100000)) = false.
Proof.
  assert (Hmax : conf_max par_norm = Fin 100000).
  { rewrite (conf_max_derived par_norm 1 0) by reflexivity.
    rewrite Rstep_1_0, Rlarge_step_1_0. cbn [_scan_n_sigma par_norm].
    f_equal. rewrite Rmax_right by lra. lra. }
  assert (Hlarge : fmul (large_step par_norm) (Fin 100000) = Fin 100000).
  { rewrite (large_step_fin par_norm 1 0) by reflexivity.
    rewrite Rlarge_step_1_0. cbn. f_equal. lra. }
  repeat split; try assumption.
  rewrite Hmax, Hlarge. cbn. destruct (Rlt_dec (100000 + - (1)) 100000); [reflexivity | lra].
Qed.

(** *** Autoscaling *)


Lemma update_scale_factor1 (p : parameter) (t : float) :
  _scale_method p = Some Factor1 -> _scale (update_scale p t) = t.
Proof. intros H. unfold update_scale. rewrite H. reflexivity. Qed.


Lemma autoscale_nonzero (p : parameter) (s : R) :
  let t := interp_scale (_scale_transform p) (_value p) in
  let p1 := update_scale p t in
  _scale p1 = Fin s -> s <> 0 ->
  autoscale p = (factor_setter p1 (fdiv t (Fin s)), None).
Proof.
  intros t p1 Hsc Hs. unfold autoscale, transform. fold t. fold p1.
  rewrite Hsc, py_div_nonzero by assumption. reflexivity.
Qed.

Lemma autoscale_scale (p : parameter) :
  _scale (fst (autoscale p))
  = _scale (update_scale p (interp_scale (_scale_transform p) (_value p))).
Proof.
  unfold autoscale, transform.
  destruct (py_div _ _); reflexivity.
Qed.

(** C6 (amended).  Under [scale_method="factor1"], [transform(value,
    update_scale=True)] sets the scale to the transformed value
    [interp_scale(value)], which is the raw value under the linear transform
    only, and returns the factor 1 whenever that transformed value is finite
    and not zero; [autoscale()] therefore leaves [scale = interp_scale(value)]
    and [factor = 1]. *)
Theorem factor1_scale_is_transformed_value (p : parameter) (v : float) :
  _scale_method p = Some Factor1 ->
  let t := interp_scale (_scale_transform p) v in
  _scale (fst (transform p v true)) = t /\
  (finite_nonzero t -> snd (transform p v true) = inr (Fin 1)) /\
  (v = _value p -> _scale (fst (autoscale p)) = t) /\
  (v = _value p -> finite_nonzero t ->
     snd (autoscale p) = None /\ _factor (fst (autoscale p)) = Fin 1).
Proof.
  intros Hm t.
  assert (Hs : _scale (update_scale p t) = t) by (apply update_scale_factor1; exact Hm).
  assert (Hone : forall r, r <> 0 -> fdiv (Fin r) (Fin r) = Fin 1).
  { intros r Hr. rewrite fdiv_fin. f_equal. now field. }
  split; [exact Hs |]. split; [| split].
  - intros (r & Hr & Hr0). unfold transform. cbn [snd]. fold t.
    rewrite Hs, Hr, py_div_nonzero, Hone by assumption. reflexivity.
  - intros ->. rewrite autoscale_scale. exact Hs.
  - intros -> (r & Hr & Hr0). subst t.
    rewrite (autoscale_nonzero p r) by (try rewrite Hs; assumption).
    cbn. split; [reflexivity |]. rewrite Hr. apply Hone, Hr0.
Qed.

Lemma sqrt_4 : sqrt 4 = 2.
Proof. replace 4 with (2 * 2) by lra. apply sqrt_square. lra. Qed.

Lemma interp_sqrt_4 : interp_scale Sqrt (Fin 4) = Fin 2.
Proof.
  cbn [interp_scale]. rewrite fsqrt_abs. cbn [fsign]. rewrite fmul_fin.
  rewrite Rsign_pos by lra. rewrite Rabs_right by lra. rewrite sqrt_4.
  f_equal. lra.
Qed.

Lemma factor1_scale_is_transformed_value_witness :
  _scale (fst (transform par_sqrt_factor1 (Fin 4) true)) = interp_scale Sqrt (Fin 4) /\
  snd (transform par_sqrt_factor1 (Fin 4) true) = inr (Fin 1) /\
  _scale (fst (autoscale par_sqrt_factor1)) = interp_scale Sqrt (Fin 4) /\
  snd (autoscale par_sqrt_factor1) = None /\
  _factor (fst (autoscale par_sqrt_factor1)) = Fin 1.
Proof.
  destruct (factor1_scale_is_transformed_value par_sqrt_factor1 (Fin 4) eq_refl)
    as (Hs & Hf & Hs' & Hf').
  assert (Hnz : finite_nonzero (interp_scale (_scale_transform par_sqrt_factor1) (Fin 4))).
  { exists 2. split; [apply interp_sqrt_4 | lra]. }
  split; [exact Hs |]. split; [exact (Hf Hnz) |].
  split; [exact (Hs' eq_refl) |]. exact (Hf' eq_refl Hnz).
Defined.

(** C6 as stated fails: for [Parameter("x", 4.0, scale_method="factor1",
    scale_transform="sqrt")], [autoscale()] sets the scale to the transformed
    value 2, not to the raw value 4. *)
Lemma factor1_scale_is_not_raw_value :
  _value par_sqrt_factor1 = Fin 4 /\
  snd (autoscale par_sqrt_factor1) = None /\
  _scale (fst (autoscale par_sqrt_factor1)) = Fin 2 /\
  _scale (fst (autoscale par_sqrt_factor1)) <> _value par_sqrt_factor1.
Proof.
  assert (Hs : _scale (update_scale par_sqrt_factor1
                         (interp_scale (_scale_transform par_sqrt_factor1)
                            (_value par_sqrt_factor1))) = Fin 2).
  { rewrite update_scale_factor1 by reflexivity. apply interp_sqrt_4. }
  assert (H2 : (2 <> 0)%R) by lra.
  rewrite (autoscale_nonzero par_sqrt_factor1 2 Hs H2). cbn [fst snd].
  split; [reflexivity |]. split; [reflexivity |].
  unfold factor_setter. cbn [_scale set_value set_factor].
  rewrite Hs. split; [reflexivity |]. cbn. intros Heq. injection Heq. lra.
Qed.

(** Under [factor1] a negative value gives a negative scale and the factor
    1: the sign is not kept in the factor. *)
Lemma factor1_negative_value_negative_scale :
  snd (autoscale par_lin_factor1_negative) = None /\
  _scale (fst (autoscale par_lin_factor1_negative)) = Fin (-3) /\
  _factor (fst (autoscale par_lin_factor1_negative)) = Fin 1.
Proof.
  assert (H3 : (-3 <> 0)%R) by lra.
  rewrite (autoscale_nonzero par_lin_factor1_negative (-3) eq_refl H3).
  cbn. repeat split. f_equal. now field.
Qed.




(** *** [restore_status] *)

Lemma value_setter_nonzero (p : parameter) (v : float) :
  nonzero_scale p ->
  exists q, value_setter p v = (q, None) /\ _value q = v /\
            _frozen q = _frozen p /\ _scale q = _scale p.
Proof.
  intros Hnz. unfold value_setter, transform0, transform, py_div.
  cbn [snd set_value _scale _scale_transform].
  unfold nonzero_scale in Hnz. rewrite Hnz.
  eexists. repeat split.
Qed.

Section RestoreStatus.

Context {E : Type}.
Implicit Types (h : store) (ps : parameters) (a : loc).




End RestoreStatus.


(** *** The [frozen] setter *)

(** C10.  Assigning the string "False" to [frozen] sets it to True: the
    strings "True" and "False" go through [bool()], which is True for any
    non-empty string.  A boolean is stored as it is, and every other value,
    other strings included, raises a [TypeError]. *)
Theorem frozen_setter_string_False (p : parameter) :
  frozen_setter p (PyStr "False") = inr (set_frozen p true) /\
  frozen_setter p (PyStr "True") = inr (set_frozen p true) /\
  (forall b, frozen_setter p (PyBool b) = inr (set_frozen p b)) /\
  (forall b, frozen_setter p (PyNpBool b) = inr (set_frozen p b)) /\
  (forall v, not_boolean_like v -> frozen_setter p v = inl TypeError).
Proof.
  split; [reflexivity |]. split; [reflexivity |].
  split; [intros b; reflexivity |]. split; [intros b; reflexivity |].
  intros v Hv. unfold frozen_setter.
    destruct v as [b | b | s | z | x |]; try contradiction; try reflexivity.
    destruct Hv as [Ht Hf]. cbn.
    apply String.eqb_neq in Ht, Hf. rewrite Ht, Hf. reflexivity.
Qed.

Lemma frozen_setter_string_False_witness :
  _frozen par_index = false /\
  (exists q, frozen_setter par_index (PyStr "False") = inr q /\ _frozen q = true) /\
  frozen_setter par_index (PyStr "false") = inl TypeError /\
  frozen_setter par_index (PyInt 0) = inl TypeError.
Proof.
  destruct (frozen_setter_string_False par_index) as (HF & _ & _ & _ & Hother).
  split; [reflexivity |]. split; [| split].
  - exists (set_frozen par_index true). split; [exact HF | reflexivity].
  - apply Hother. split; discriminate.
  - apply Hother. exact I.
Defined.

End ParameterFacts.

(** ** Properties of [DataStore] *)

Module DataStoreFacts.
Import DataStoreModel DataSamples.

Lemma mem_elem_of (x : string) (l : list string) : mem x l = true <-> x ∈ l.
Proof.
  unfold mem. rewrite existsb_exists. split.
  - intros (y & Hy & Heq). apply String.eqb_eq in Heq. subst.
    apply list_elem_of_In. exact Hy.
  - intros H. exists x. split; [apply list_elem_of_In; exact H | apply String.eqb_refl].
Qed.

Lemma issubset_elem_of (l1 l2 : list string) :
  issubset l1 l2 = true -> forall x, x ∈ l1 -> x ∈ l2.
Proof.
  unfold issubset. rewrite forallb_forall. intros H x Hx.
  apply mem_elem_of, H, list_elem_of_In, Hx.
Qed.

Lemma ALL_IRFS_in_ALL_HDUS (x : string) : x ∈ ALL_IRFS -> x ∈ ALL_HDUS.
Proof. unfold ALL_HDUS. intros H. apply elem_of_app. right. exact H. Qed.

(** What the loop over the HDU types leaves in [kw] and [missing_hdus]. *)
Lemma locate_hdus_spec (t : HDUIndexTable) (obs_id : Z) (required : list string)
    (hdus : list string) :
  forall kw missing,
    let r := locate_hdus t obs_id required hdus kw missing in
    snd r = missing ++ filter (fun hdu => mem hdu required = true)
                         (filter (fun hdu => hdu_location t obs_id hdu = None) hdus) /\
    (forall h, h ∈ hdus -> is_Some (hdu_location t obs_id h) ->
               fst r !! h = hdu_location t obs_id h) /\
    (forall h, h ∉ hdus \/ hdu_location t obs_id h = None -> fst r !! h = kw !! h).
Proof.
  induction hdus as [| hdu rest IH]; intros kw missing; cbn [locate_hdus]; cbv zeta.
  - split; [| split].
    + cbn. rewrite app_nil_r. reflexivity.
    + intros h Hh. inversion Hh.
    + intros h _. reflexivity.
  - rewrite !filter_cons.
    destruct (hdu_location t obs_id hdu) as [l |] eqn:Hloc.
    + destruct (IH (<[hdu := l]> kw) missing) as (Hm & Hin & Hout).
      cbv zeta in Hm, Hin, Hout.
      rewrite decide_False by discriminate. split; [exact Hm |]. split.
      * intros h Hh Hsome. destruct (decide (h ∈ rest)) as [Hr | Hr].
        -- apply Hin; assumption.
        -- apply elem_of_cons in Hh as [-> | Hh]; [| contradiction].
           rewrite Hout by (left; exact Hr). rewrite lookup_insert_eq. congruence.
      * intros h [Hh | Hnone].
        -- apply not_elem_of_cons in Hh as [Hne Hr].
           rewrite Hout by (left; exact Hr). apply lookup_insert_ne. congruence.
        -- rewrite Hout by (right; exact Hnone). apply lookup_insert_ne.
           intros ->. congruence.
    + rewrite decide_True by reflexivity. rewrite filter_cons.
      destruct (mem hdu required) eqn:Hreq.
      * destruct (IH kw (missing ++ [hdu])) as (Hm & Hin & Hout).
        cbv zeta in Hm, Hin, Hout.
        rewrite decide_True by reflexivity. split; [| split].
        -- rewrite Hm, <- app_assoc. reflexivity.
        -- intros h Hh Hsome. apply Hin; [| exact Hsome].
           apply elem_of_cons in Hh as [-> | Hh]; [| exact Hh].
           rewrite Hloc in Hsome. destruct Hsome as [? Hx]. discriminate.
        -- intros h [Hh | Hnone].
           ++ apply Hout. left. apply not_elem_of_cons in Hh as [_ Hr]. exact Hr.
           ++ apply Hout. right. exact Hnone.
      * destruct (IH kw missing) as (Hm & Hin & Hout).
        cbv zeta in Hm, Hin, Hout.
        rewrite decide_False by discriminate. split; [exact Hm | split].
        -- intros h Hh Hsome. apply Hin; [| exact Hsome].
           apply elem_of_cons in Hh as [-> | Hh]; [| exact Hh].
           rewrite Hloc in Hsome. destruct Hsome as [? Hx]. discriminate.
        -- intros h [Hh | Hnone].
           ++ apply Hout. left. apply not_elem_of_cons in Hh as [_ Hr]. exact Hr.
           ++ apply Hout. right. exact Hnone.
Qed.

Lemma locate_all_hdus (t : HDUIndexTable) (obs_id : Z) (required : list string) :
  let r := locate_hdus t obs_id required ALL_HDUS ∅ [] in
  snd r = missing_of t obs_id required /\
  (forall h, h ∈ ALL_HDUS -> fst r !! h = hdu_location t obs_id h) /\
  (forall h, h ∉ ALL_HDUS -> fst r !! h = None).
Proof.
  destruct (locate_hdus_spec t obs_id required ALL_HDUS ∅ []) as (Hm & Hin & Hout).
  cbv zeta in *. split; [exact Hm | split].
  - intros h Hh. destruct (hdu_location t obs_id h) as [l |] eqn:Hloc.
    + rewrite <- Hloc. apply Hin; [exact Hh | rewrite Hloc; eauto].
    + rewrite Hout by (right; exact Hloc). apply lookup_empty.
  - intros h Hh. rewrite Hout by (left; exact Hh). apply lookup_empty.
Qed.

(** The missing list is the required set minus the present set. *)
Lemma missing_of_difference (t : HDUIndexTable) (obs_id : Z) (required : list string) :
  (forall h, h ∈ required -> h ∈ ALL_HDUS) ->
  forall h, h ∈ missing_of t obs_id required <->
            h ∈ required /\ h ∉ present_hdus t obs_id.
Proof.
  intros Hsub h. unfold missing_of, present_hdus.
  rewrite !list_elem_of_filter, mem_elem_of. split.
  - intros (Hreq & Hnone & Hall). split; [exact Hreq |].
    intros (Hsome & _). rewrite Hnone in Hsome. destruct Hsome as [? Hx]. discriminate.
  - intros (Hreq & Hnot). split; [exact Hreq |]. split; [| apply Hsub, Hreq].
    destruct (hdu_location t obs_id h) eqn:Hloc; [| reflexivity].
    exfalso. apply Hnot. split; [eauto | apply Hsub, Hreq].
Qed.

Lemma required_set_in_ALL_HDUS (req : list string) (require_events : bool) :
  issubset req ALL_IRFS = true ->
  forall h, h ∈ required_set req require_events -> h ∈ ALL_HDUS.
Proof.
  intros Hsub h Hh. unfold required_set in Hh.
  assert (Hreq : h ∈ req -> h ∈ ALL_HDUS)
    by (intros Hr; apply ALL_IRFS_in_ALL_HDUS, (issubset_elem_of _ _ Hsub), Hr).
  destruct require_events; [| auto].
  apply elem_of_app in Hh as [Hev | Hr]; [| auto].
  apply list_elem_of_In in Hev. apply list_elem_of_In.
  cbn in Hev. cbn. intuition.
Qed.

Lemma obs_unfold (t : HDUIndexTable) (obs_id : Z) (arg : required_irf_arg)
    (req : list string) (require_events : bool) :
  Z_mem obs_id (OBS_ID_column t) = true ->
  resolve_required_irf arg = inr req ->
  issubset req ALL_IRFS = true ->
  obs t obs_id arg require_events =
    let r := locate_hdus t obs_id (required_set req require_events) ALL_HDUS ∅ [] in
    if (0 <? length (snd r))%nat
    then inl (MissingRequiredHDU (snd r) obs_id)
    else inr (mkObservation obs_id (add_derived (fst r))).
Proof.
  intros Hid Hreq Hsub. unfold obs. rewrite Hid, Hreq. cbn [negb bind].
  rewrite Hsub. cbn [negb]. unfold required_set.
  destruct (locate_hdus t obs_id _ ALL_HDUS ∅ []) as [kw missing]. reflexivity.
Qed.

Lemma add_derived_lookup (kw : gmap string HDULocation) (h : string) :
  h <> "pointing" -> h <> "meta" -> add_derived kw !! h = kw !! h.
Proof.
  intros Hp Hm. unfold add_derived. destruct (kw !! "events"); [| reflexivity].
  rewrite !lookup_insert_ne by congruence. reflexivity.
Qed.

(** C3 (amended).  For an [obs_id] of the HDU index table and a valid
    [required_irf] (a known preset or keys among [ALL_IRFS]; anything else is
    refused with another error): [obs] fails with [MissingRequiredHDU]
    listing all missing required HDU types exactly when the effective
    required set minus the HDU types present is not empty.  Otherwise it
    returns a descriptor with every located HDU other than pointing and, when
    an events HDU is present, with [pointing] and [meta] set to copies of the
    events location retagged "pointing" and "observation_metadata": the
    synthetic pointing entry takes the place of a located pointing HDU. *)
Theorem obs_missing_or_descriptor (t : HDUIndexTable) (obs_id : Z)
    (arg : required_irf_arg) (req : list string) (require_events : bool) :
  Z_mem obs_id (OBS_ID_column t) = true ->
  resolve_required_irf arg = inr req ->
  issubset req ALL_IRFS = true ->
  let required := required_set req require_events in
  let missing := missing_of t obs_id required in
  (forall h, h ∈ missing <-> h ∈ required /\ h ∉ present_hdus t obs_id) /\
  (missing <> [] ->
     obs t obs_id arg require_events = inl (MissingRequiredHDU missing obs_id)) /\
  ((exists m k, obs t obs_id arg require_events = inl (MissingRequiredHDU m k))
     -> missing <> []) /\
  (missing = [] ->
     exists o, obs t obs_id arg require_events = inr o /\
       obs_id_of o = obs_id /\
       (forall h, h ∈ ALL_HDUS -> h <> "pointing" ->
                  kwargs o !! h = hdu_location t obs_id h) /\
       (forall ev, hdu_location t obs_id "events" = Some ev ->
                   kwargs o !! "pointing" = Some (retag ev "pointing") /\
                   kwargs o !! "meta" = Some (retag ev "observation_metadata")) /\
       (hdu_location t obs_id "events" = None ->
          kwargs o !! "pointing" = hdu_location t obs_id "pointing" /\
          kwargs o !! "meta" = None)).
Proof.
  intros Hid Hreq Hsub required missing.
  pose proof (obs_unfold t obs_id arg req require_events Hid Hreq Hsub) as Hobs.
  destruct (locate_all_hdus t obs_id required) as (Hm & Hin & Hout).
  cbv zeta in Hobs, Hm, Hin, Hout. fold required in Hobs. rewrite Hm in Hobs.
  fold missing in Hobs.
  assert (Hcase : missing = [] \/ (0 <? length missing)%nat = true).
  { destruct missing; [left; reflexivity | right; reflexivity]. }
  split; [apply missing_of_difference, required_set_in_ALL_HDUS, Hsub |].
  split; [| split].
  - intros Hne. destruct Hcase as [He | Hlen]; [contradiction |].
    rewrite Hobs, Hlen. reflexivity.
  - intros (m & k & Hfail) He. rewrite Hobs, He in Hfail. discriminate.
  - intros He. rewrite He in Hobs. cbn [length Nat.ltb Nat.leb] in Hobs.
    eexists. split; [exact Hobs |]. cbn [obs_id_of kwargs].
    assert (Hmeta : "meta" ∉ ALL_HDUS).
    { intros H. apply list_elem_of_In in H. cbn in H. intuition discriminate. }
    assert (Hev_in : "events" ∈ ALL_HDUS) by (apply list_elem_of_here).
    assert (Hpt_in : "pointing" ∈ ALL_HDUS)
      by (do 2 apply list_elem_of_further; apply list_elem_of_here).
    split; [reflexivity |]. split; [| split].
    + intros h Hh Hp. rewrite add_derived_lookup; [apply Hin, Hh | exact Hp |].
      intros ->. contradiction.
    + intros ev Hev. unfold add_derived. rewrite (Hin _ Hev_in), Hev.
      split.
      * rewrite lookup_insert_ne by discriminate. apply lookup_insert_eq.
      * apply lookup_insert_eq.
    + intros Hev. unfold add_derived. rewrite (Hin _ Hev_in), Hev.
      split; [apply Hin, Hpt_in | apply Hout, Hmeta].
Qed.


Lemma obs_missing_or_descriptor_witness :
  (exists o, obs table_1_3_5 1 (IrfPreset "point-like") true = inr o /\
             kwargs o !! "aeff" = hdu_location table_1_3_5 1 "aeff") /\
  obs table_1_3_5 5 (IrfPreset "point-like") true
    = inl (MissingRequiredHDU ["gti"; "aeff"; "edisp"] 5).
Proof.
  split.
  - destruct (obs_missing_or_descriptor table_1_3_5 1 (IrfPreset "point-like")
                ["aeff"; "edisp"] true eq_refl eq_refl eq_refl)
      as (_ & _ & _ & Hok).
    destruct (Hok eq_refl) as (o & Ho & _ & Hloc & _).
    exists o. split; [exact Ho |]. apply Hloc; [| discriminate].
    do 3 apply list_elem_of_further. apply list_elem_of_here.
  - destruct (obs_missing_or_descriptor table_1_3_5 5 (IrfPreset "point-like")
                ["aeff"; "edisp"] true eq_refl eq_refl eq_refl)
      as (_ & Hmiss & _).
    apply Hmiss. discriminate.
Defined.

(** C3 as stated fails: an observation with a located pointing HDU and an
    events HDU resolves to a descriptor whose [pointing] entry is the retagged
    events location; the located pointing HDU is in no entry. *)
Lemma obs_drops_located_pointing :
  hdu_location table_with_pointing 1 "pointing" = Some located_pointing /\
  exists o, obs table_with_pointing 1 (IrfPreset "all-optional") true = inr o /\
    kwargs o !! "pointing" = Some (retag located_events "pointing") /\
    (forall h, kwargs o !! h <> Some located_pointing).
Proof.
  split; [reflexivity |].
  exists (mkObservation 1
            (list_to_map
               [ ("events", located_events); ("gti", located_gti);
                 ("pointing", retag located_events "pointing");
                 ("meta", retag located_events "observation_metadata") ])).
  split; [vm_compute; reflexivity |]. split; [vm_compute; reflexivity |].
  intros h Hh. cbn [kwargs] in Hh. apply elem_of_list_to_map_2 in Hh.
  apply list_elem_of_In in Hh. cbn in Hh.
  repeat (destruct Hh as [Hh | Hh]; [discriminate |]). exact Hh.
Qed.

(** *** [get_observations] *)

Lemma Z_mem_elem_of (x : Z) (l : list Z) : Z_mem x l = true <-> x ∈ l.
Proof.
  unfold Z_mem. rewrite existsb_exists. split.
  - intros (y & Hy & Heq). apply Z.eqb_eq in Heq. subst.
    apply list_elem_of_In. exact Hy.
  - intros H. exists x. split; [apply list_elem_of_In; exact H | apply Z.eqb_refl].
Qed.

Lemma elem_of_np_unique (x : Z) (l : list Z) : x ∈ np_unique l <-> x ∈ l.
Proof.
  unfold np_unique. rewrite merge_sort_Permutation. apply elem_of_remove_dups.
Qed.

Lemma Z_mem_obs_ids (t : HDUIndexTable) (x : Z) :
  Z_mem x (obs_ids t) = Z_mem x (OBS_ID_column t).
Proof.
  apply eq_true_iff_eq. rewrite !Z_mem_elem_of. apply elem_of_np_unique.
Qed.

Lemma obs_ok_known (t : HDUIndexTable) (i : Z) (arg : required_irf_arg)
    (re : bool) (o : Observation) :
  obs t i arg re = inr o -> Z_mem i (OBS_ID_column t) = true.
Proof.
  unfold obs. destruct (Z_mem i (OBS_ID_column t)); [reflexivity | discriminate].
Qed.

(** The loop never leaves with a [MissingRequiredHDU]. *)
Lemma resolve_loop_error (t : HDUIndexTable) (arg : required_irf_arg) (re : bool)
    (ids : list Z) :
  forall log acc log' e,
    resolve_loop t arg re ids log acc = (log', inl e) -> ~ is_missing_hdu_error e.
Proof.
  induction ids as [| i rest IH]; intros log acc log' e; cbn [resolve_loop].
  - discriminate.
  - destruct (obs t i arg re) as [err | o]; [| apply IH].
    destruct err; try (intros [= _ <-] H; exact H). apply IH.
Qed.

(** When every id resolves or misses HDUs, the loop returns the resolved
    ones in order and has written one warning per skipped id. *)
Lemma resolve_loop_skips (t : HDUIndexTable) (arg : required_irf_arg) (re : bool)
    (ids : list Z) :
  forall log acc,
    Forall (resolves_or_misses_hdus t arg re) ids ->
    resolve_loop t arg re ids log acc
    = (log ++ skip_warnings t arg re ids, inr (acc ++ resolved t arg re ids)).
Proof.
  induction ids as [| i rest IH]; intros log acc Hall;
    cbn [resolve_loop skip_warnings resolved].
  - rewrite !app_nil_r. reflexivity.
  - apply Forall_cons in Hall as [Hi Hrest]. unfold resolves_or_misses_hdus in Hi.
    destruct (obs t i arg re) as [err | o].
    + destruct err; try contradiction.
      rewrite IH by exact Hrest. rewrite <- app_assoc. reflexivity.
    + rewrite IH by exact Hrest. rewrite <- app_assoc. reflexivity.
Qed.

Lemma check_requested_error (known : list Z) (skip : bool) (ids : list Z) :
  forall log log' e,
    check_requested known skip ids log = (log', inl e) -> e = ValueError.
Proof.
  induction ids as [| i rest IH]; intros log log' e; cbn [check_requested].
  - discriminate.
  - destruct (negb (Z_mem i known)); [destruct skip |]; try apply IH.
    intros [= _ <-]. reflexivity.
Qed.

Lemma get_observations_error (t : HDUIndexTable) (obs_id : option (list Z))
    (skip : bool) (arg : required_irf_arg) (re : bool) (e : exn) :
  snd (get_observations t obs_id skip arg re) = inl e -> ~ is_missing_hdu_error e.
Proof.
  unfold get_observations. destruct obs_id as [ids |].
  - destruct (check_requested (obs_ids t) skip ids []) as [log [err | []]] eqn:Hc.
    + cbn. intros [= <-] H. apply check_requested_error in Hc. subst. exact H.
    + match goal with
      | |- context [resolve_loop ?a ?b ?c ?d ?l ?acc] =>
          destruct (resolve_loop a b c d l acc) as [log' [err | os]] eqn:Hr
      end; cbn; [| discriminate].
      intros [= <-]. eapply resolve_loop_error, Hr.
  - match goal with
    | |- context [resolve_loop ?a ?b ?c ?d ?l ?acc] =>
        destruct (resolve_loop a b c d l acc) as [log' [err | os]] eqn:Hr
    end; cbn; [| discriminate].
    intros [= <-]. eapply resolve_loop_error, Hr.
Qed.

Lemma obs_valid_resolves_or_misses (t : HDUIndexTable) (arg : required_irf_arg)
    (req : list string) (re : bool) (i : Z) :
  resolve_required_irf arg = inr req -> issubset req ALL_IRFS = true ->
  Z_mem i (OBS_ID_column t) = true ->
  resolves_or_misses_hdus t arg re i.
Proof.
  intros Hreq Hsub Hi. unfold resolves_or_misses_hdus.
  rewrite (obs_unfold t i arg req re Hi Hreq Hsub). cbv zeta.
  destruct (0 <? length _)%nat; exact I.
Qed.

Lemma check_requested_skip (known : list Z) (ids : list Z) :
  forall log, exists log', check_requested known true ids log = (log', inr tt).
Proof.
  induction ids as [| i rest IH]; intros log; cbn [check_requested]; [eauto |].
  destruct (negb (Z_mem i known)); apply IH.
Qed.

(** C4.  [get_observations] never raises [MissingRequiredHDU]: when
    resolving an id fails with it, a warning is logged, that id is skipped
    and the remaining ids are still resolved; with [skip_missing=True] and a
    valid [required_irf] the call returns the observations of the known ids
    that resolve, whatever the others miss.  In particular, with id 2 absent
    from the index and ids 1 and 3 resolving,
    [get_observations(obs_id=[1, 2, 3], skip_missing=True)] returns exactly
    the observations of 1 and 3 and logs one warning, the skip of id 2. *)
Theorem get_observations_skips (t : HDUIndexTable) (arg : required_irf_arg)
    (re : bool) :
  (forall obs_id skip e,
     snd (get_observations t obs_id skip arg re) = inl e ->
     ~ is_missing_hdu_error e) /\
  (forall ids log acc,
     Forall (resolves_or_misses_hdus t arg re) ids ->
     resolve_loop t arg re ids log acc
     = (log ++ skip_warnings t arg re ids, inr (acc ++ resolved t arg re ids))) /\
  (forall ids req,
     resolve_required_irf arg = inr req -> issubset req ALL_IRFS = true ->
     snd (get_observations t (Some ids) true arg re)
     = inr (resolved t arg re (filter (fun i => Z_mem i (obs_ids t) = true) ids))) /\
  (forall o1 o3,
     2%Z ∉ OBS_ID_column t ->
     obs t 1 arg re = inr o1 ->
     obs t 3 arg re = inr o3 ->
     get_observations t (Some [1; 2; 3]%Z) true arg re
     = ([WarnSkipMissingObsId 2; InfoSelected 2 3], inr [o1; o3])).
Proof.
  split; [| split; [| split]].
  - intros obs_id skip e. apply get_observations_error.
  - intros ids log acc. apply resolve_loop_skips.
  - intros ids req Hreq Hsub. unfold get_observations.
    destruct (check_requested_skip (obs_ids t) ids []) as [log' ->].
    match goal with
    | |- context [resolve_loop ?a ?b ?c ?d ?l ?acc] =>
        rewrite (resolve_loop_skips a b c d l acc)
    end; [reflexivity |].
    apply Forall_forall. intros i Hi. apply list_elem_of_filter in Hi as [Hi _].
    rewrite Z_mem_obs_ids in Hi.
    apply (obs_valid_resolves_or_misses t arg req re i Hreq Hsub Hi).
  - intros o1 o3 H2 H1 H3.
    assert (M1 : Z_mem 1 (obs_ids t) = true)
      by (rewrite Z_mem_obs_ids; eapply obs_ok_known, H1).
    assert (M3 : Z_mem 3 (obs_ids t) = true)
      by (rewrite Z_mem_obs_ids; eapply obs_ok_known, H3).
    assert (M2 : Z_mem 2 (obs_ids t) = false).
    { rewrite Z_mem_obs_ids. apply not_true_is_false.
      rewrite Z_mem_elem_of. exact H2. }
    unfold get_observations. cbn [check_requested].
    rewrite M1, M2, M3. cbn [negb app].
    rewrite !filter_cons, filter_nil, M1, M2, M3.
    rewrite decide_True by reflexivity. rewrite decide_False by discriminate.
    rewrite decide_True by reflexivity.
    change (length (np_unique [1; 2; 3]%Z) =? length [1; 2; 3]%Z)%nat with true.
    cbn [negb resolve_loop]. rewrite H1, H3. reflexivity.
Qed.

Lemma get_observations_skips_witness :
  exists o1 o3,
    fst (get_observations table_1_3_5 (Some [1; 2; 3]%Z) true (IrfPreset "point-like") true)
      = [WarnSkipMissingObsId 2; InfoSelected 2 3] /\
    snd (get_observations table_1_3_5 (Some [1; 2; 3]%Z) true (IrfPreset "point-like") true)
      = inr [o1; o3] /\
    obs_id_of o1 = 1%Z /\ obs_id_of o3 = 3%Z /\
    resolve_loop table_1_3_5 (IrfPreset "point-like") true [5; 1]%Z [] []
      = ([WarnSkipMissingHDUs (MissingRequiredHDU ["gti"; "aeff"; "edisp"] 5)],
         inr [o1]).
Proof.
  destruct (get_observations_skips table_1_3_5 (IrfPreset "point-like") true)
    as (_ & Hloop & _ & Hscenario).
  destruct (obs table_1_3_5 1 (IrfPreset "point-like") true) as [e1 | o1] eqn:H1;
    [vm_compute in H1; discriminate |].
  destruct (obs table_1_3_5 3 (IrfPreset "point-like") true) as [e3 | o3] eqn:H3;
    [vm_compute in H3; discriminate |].
  exists o1, o3.
  assert (H2 : 2%Z ∉ OBS_ID_column table_1_3_5).
  { intros H. apply list_elem_of_In in H. cbn in H. intuition discriminate. }
  rewrite (Hscenario o1 o3 H2 eq_refl eq_refl).
  split; [reflexivity |]. split; [reflexivity |].
  split; [vm_compute in H1; injection H1 as <-; reflexivity |].
  split; [vm_compute in H3; injection H3 as <-; reflexivity |].
  rewrite Hloop.
  - cbn [skip_warnings resolved app]. rewrite H1.
    assert (H5 : obs table_1_3_5 5 (IrfPreset "point-like") true
                 = inl (MissingRequiredHDU ["gti"; "aeff"; "edisp"] 5))
      by (vm_compute; reflexivity).
    rewrite H5. reflexivity.
  - repeat constructor.
Defined.

End DataStoreFacts.

(** ** Properties of [DataStoreMaker] *)

Module DataStoreMakerFacts.
Import DataStoreModel DataStoreMakerModel DataSamples.

Lemma dict_get_set_eq (d : dict) (k : string) (v : value) :
  dict_get (dict_set d k v) k = Some v.
Proof.
  induction d as [| [k' v'] d IH]; cbn.
  - rewrite String.eqb_refl. reflexivity.
  - destruct (String.eqb k k') eqn:Hk; cbn; rewrite Hk; [reflexivity | exact IH].
Qed.

Lemma dict_get_set_ne (d : dict) (k k' : string) (v : value) :
  k <> k' -> dict_get (dict_set d k' v) k = dict_get d k.
Proof.
  intros Hne. induction d as [| [k0 v0] d IH]; cbn.
  - apply String.eqb_neq in Hne. rewrite Hne. reflexivity.
  - destruct (String.eqb k' k0) eqn:Hk; cbn.
    + apply String.eqb_eq in Hk. subst k0.
      apply String.eqb_neq in Hne. rewrite Hne. reflexivity.
    + destruct (String.eqb k k0); [reflexivity | exact IH].
Qed.


Ltac bind_ok H :=
  repeat match type of H with
  | bind ?m _ = inr _ =>
      let E := fresh "E" in
      destruct m eqn:E; cbn [bind] in H; [discriminate |]
  end.

Lemma set_quantity_other (header : gmap string value) (key unit k : string)
    (info info' : dict) :
  set_quantity header key unit info = inr info' -> k <> key ->
  dict_get info' k = dict_get info k.
Proof.
  unfold set_quantity. intros H Hne. bind_ok H. injection H as <-.
  apply dict_get_set_ne. exact Hne.
Qed.

Section MakerFacts.

Variable fits_events_header : string -> result (gmap string value).
Variable galactic : Q -> Q -> Q * Q.
Variable int_of_str : string -> option Z.
Variable str_of_number : value -> string.
Variable first_file_name : string -> result string.
Variable TIME_KEYWORDS : list string.

Local Abbreviation read :=
  (read_events_info fits_events_header galactic int_of_str str_of_number
     first_file_name TIME_KEYWORDS).
Local Abbreviation get_info :=
  (get_obs_info fits_events_header galactic int_of_str str_of_number
     first_file_name TIME_KEYWORDS).
Local Abbreviation loop :=
  (obs_table_loop fits_events_header galactic int_of_str str_of_number
     first_file_name TIME_KEYWORDS).
Local Abbreviation make_table :=
  (make_obs_table fits_events_header galactic int_of_str str_of_number
     first_file_name TIME_KEYWORDS).
Local Abbreviation time_info := (extract_time_info TIME_KEYWORDS).
Local Abbreviation ok_cache :=
  (cache_ok fits_events_header galactic int_of_str str_of_number
     first_file_name TIME_KEYWORDS).
Local Abbreviation from_file :=
  (info_of_file fits_events_header galactic int_of_str str_of_number
     first_file_name TIME_KEYWORDS).
Local Abbreviation readable :=
  (all_readable fits_events_header galactic int_of_str str_of_number
     first_file_name TIME_KEYWORDS).

(** *** Drift mode *)

Lemma set_pointing_drift (header : gmap string value) (info info' : dict) :
  value_eqb (header_get header "OBS_MODE" (VStr "POINTING")) (VStr "DRIFT") = true ->
  set_pointing header info = inr info' ->
  dict_get info' "RA_PNT" = dict_get info "RA_PNT".
Proof.
  unfold set_pointing. intros -> H. bind_ok H. injection H as <-.
  rewrite dict_get_set_ne by discriminate.
  match goal with
  | E1 : set_quantity _ "ALT_PNT" _ _ = inr ?a,
    E2 : set_quantity _ "AZ_PNT" _ ?a = inr ?b |- _ =>
      rewrite (set_quantity_other _ _ _ "RA_PNT" _ _ E2) by discriminate;
      rewrite (set_quantity_other _ _ _ "RA_PNT" _ _ E1) by discriminate
  end.
  reflexivity.
Qed.

Lemma set_galactic_needs_RA (info : dict) :
  dict_get info "RA_PNT" = None -> set_galactic galactic info = inl (KeyError "RA_PNT").
Proof. intros H. unfold set_galactic, getitem. rewrite H. reflexivity. Qed.

(** In drift mode the pointing block fills [ALT_PNT], [AZ_PNT] and
    [ZEN_PNT]; the next statement reads [info["RA_PNT"]], which nothing has
    set, so no drift-mode header gets through. *)
Lemma read_events_info_drift (path : string) (irf : option string)
    (header : gmap string value) :
  fits_events_header path = inr header ->
  header !! "OBS_MODE" = Some (VStr "DRIFT") ->
  exists e, read path irf = inl e.
Proof.
  intros Hfits Hmode.
  assert (Hdrift : value_eqb (header_get header "OBS_MODE" (VStr "POINTING"))
                             (VStr "DRIFT") = true).
  { unfold header_get. rewrite Hmode. reflexivity. }
  destruct (read path irf) as [e | info] eqn:Hread; [eauto |]. exfalso.
  unfold read_events_info in Hread. rewrite Hfits in Hread. cbn [bind] in Hread.
  repeat match type of Hread with
  | bind (set_galactic _ _) _ = inr _ => fail 1
  | bind ?m _ = inr _ =>
      let E := fresh "E" in
      destruct m eqn:E; cbn [bind] in Hread; [discriminate |]
  end.
  match goal with
  | E : set_pointing _ ?i = inr ?i' |- _ =>
      pose proof (set_pointing_drift _ _ _ Hdrift E) as Hra;
      rewrite !dict_get_set_ne in Hra by discriminate
  end.
  repeat match goal with
  | E : set_quantity _ _ _ _ = inr ?i |- _ =>
      match type of Hra with
      | _ = dict_get i "RA_PNT" =>
          rewrite (set_quantity_other _ _ _ "RA_PNT" _ _ E) in Hra by discriminate
      end
  end.
  cbn in Hra. rewrite (set_galactic_needs_RA _ Hra) in Hread. discriminate.
Qed.

End MakerFacts.

(** C9, on the code.  [read_events_info] fails on every drift-mode header:
    the [OBS_MODE == "DRIFT"] branch stores [ALT_PNT], [AZ_PNT] and
    [ZEN_PNT = 90 deg - ALT_PNT], and the statement after it reads
    [info["RA_PNT"]], which that branch never sets.  On the sample drift
    header the error is [KeyError("RA_PNT")]. *)
Theorem read_events_info_drift_mode_fails :
  (forall fits_events_header galactic int_of_str str_of_number first_file_name
          TIME_KEYWORDS path irf header,
     fits_events_header path = inr header ->
     header !! "OBS_MODE" = Some (VStr "DRIFT") ->
     exists e, read_events_info fits_events_header galactic int_of_str
                 str_of_number first_file_name TIME_KEYWORDS path irf = inl e) /\
  sample_read "drift.fits" None = inl (KeyError "RA_PNT") /\
  (exists info, sample_read "run1.fits" None = inr info /\
                dict_get info "RA_PNT" = Some (VQuantity (836 # 10) "deg")).
Proof.
  split; [| split].
  - intros. eapply read_events_info_drift; eassumption.
  - vm_compute. reflexivity.
  - eexists. split; vm_compute; reflexivity.
Qed.

Lemma read_events_info_drift_mode_fails_witness :
  exists e, sample_read "drift.fits" (Some "irf.fits"%string) = inl e.
Proof.
  destruct read_events_info_drift_mode_fails as (Hall & _ & _).
  apply (Hall sample_fits sample_galactic sample_int_of_str sample_str_of_number
           sample_first_file_name sample_TIME_KEYWORDS "drift.fits"%string
           (Some "irf.fits"%string) header_drift); reflexivity.
Defined.


(** *** [make_obs_table] *)






Section MakeObsTable.

Variable fits_events_header : string -> result (gmap string value).
Variable galactic : Q -> Q -> Q * Q.
Variable int_of_str : string -> option Z.
Variable str_of_number : value -> string.
Variable first_file_name : string -> result string.
Variable TIME_KEYWORDS : list string.

Local Abbreviation read :=
  (read_events_info fits_events_header galactic int_of_str str_of_number
     first_file_name TIME_KEYWORDS).
Local Abbreviation get_info :=
  (get_obs_info fits_events_header galactic int_of_str str_of_number
     first_file_name TIME_KEYWORDS).
Local Abbreviation loop :=
  (obs_table_loop fits_events_header galactic int_of_str str_of_number
     first_file_name TIME_KEYWORDS).
Local Abbreviation make_table :=
  (make_obs_table fits_events_header galactic int_of_str str_of_number
     first_file_name TIME_KEYWORDS).
Local Abbreviation time_info := (extract_time_info TIME_KEYWORDS).
Local Abbreviation ok_cache :=
  (cache_ok fits_events_header galactic int_of_str str_of_number
     first_file_name TIME_KEYWORDS).
Local Abbreviation from_file :=
  (info_of_file fits_events_header galactic int_of_str str_of_number
     first_file_name TIME_KEYWORDS).
Local Abbreviation readable :=
  (all_readable fits_events_header galactic int_of_str str_of_number
     first_file_name TIME_KEYWORDS).



(** Reading through the cache: the answer is the information of the file
    and the cache stays sound. *)
Lemma get_obs_info_ok (m : DataStoreMaker) (path : string) (irf : option string) :
  ok_cache m -> (exists info, read path irf = inr info) ->
  exists m' row,
    get_info m path irf = (m', inr row) /\ ok_cache m' /\ from_file path row /\
    events_paths m' = events_paths m /\ irfs_paths m' = irfs_paths m.
Proof.
  intros Hc [info Hread]. unfold get_obs_info, get_events_info.
  destruct (_events_info m !! path) as [cached |] eqn:Hlook.
  - exists m, cached. repeat split; [exact Hc | apply (Hc _ _ Hlook)].
  - rewrite Hread. eexists _, info. repeat split; [| exists irf; exact Hread].
    intros p i. cbn [_events_info]. rewrite lookup_insert_Some.
    intros [[<- <-] | [_ Hold]]; [exists irf; exact Hread | apply (Hc _ _ Hold)].
Qed.



End MakeObsTable.


End DataStoreMakerFacts.

(** ** Further properties of [Parameter] *)

Module ParameterMoreFacts.
Import PyFloat PyFloatFacts ParameterModel ParameterMore Samples MoreSamples
       ParameterFacts.
Local Open Scope R_scope.

(** *** The transform keeps the order *)

Lemma interp_scale_Rinterp (t : ScaleTransform) (v : R) :
  (t = Log -> 0 < v) -> interp_scale t (Fin v) = Fin (Rinterp t v).
Proof.
  intros Hv. destruct t; cbn [interp_scale Rinterp].
  - reflexivity.
  - apply flog_pos. auto.
  - rewrite fsqrt_abs. reflexivity.
Qed.

Lemma signed_sqrt_monotone (a b : R) :
  a <= b -> Rsign a * sqrt (Rabs a) <= Rsign b * sqrt (Rabs b).
Proof.
  intros Hab.
  assert (Hpos : forall x, 0 <= x -> Rsign x * sqrt (Rabs x) = sqrt x).
  { intros x [Hx | <-].
    - rewrite Rsign_pos, Rabs_right by lra. lra.
    - rewrite Rsign_zero, Rabs_R0, sqrt_0. lra. }
  assert (Hneg : forall x, x < 0 -> Rsign x * sqrt (Rabs x) = - sqrt (- x)).
  { intros x Hx. rewrite Rsign_neg, Rabs_left by lra. lra. }
  destruct (Rlt_le_dec a 0) as [Ha | Ha], (Rlt_le_dec b 0) as [Hb | Hb].
  - rewrite !Hneg by assumption.
    assert (sqrt (- b) <= sqrt (- a)) by (apply sqrt_le_1_alt; lra). lra.
  - rewrite Hneg, Hpos by assumption.
    pose proof (sqrt_pos (- a)). pose proof (sqrt_pos b). lra.
  - lra.
  - rewrite !Hpos by assumption. apply sqrt_le_1_alt. lra.
Qed.

Lemma Rinterp_monotone (t : ScaleTransform) (a b : R) :
  (t = Log -> 0 < a) -> a <= b -> Rinterp t a <= Rinterp t b.
Proof.
  intros Ha Hab. destruct t; cbn [Rinterp].
  - exact Hab.
  - destruct Hab as [Hlt | <-]; [| lra].
    left. apply ln_increasing; auto.
  - apply signed_sqrt_monotone, Hab.
Qed.

(** X1.  Bounds in optimizer space.  For finite [min <= value <= max]
    (positive under the log transform) and a finite scale: [factor_min],
    [transform(value)] and [factor_max] are finite numbers; with a positive
    scale they are in the order [factor_min <= factor <= factor_max], with a
    negative scale in the opposite order. *)
Theorem factor_bounds_order (p : parameter) (s lo v hi : R) :
  _scale p = Fin s -> s <> 0 ->
  _min p = Fin lo -> _value p = Fin v -> _max p = Fin hi ->
  (_scale_transform p = Log -> 0 < lo) ->
  lo <= v <= hi ->
  exists fl f fh,
    factor_min p = inr (Fin fl) /\
    transform0 p (_value p) = inr (Fin f) /\
    factor_max p = inr (Fin fh) /\
    (0 < s -> fl <= f <= fh) /\
    (s < 0 -> fh <= f <= fl).
Proof.
  intros Hsc Hs Hmin Hval Hmax Hlog [Hlo Hhi].
  set (t := _scale_transform p) in *.
  assert (Hv : t = Log -> 0 < v) by (intros H; specialize (Hlog H); lra).
  assert (Hh : t = Log -> 0 < hi) by (intros H; specialize (Hlog H); lra).
  exists (Rinterp t lo / s), (Rinterp t v / s), (Rinterp t hi / s).
  unfold factor_min, factor_max.
  rewrite !(transform0_nonzero p s) by assumption. fold t.
  rewrite Hmin, Hval, Hmax, !interp_scale_Rinterp by assumption.
  rewrite !fdiv_fin. repeat split; try reflexivity.
  - apply Rmult_le_compat_r; [left; apply Rinv_0_lt_compat; assumption |].
    apply Rinterp_monotone; assumption.
  - apply Rmult_le_compat_r; [left; apply Rinv_0_lt_compat; assumption |].
    apply Rinterp_monotone; assumption.
  - pose proof (Rinterp_monotone t v hi Hv Hhi).
    assert (/ s < 0) by (apply Rinv_lt_0_compat; assumption).
    unfold Rdiv. nra.
  - pose proof (Rinterp_monotone t lo v Hlog Hlo).
    assert (/ s < 0) by (apply Rinv_lt_0_compat; assumption).
    unfold Rdiv. nra.
Qed.

Lemma factor_bounds_order_witness :
  exists fl f fh,
    factor_min par_amplitude = inr (Fin fl) /\
    transform0 par_amplitude (_value par_amplitude) = inr (Fin f) /\
    factor_max par_amplitude = inr (Fin fh) /\
    fl <= f <= fh.
Proof.
  destruct (factor_bounds_order par_amplitude 1 (1 / 10000000000000)
              (3 / 1000000000000) (1 / 10000000000))
    as (fl & f & fh & H1 & H2 & H3 & Hpos & _);
    try reflexivity; try lra; try discriminate.
  exists fl, f, fh. repeat split; try assumption; apply Hpos; lra.
Defined.

(** *** [scale10] *)









(** *** Confidence and scan ranges *)

Lemma Rstep_nonneg (v e : R) : 0 <= Rstep v e.
Proof.
  unfold Rstep. destruct (Rlt_dec 0 e); [lra | apply Rabs_pos].
Qed.

Lemma Rlarge_step_bounds (v e : R) :
  Rstep v e <= Rlarge_step v e /\ Rabs v <= Rlarge_step v e.
Proof. unfold Rlarge_step. split; [apply Rmax_l | apply Rmax_r]. Qed.

Lemma Rlarge_step_zero (v e : R) :
  Rlarge_step v e = 0 <-> v = 0 /\ ~ 0 < e.
Proof.
  pose proof (Rstep_nonneg v e) as Hs. pose proof (Rabs_pos v) as Ha.
  destruct (Rlarge_step_bounds v e) as [H1 H2]. split.
  - intros H0. assert (Hv : Rabs v = 0) by lra.
    assert (v = 0).
    { destruct (Req_dec v 0) as [| Hne]; [assumption |].
      apply Rabs_no_R0 in Hne. contradiction. }
    split; [assumption |]. intros He.
    unfold Rstep in H1. destruct (Rlt_dec 0 e); [lra | contradiction].
  - intros [-> He]. unfold Rlarge_step, Rstep.
    destruct (Rlt_dec 0 e); [contradiction |]. rewrite Rabs_R0. apply Rmax_left. lra.
Qed.

(** X3.  For a parameter without explicit bounds, with a finite value and
    error and [scan_n_sigma >= 0]: [conf_min <= value <= conf_max], and the
    interval is a single point exactly when the value is zero and the error
    is not positive - the clamp by [large_step * 1e5] does not widen it
    then. *)
Theorem conf_interval_brackets_value (p : parameter) (v e : R) :
  _value p = Fin v -> _error p = Fin e ->
  fisnan (_min p) = true -> fisnan (_max p) = true ->
  (0 <= _scan_n_sigma p)%Z ->
  exists lo hi,
    conf_min p = Fin lo /\ conf_max p = Fin hi /\
    lo <= v <= hi /\
    (lo < hi <-> v <> 0 \/ 0 < e) /\
    (lo = hi <-> v = 0 /\ ~ 0 < e).
Proof.
  intros Hv He Hmin Hmax Hn.
  rewrite (conf_min_derived p v e Hv He Hmin), (conf_max_derived p v e Hv He Hmax).
  set (n := IZR (_scan_n_sigma p)).
  assert (Hn0 : 0 <= n) by (apply IZR_le in Hn; exact Hn).
  pose proof (Rstep_nonneg v e) as Hs.
  destruct (Rlarge_step_bounds v e) as [HL1 HL2].
  pose proof (Rabs_pos v) as Ha.
  set (L := Rlarge_step v e) in *. set (st := Rstep v e) in *.
  assert (Hsn : 0 <= st * n) by (apply Rmult_le_pos; assumption).
  assert (HL0 : 0 <= L) by lra.
  pose proof (Rmin_l (v - st * n) (- (L * 100000))) as Hmin_l.
  pose proof (Rmin_r (v - st * n) (- (L * 100000))) as Hmin_r.
  pose proof (Rmax_l (v + st * n) (L * 100000)) as Hmax_l.
  pose proof (Rmax_r (v + st * n) (L * 100000)) as Hmax_r.
  assert (Hzero : L = 0 <-> v = 0 /\ ~ 0 < e) by apply Rlarge_step_zero.
  assert (Hdeg : L = 0 ->
            Rmin (v - st * n) (- (L * 100000)) = 0 /\
            Rmax (v + st * n) (L * 100000) = 0).
  { intros H0. assert (Hst : st = 0) by lra.
    destruct (proj1 Hzero H0) as [-> _].
    rewrite H0, Hst. replace (0 - 0 * n) with 0 by ring.
    replace (0 + 0 * n) with 0 by ring. replace (- (0 * 100000)) with 0 by ring.
    replace (0 * 100000) with 0 by ring.
    split; [apply Rmin_left | apply Rmax_left]; lra. }
  eexists _, _. split; [reflexivity |]. split; [reflexivity |].
  split; [lra |]. split; split.
  - intros Hlt. destruct (Req_dec L 0) as [H0 | Hne].
    + destruct (Hdeg H0) as [E1 E2]. rewrite E1, E2 in Hlt. lra.
    + destruct (Req_dec v 0) as [-> | Hv0]; [| left; assumption].
      right. destruct (Rlt_dec 0 e) as [|Hne']; [assumption |].
      exfalso. apply Hne, Hzero. split; [reflexivity | assumption].
  - intros Hor. assert (Hne : L <> 0).
    { intros H0. apply Hzero in H0 as [Hv0 He0]. destruct Hor; contradiction. }
    lra.
  - intros Heq. apply Hzero. lra.
  - intros Hz. apply Hzero in Hz. destruct (Hdeg Hz) as [E1 E2]. lra.
Qed.

Lemma conf_interval_brackets_value_witness :
  exists lo hi,
    conf_min par_norm = Fin lo /\ conf_max par_norm = Fin hi /\
    lo <= 1 <= hi /\ lo < hi.
Proof.
  destruct (conf_interval_brackets_value par_norm 1 0)
    as (lo & hi & H1 & H2 & H3 & H4 & _); try reflexivity; [cbn; lia |].
  exists lo, hi. repeat split; try assumption; try apply H3.
  apply H4. left. lra.
Defined.

(** X4.  The default scan range ([_scan_min] and [_scan_max] unset, finite
    value and error, [scan_n_sigma >= 0]) is
    [value -/+ step * scan_n_sigma], symmetric around the value, and for a
    parameter without explicit bounds it lies inside
    [[conf_min, conf_max]]; a scan bound that is set is returned as it is. *)
Theorem scan_range_inside_conf_range (p : parameter) (v e : R) :
  _value p = Fin v -> _error p = Fin e ->
  (0 <= _scan_n_sigma p)%Z ->
  let d := Rstep v e * IZR (_scan_n_sigma p) in
  0 <= d /\
  scan_min p None = Fin (v - d) /\
  scan_max p None = Fin (v + d) /\
  (forall x, scan_min p (Some x) = x /\ scan_max p (Some x) = x) /\
  (fisnan (_min p) = true -> fisnan (_max p) = true ->
   exists lo hi, conf_min p = Fin lo /\ conf_max p = Fin hi /\
                 lo <= v - d /\ v + d <= hi).
Proof.
  intros Hv He Hn d.
  assert (Hd : 0 <= d).
  { apply Rmult_le_pos; [apply Rstep_nonneg | apply IZR_le in Hn; exact Hn]. }
  split; [exact Hd |]. unfold scan_min, scan_max.
  rewrite (step_fin p v e Hv He), Hv. cbn [of_Z fmul fsub fadd fneg].
  split; [f_equal; unfold d; ring |]. split; [reflexivity |].
  split; [intros x; split; reflexivity |].
  intros Hmin Hmax.
  rewrite (conf_min_derived p v e Hv He Hmin), (conf_max_derived p v e Hv He Hmax).
  eexists _, _. split; [reflexivity |]. split; [reflexivity |].
  fold d. split; [apply Rmin_l | apply Rmax_l].
Qed.

Lemma scan_range_inside_conf_range_witness :
  scan_min par_norm None = Fin (1 - Rstep 1 0 * IZR 2) /\
  scan_max par_norm None = Fin (1 + Rstep 1 0 * IZR 2) /\
  exists lo hi, conf_min par_norm = Fin lo /\ conf_max par_norm = Fin hi /\
                lo <= 1 - Rstep 1 0 * IZR 2 /\ 1 + Rstep 1 0 * IZR 2 <= hi.
Proof.
  destruct (scan_range_inside_conf_range par_norm 1 0)
    as (_ & H1 & H2 & _ & H3); try reflexivity; [cbn; lia |].
  split; [exact H1 |]. split; [exact H2 |]. apply H3; reflexivity.
Defined.

(** X5.  [check_limits] logs its warning exactly when the parameter is not
    frozen and its value is below [min] or above [max]; the [isnan] guards
    change nothing, a comparison with NaN being false already.  A frozen
    parameter, one without bounds and one inside its bounds never warn. *)
Theorem check_limits_warns_iff (p : parameter) :
  (check_limits p = true <->
   _frozen p = false /\
   (fltb (_value p) (_min p) = true \/ fgtb (_value p) (_max p) = true)) /\
  (_frozen p = true -> check_limits p = false) /\
  (fisnan (_min p) = true -> fisnan (_max p) = true -> check_limits p = false) /\
  (forall lo v hi, _min p = Fin lo -> _value p = Fin v -> _max p = Fin hi ->
                   lo <= v <= hi -> check_limits p = false).
Proof.
  assert (Hlt : forall x y, fisnan y = true -> fltb x y = false).
  { intros x y Hy. destruct y; try discriminate. destruct x; reflexivity. }
  assert (Hgt : forall x y, fisnan y = true -> fgtb x y = false).
  { intros x y Hy. destruct y; try discriminate. reflexivity. }
  assert (Hguard_lt : forall x y, negb (fisnan y) && fltb x y = fltb x y).
  { intros x y. destruct (fisnan y) eqn:Hy; [rewrite (Hlt x y Hy) |]; reflexivity. }
  assert (Hguard_gt : forall x y, negb (fisnan y) && fgtb x y = fgtb x y).
  { intros x y. destruct (fisnan y) eqn:Hy; [rewrite (Hgt x y Hy) |]; reflexivity. }
  unfold check_limits. rewrite Hguard_lt, Hguard_gt.
  split; [| split; [| split]].
  - destruct (_frozen p); cbn [negb].
    + split; [discriminate | intros [H _]; discriminate].
    + rewrite orb_true_iff. split; [intros H; split; [reflexivity | exact H] |].
      intros [_ H]. exact H.
  - intros ->. reflexivity.
  - intros Hmin Hmax. rewrite (Hlt _ _ Hmin), (Hgt _ _ Hmax).
    destruct (_frozen p); reflexivity.
  - intros lo v hi -> -> -> [Hlo Hhi]. unfold fgtb. cbn.
    destruct (Rlt_dec v lo); [lra |]. destruct (Rlt_dec hi v); [lra |].
    destruct (_frozen p); reflexivity.
Qed.

Lemma check_limits_warns_iff_witness :
  check_limits par_frozen_outside = false /\
  check_limits par_index = false /\
  check_limits par_amplitude = false /\
  check_limits (set_frozen par_frozen_outside false) = true.
Proof.
  split.
  { destruct (check_limits_warns_iff par_frozen_outside) as (_ & H & _).
    apply H. reflexivity. }
  split.
  { destruct (check_limits_warns_iff par_index) as (_ & _ & H & _).
    apply H; reflexivity. }
  split.
  - destruct (check_limits_warns_iff par_amplitude) as (_ & _ & _ & H).
    apply (H (1 / 10000000000000) (3 / 1000000000000) (1 / 10000000000));
      try reflexivity. lra.
  - destruct (check_limits_warns_iff (set_frozen par_frozen_outside false))
      as (H & _).
    apply H. split; [reflexivity |]. right. unfold fgtb. cbn.
    destruct (Rlt_dec 1 5); [reflexivity | lra].
Defined.

(** *** Changing the scaling, and the constructors *)

Lemma ln_lt_self (v : R) : 0 < v -> ln v < v.
Proof.
  intros Hv. rewrite <- (ln_exp v) at 2.
  apply ln_increasing; [exact Hv |]. pose proof (exp_ineq1_le v). lra.
Qed.

Lemma parse_scale_transform_None (val : string) :
  val <> "lin"%string -> val <> "log"%string -> val <> "sqrt"%string ->
  parse_scale_transform val = None.
Proof.
  intros H1 H2 H3. unfold parse_scale_transform.
  apply String.eqb_neq in H1, H2, H3. rewrite H1, H2, H3. reflexivity.
Qed.

(** X6.  The [scale_transform] setter refuses any string other than "lin",
    "log" and "sqrt" with a [ValueError]; otherwise it keeps the value, sets
    [scale = 1] and [factor = value] and stores the new transform - the factor
    is not recomputed under it.  So after [p.scale_transform = "lin"] a finite
    value and its factor agree again, whereas after
    [p.scale_transform = "log"] with a positive value
    [factor == transform(value)] is false (the factor is [value], not
    [log(value)]) until the value is assigned or [autoscale()] is called. *)
Theorem scale_transform_setter_resets (p : parameter) (val : string) :
  (val <> "lin"%string -> val <> "log"%string -> val <> "sqrt"%string ->
   scale_transform_setter p val = inl ValueError) /\
  (forall t, parse_scale_transform val = Some t ->
     exists q, scale_transform_setter p val = inr q /\
       _scale_transform q = t /\ _scale q = Fin 1 /\
       _factor q = _value p /\ _value q = _value p /\
       _frozen q = _frozen p /\ _scale_method q = _scale_method p /\
       (forall v, _value p = Fin v -> t = Lin -> roundtrip q) /\
       (forall v, _value p = Fin v -> 0 < v -> t = Log -> ~ roundtrip q)).
Proof.
  split.
  - intros H1 H2 H3. unfold scale_transform_setter.
    rewrite parse_scale_transform_None by assumption. reflexivity.
  - intros t Ht. unfold scale_transform_setter. rewrite Ht.
    eexists. split; [reflexivity |]. repeat (split; [reflexivity |]).
    assert (H1 : (1 <> 0)%R) by lra. split.
    + intros v Hv ->. split.
      * unfold inverse_transform. cbn. rewrite Hv. cbn.
        apply feqb_fin. ring.
      * rewrite (transform0_nonzero _ 1) by (try reflexivity; exact H1).
        eexists. split; [reflexivity |]. cbn. rewrite Hv. cbn.
        apply feqb_fin. field.
    + intros v Hv Hpos -> [_ (f & Hf & Heq)].
      rewrite (transform0_nonzero _ 1) in Hf by (try reflexivity; exact H1).
      injection Hf as <-. revert Heq. cbn. rewrite Hv, flog_pos by exact Hpos.
      cbn. pose proof (ln_lt_self v Hpos).
      destruct (Req_dec_T v (ln v / 1)); [lra | discriminate].
Qed.

Lemma scale_transform_setter_resets_witness :
  scale_transform_setter par_index "linear" = inl ValueError /\
  exists q, scale_transform_setter par_index "log" = inr q /\
            _factor q = Fin 2 /\ _value q = Fin 2 /\ ~ roundtrip q.
Proof.
  destruct (scale_transform_setter_resets par_index "linear") as [Hbad _].
  destruct (scale_transform_setter_resets par_index "log") as [_ Hgood].
  split; [apply Hbad; discriminate |].
  destruct (Hgood Log eq_refl) as (q & Hq & _ & _ & Hf & Hv & _ & _ & _ & Hbroken).
  exists q. split; [exact Hq |]. split; [exact Hf |]. split; [exact Hv |].
  apply (Hbroken 2); [reflexivity | lra | reflexivity].
Defined.





(** ** Properties of [Parameters] *)

Lemma existsb_nat_elem_of (a : nat) (l : list nat) :
  existsb (Nat.eqb a) l = true <-> a ∈ l.
Proof.
  rewrite existsb_exists. split.
  - intros (y & Hy & Heq). apply Nat.eqb_eq in Heq. subst.
    apply list_elem_of_In. exact Hy.
  - intros H. exists a. split; [apply list_elem_of_In; exact H | apply Nat.eqb_refl].
Qed.

Lemma existsb_nat_not_elem_of (a : nat) (l : list nat) :
  existsb (Nat.eqb a) l = false <-> a ∉ l.
Proof.
  rewrite <- existsb_nat_elem_of. destruct (existsb (Nat.eqb a) l); split;
    congruence.
Qed.

(** *** The [value] array *)

Lemma assign_values_distinct (ps : list nat) :
  forall (vals : list float) (h : nat -> parameter),
    length ps = length vals -> NoDup ps ->
    (forall a, a ∈ ps -> nonzero_scale (h a)) ->
    exists h',
      assign_values (zip vals ps) h = (h', None) /\
      get_values ps h' = vals /\
      (forall a, a ∉ ps -> h' a = h a) /\
      (forall a, _frozen (h' a) = _frozen (h a) /\ _scale (h' a) = _scale (h a)).
Proof.
  induction ps as [| a ps IH]; intros vals h Hlen Hnd Hnz.
  - destruct vals; [| discriminate]. exists h. repeat split.
  - destruct vals as [| v vals]; [discriminate |]. cbn [zip zip_with assign_values].
    apply NoDup_cons in Hnd as [Ha Hnd].
    destruct (value_setter_nonzero (h a) v) as (q & Hq & Hval & Hfrz & Hsc);
      [apply Hnz, list_elem_of_here |].
    rewrite Hq.
    destruct (IH vals (<[a := q]> h)) as (h' & Hrun & Hget & Hout & Hsame).
    + cbn in Hlen. lia.
    + exact Hnd.
    + intros b Hb. unfold nonzero_scale.
      rewrite fn_lookup_insert_ne by (intros ->; contradiction).
      apply Hnz, list_elem_of_further, Hb.
    + exists h'. split; [exact Hrun |]. split; [| split].
      * unfold get_values in *. cbn [map]. rewrite Hget.
        rewrite (Hout a Ha), fn_lookup_insert, Hval. reflexivity.
      * intros b Hb. apply not_elem_of_cons in Hb as [Hne Hb].
        rewrite (Hout b Hb). apply fn_lookup_insert_ne. congruence.
      * intros b. destruct (Hsame b) as [H1 H2]. rewrite H1, H2.
        destruct (decide (a = b)) as [<- | Hne].
        -- rewrite fn_lookup_insert. split; assumption.
        -- rewrite fn_lookup_insert_ne by exact Hne. split; reflexivity.
Qed.

(** X8.  The [value] setter of the container.  A sequence of another length
    raises [ValueError] and changes nothing.  For distinct parameters with
    scales other than zero it assigns every value, after which the getter
    returns the sequence that was assigned; frozen flags, scales and the
    parameters outside the container are untouched. *)
Theorem parameters_value_roundtrip (ps : list nat) (vals : list float)
    (h : nat -> parameter) :
  (length ps <> length vals -> set_values ps vals h = (h, Some ValueError)) /\
  (length ps = length vals -> NoDup ps ->
   (forall a, a ∈ ps -> nonzero_scale (h a)) ->
   exists h',
     set_values ps vals h = (h', None) /\
     get_values ps h' = vals /\
     (forall a, a ∉ ps -> h' a = h a) /\
     (forall a, _frozen (h' a) = _frozen (h a) /\ _scale (h' a) = _scale (h a))).
Proof.
  unfold set_values. split.
  - intros Hne. apply Nat.eqb_neq in Hne. rewrite Hne. reflexivity.
  - intros Hlen Hnd Hnz. rewrite (proj2 (Nat.eqb_eq _ _) Hlen). cbn [negb].
    apply assign_values_distinct; assumption.
Qed.

Lemma nonzero_scale_store3 (a : nat) : nonzero_scale (store3 a).
Proof.
  unfold nonzero_scale, store3.
  destruct a as [| [| [| a]]]; cbn; case_real; try lra; reflexivity.
Qed.

Lemma NoDup_ps_distinct : NoDup ps_distinct.
Proof.
  unfold ps_distinct. repeat (apply NoDup_cons; split);
    try apply NoDup_nil_2;
    rewrite <- existsb_nat_not_elem_of; reflexivity.
Qed.

Lemma parameters_value_roundtrip_witness :
  set_values ps_distinct [Fin 1; Fin 2] store3 = (store3, Some ValueError) /\
  exists h',
    set_values ps_distinct [Fin 7; Fin 8; Fin 9] store3 = (h', None) /\
    get_values ps_distinct h' = [Fin 7; Fin 8; Fin 9].
Proof.
  split.
  - apply (parameters_value_roundtrip ps_distinct [Fin 1; Fin 2] store3).
    discriminate.
  - destruct (parameters_value_roundtrip ps_distinct [Fin 7; Fin 8; Fin 9] store3)
      as [_ H].
    destruct (H eq_refl NoDup_ps_distinct (fun a _ => nonzero_scale_store3 a))
      as (h' & H1 & H2 & _).
    exists h'. split; assumption.
Defined.

(** *** [set_parameter_factors] *)

Lemma nth_error_lookup {A : Type} (l : list A) :
  forall i, nth_error l i = l !! i.
Proof.
  induction l as [| x l IH]; intros [| i]; cbn; try reflexivity. apply IH.
Qed.

Lemma free_parameters_ext (ps : list nat) (h h1 : nat -> parameter) :
  (forall a, _frozen (h1 a) = _frozen (h a)) ->
  free_parameters ps h1 = free_parameters ps h.
Proof.
  intros Hsame. unfold free_parameters. apply filter_ext.
  intros a. rewrite Hsame. reflexivity.
Qed.

Lemma set_parameter_factors_distinct (ps : list nat) :
  forall (factors : list float) (idx : nat) (h : nat -> parameter),
    NoDup ps ->
    (idx + length (free_parameters ps h) <= length factors)%nat ->
    exists h',
      set_parameter_factors ps factors idx h = (h', None) /\
      map (fun a => _factor (h' a)) (free_parameters ps h)
        = take (length (free_parameters ps h)) (drop idx factors) /\
      (forall a, a ∈ free_parameters ps h ->
                 _value (h' a) = inverse_transform (h a) (_factor (h' a))) /\
      (forall a, a ∉ free_parameters ps h -> h' a = h a) /\
      (forall a, _frozen (h' a) = _frozen (h a)).
Proof.
  induction ps as [| a ps IH]; intros factors idx h Hnd Hlen.
  - exists h. cbn. repeat split. intros a Ha. inversion Ha.
  - apply NoDup_cons in Hnd as [Ha Hnd].
    cbn [set_parameter_factors]. unfold free_parameters in *. cbn [List.filter] in *.
    destruct (negb (_frozen (h a))) eqn:Hfree.
    + cbn [length] in Hlen.
      destruct (nth_error factors idx) as [f |] eqn:Hf;
        [| apply nth_error_None in Hf; lia].
      set (h1 := <[a := factor_setter (h a) f]> h).
      assert (Hsame1 : forall b, _frozen (h1 b) = _frozen (h b)).
      { intros b. unfold h1. destruct (decide (a = b)) as [<- | Hne].
        - rewrite fn_lookup_insert. reflexivity.
        - rewrite fn_lookup_insert_ne by exact Hne. reflexivity. }
      assert (Hfilter : List.filter (fun b => negb (_frozen (h1 b))) ps
                        = List.filter (fun b => negb (_frozen (h b))) ps)
        by (apply (free_parameters_ext ps h h1 Hsame1)).
      destruct (IH factors (S idx) h1 Hnd) as (h' & Hrun & Hmap & Hval & Hout & Hsame).
      { rewrite Hfilter. lia. }
      rewrite Hfilter in Hmap, Hval, Hout.
      assert (Ha' : a ∉ List.filter (fun b => negb (_frozen (h b))) ps).
      { intros Hin. apply Ha. apply list_elem_of_In in Hin.
        apply filter_In in Hin as [Hin _]. apply list_elem_of_In. exact Hin. }
      assert (Hha : h' a = factor_setter (h a) f).
      { rewrite (Hout a Ha'). unfold h1. apply fn_lookup_insert. }
      exists h'. split; [exact Hrun |]. split; [| split; [| split]].
      * cbn [map length]. rewrite Hmap, Hha.
        rewrite (drop_S factors f idx) by (rewrite <- nth_error_lookup; exact Hf).
        reflexivity.
      * intros b Hb. apply elem_of_cons in Hb as [-> | Hb].
        -- rewrite Hha. reflexivity.
        -- rewrite (Hval b Hb). unfold h1.
           rewrite fn_lookup_insert_ne; [reflexivity |].
           intros ->. contradiction.
      * intros b Hb. apply not_elem_of_cons in Hb as [Hne Hb].
        rewrite (Hout b Hb). unfold h1. apply fn_lookup_insert_ne. congruence.
      * intros b. rewrite Hsame. apply Hsame1.
    + destruct (IH factors idx h Hnd Hlen) as (h' & Hrun & Hmap & Hval & Hout & Hsame).
      exists h'. repeat split; assumption.
Qed.

Lemma set_parameter_factors_short (ps : list nat) :
  forall (factors : list float) (idx : nat) (h : nat -> parameter),
    (idx <= length factors)%nat ->
    (length factors < idx + length (free_parameters ps h))%nat ->
    snd (set_parameter_factors ps factors idx h) = Some IndexError.
Proof.
  induction ps as [| a ps IH]; intros factors idx h Hidx Hlen.
  - cbn in Hlen. lia.
  - cbn [set_parameter_factors]. unfold free_parameters in *. cbn [List.filter] in *.
    destruct (negb (_frozen (h a))) eqn:Hfree.
    + cbn [length] in Hlen.
      destruct (nth_error factors idx) as [f |] eqn:Hf; [| reflexivity].
      assert (Hlt : (idx < length factors)%nat)
        by (apply nth_error_Some; congruence).
      apply IH; [lia |].
      assert (E : free_parameters ps (<[a := factor_setter (h a) f]> h)
                  = free_parameters ps h).
      { apply free_parameters_ext. intros b.
        destruct (decide (a = b)) as [<- | Hne].
        - rewrite fn_lookup_insert. reflexivity.
        - rewrite fn_lookup_insert_ne by exact Hne. reflexivity. }
      unfold free_parameters in E. rewrite E. lia.
    + apply IH; assumption.
Qed.

(** X9.  [set_parameter_factors(factors)] on distinct parameters: with at
    least as many factors as free parameters it gives the i-th free parameter
    the i-th factor, in container order, and recomputes that parameter's value
    from it; frozen parameters and parameters outside the container are left
    untouched, and so are the frozen flags.  With fewer factors than free
    slots it raises [IndexError]. *)
Theorem set_parameter_factors_free_only (ps : list nat) (factors : list float)
    (h : nat -> parameter) :
  (NoDup ps -> (length (free_parameters ps h) <= length factors)%nat ->
   exists h',
     set_parameter_factors ps factors 0 h = (h', None) /\
     map (fun a => _factor (h' a)) (free_parameters ps h)
       = take (length (free_parameters ps h)) factors /\
     (forall a, a ∈ free_parameters ps h ->
                _value (h' a) = inverse_transform (h a) (_factor (h' a))) /\
     (forall a, a ∉ free_parameters ps h -> h' a = h a) /\
     (forall a, _frozen (h' a) = _frozen (h a))) /\
  ((length factors < length (free_parameters ps h))%nat ->
   snd (set_parameter_factors ps factors 0 h) = Some IndexError).
Proof.
  split.
  - intros Hnd Hlen.
    destruct (set_parameter_factors_distinct ps factors 0 h Hnd Hlen)
      as (h' & H1 & H2 & H3 & H4 & H5).
    exists h'. repeat split; assumption.
  - intros Hlen. apply set_parameter_factors_short; [lia | exact Hlen].
Qed.

Lemma set_parameter_factors_free_only_witness :
  free_parameters ps_distinct store3 = [0; 2]%nat /\
  (exists h',
     set_parameter_factors ps_distinct [Fin 3; Fin 4; Fin 5] 0 store3 = (h', None) /\
     map (fun a => _factor (h' a)) [0; 2]%nat = [Fin 3; Fin 4] /\
     h' 1%nat = store3 1%nat) /\
  snd (set_parameter_factors ps_distinct [Fin 3] 0 store3) = Some IndexError.
Proof.
  assert (Hfree : free_parameters ps_distinct store3 = [0; 2]%nat) by reflexivity.
  split; [exact Hfree |]. split.
  - destruct (set_parameter_factors_free_only ps_distinct [Fin 3; Fin 4; Fin 5] store3)
      as [H _].
    destruct H as (h' & H1 & H2 & _ & H4 & _);
      [exact NoDup_ps_distinct | rewrite Hfree; cbn; lia |].
    exists h'. split; [exact H1 |]. rewrite Hfree in H2, H4.
    split; [exact H2 |]. apply H4.
    rewrite <- existsb_nat_not_elem_of. reflexivity.
  - destruct (set_parameter_factors_free_only ps_distinct [Fin 3] store3) as [_ H].
    apply H. rewrite Hfree. cbn. lia.
Defined.

(** *** [freeze_all] and [unfreeze_all] *)

Lemma set_frozen_idem (p : parameter) (b : bool) :
  set_frozen (set_frozen p b) b = set_frozen p b.
Proof. destruct p; reflexivity. Qed.

Lemma filter_all_true {A : Type} (f : A -> bool) (l : list A) :
  (forall a, In a l -> f a = true) -> List.filter f l = l.
Proof.
  induction l as [| x l IH]; intros H; [reflexivity |]. cbn [List.filter].
  rewrite (H x (or_introl eq_refl)). f_equal. apply IH.
  intros a Ha. apply H. right. exact Ha.
Qed.

Lemma filter_all_false {A : Type} (f : A -> bool) (l : list A) :
  (forall a, In a l -> f a = false) -> List.filter f l = [].
Proof.
  induction l as [| x l IH]; intros H; [reflexivity |]. cbn [List.filter].
  rewrite (H x (or_introl eq_refl)). apply IH.
  intros a Ha. apply H. right. exact Ha.
Qed.

Lemma set_frozen_all_spec (b : bool) (ps : list nat) :
  forall (h : nat -> parameter) (a : nat),
    (a ∈ ps -> set_frozen_all b ps h a = set_frozen (h a) b) /\
    (a ∉ ps -> set_frozen_all b ps h a = h a).
Proof.
  induction ps as [| x ps IH]; intros h a.
  - split; [intros Ha; inversion Ha | reflexivity].
  - cbn [set_frozen_all].
    destruct (IH (<[x := set_frozen (h x) b]> h) a) as [Hin Hout].
    destruct (decide (x = a)) as [-> | Hne].
    + split; [| intros Ha; exfalso; apply Ha, list_elem_of_here].
      intros _. destruct (decide (a ∈ ps)) as [Hps | Hps].
      * rewrite (Hin Hps), fn_lookup_insert. apply set_frozen_idem.
      * rewrite (Hout Hps). apply fn_lookup_insert.
    + split.
      * intros Ha. apply elem_of_cons in Ha as [-> | Ha]; [congruence |].
        rewrite (Hin Ha), fn_lookup_insert_ne by exact Hne. reflexivity.
      * intros Ha. apply not_elem_of_cons in Ha as [_ Ha].
        rewrite (Hout Ha). apply fn_lookup_insert_ne. exact Hne.
Qed.

(** X10.  [freeze_all] and [unfreeze_all], also on a container that holds an
    object more than once: afterwards every member differs from before in its
    frozen flag only, objects outside the container are untouched, the values
    read back unchanged, no member is free after [freeze_all] and every
    member is free after [unfreeze_all], whatever was frozen before. *)
Theorem freeze_unfreeze_all (ps : list nat) (h : nat -> parameter) :
  (forall b a, a ∈ ps -> set_frozen_all b ps h a = set_frozen (h a) b) /\
  (forall b a, a ∉ ps -> set_frozen_all b ps h a = h a) /\
  (forall b, get_values ps (set_frozen_all b ps h) = get_values ps h) /\
  free_parameters ps (freeze_all ps h) = [] /\
  free_parameters ps (unfreeze_all ps h) = ps.
Proof.
  split; [| split; [| split; [| split]]].
  - intros b a. apply set_frozen_all_spec.
  - intros b a. apply set_frozen_all_spec.
  - intros b. unfold get_values. apply map_ext_in. intros a Ha.
    apply list_elem_of_In in Ha.
    rewrite (proj1 (set_frozen_all_spec b ps h a) Ha). reflexivity.
  - unfold free_parameters, freeze_all. apply filter_all_false. intros a Ha.
    apply list_elem_of_In in Ha.
    rewrite (proj1 (set_frozen_all_spec true ps h a) Ha). reflexivity.
  - unfold free_parameters, unfreeze_all. apply filter_all_true. intros a Ha.
    apply list_elem_of_In in Ha.
    rewrite (proj1 (set_frozen_all_spec false ps h a) Ha). reflexivity.
Qed.

Lemma freeze_unfreeze_all_witness :
  freeze_all ps_linked store3 3%nat = store3 3%nat /\
  unfreeze_all ps_linked store3 1%nat = set_frozen (store3 1%nat) false.
Proof.
  destruct (freeze_unfreeze_all ps_linked store3) as (Hin & Hout & _).
  split.
  - apply (Hout true 3%nat). rewrite <- existsb_nat_not_elem_of. reflexivity.
  - apply (Hin false 1%nat). rewrite <- existsb_nat_elem_of. reflexivity.
Defined.

(** *** [unique_parameters] and [free_unique_parameters] *)

Lemma fromkeys_elem_of (l : list nat) :
  forall (seen : list nat) (a : nat),
    a ∈ fromkeys l seen <-> a ∈ l /\ a ∉ seen.
Proof.
  induction l as [| x l IH]; intros seen a; cbn [fromkeys].
  - split; [intros H; inversion H | intros [H _]; inversion H].
  - destruct (existsb (Nat.eqb x) seen) eqn:E.
    + apply existsb_nat_elem_of in E. rewrite IH, elem_of_cons. split.
      * intros [H1 H2]. split; [right; exact H1 | exact H2].
      * intros [[-> | H1] H2]; [contradiction | split; assumption].
    + apply existsb_nat_not_elem_of in E.
      rewrite elem_of_cons, IH, not_elem_of_cons, elem_of_cons. split.
      * intros [-> | (H1 & H2 & H3)].
        -- split; [left; reflexivity | exact E].
        -- split; [right; exact H1 | exact H3].
      * intros [[-> | H1] H2]; [left; reflexivity |].
        destruct (decide (a = x)) as [-> | Hne]; [left; reflexivity |].
        right. repeat split; assumption.
Qed.

Lemma fromkeys_NoDup (l : list nat) : forall seen, NoDup (fromkeys l seen).
Proof.
  induction l as [| x l IH]; intros seen; cbn [fromkeys].
  - apply NoDup_nil_2.
  - destruct (existsb (Nat.eqb x) seen); [apply IH |].
    apply NoDup_cons. split; [| apply IH].
    rewrite fromkeys_elem_of. intros [_ H]. apply H, list_elem_of_here.
Qed.

Lemma existsb_nat_ext (x : nat) (s s' : list nat) :
  (forall a, a ∈ s <-> a ∈ s') ->
  existsb (Nat.eqb x) s = existsb (Nat.eqb x) s'.
Proof.
  intros H. destruct (existsb (Nat.eqb x) s') eqn:E.
  - apply existsb_nat_elem_of, H, existsb_nat_elem_of, E.
  - apply existsb_nat_not_elem_of. rewrite H.
    apply existsb_nat_not_elem_of, E.
Qed.

Lemma fromkeys_seen_ext (l : list nat) :
  forall s s', (forall a, a ∈ s <-> a ∈ s') -> fromkeys l s = fromkeys l s'.
Proof.
  induction l as [| x l IH]; intros s s' H; cbn [fromkeys]; [reflexivity |].
  rewrite (existsb_nat_ext x s s' H).
  destruct (existsb (Nat.eqb x) s'); [apply IH, H |].
  f_equal. apply IH. intros a. rewrite !elem_of_cons, H. reflexivity.
Qed.

Lemma fromkeys_cons_seen (l : list nat) :
  forall (x : nat) (seen : list nat),
    fromkeys l (x :: seen)
    = List.filter (fun b => negb (Nat.eqb b x)) (fromkeys l seen).
Proof.
  induction l as [| b l IH]; intros x seen; cbn [fromkeys existsb];
    [reflexivity |].
  destruct (Nat.eqb b x) eqn:Ebx; cbn [orb].
  - apply Nat.eqb_eq in Ebx. subst b.
    destruct (existsb (Nat.eqb x) seen) eqn:E; [apply IH |].
    cbn [List.filter]. rewrite Nat.eqb_refl. cbn [negb].
    symmetry. apply filter_all_true. intros a Ha.
    apply list_elem_of_In, fromkeys_elem_of in Ha as [_ Ha].
    apply not_elem_of_cons in Ha as [Ha _].
    apply negb_true_iff, Nat.eqb_neq, Ha.
  - destruct (existsb (Nat.eqb b) seen) eqn:E; [apply IH |].
    cbn [List.filter]. rewrite Ebx. cbn [negb]. f_equal.
    rewrite <- IH. apply fromkeys_seen_ext.
    intros a. rewrite !elem_of_cons. tauto.
Qed.

Lemma fromkeys_distinct (l : list nat) :
  forall seen, NoDup l -> (forall a, a ∈ l -> a ∉ seen) -> fromkeys l seen = l.
Proof.
  induction l as [| x l IH]; intros seen Hnd Hseen; cbn [fromkeys];
    [reflexivity |].
  apply NoDup_cons in Hnd as [Hx Hnd].
  rewrite (proj2 (existsb_nat_not_elem_of x seen) (Hseen x (list_elem_of_here _ _))).
  f_equal. apply IH; [exact Hnd |].
  intros a Ha. apply not_elem_of_cons. split.
  - intros ->. contradiction.
  - apply Hseen, list_elem_of_further, Ha.
Qed.

Lemma fromkeys_length (l : list nat) :
  forall seen, (length (fromkeys l seen) <= length l)%nat.
Proof.
  induction l as [| x l IH]; intros seen; cbn [fromkeys length]; [lia |].
  destruct (existsb (Nat.eqb x) seen); cbn [length].
  - specialize (IH seen). lia.
  - specialize (IH (x :: seen)). lia.
Qed.

Lemma fromkeys_filter (f : nat -> bool) (l : list nat) :
  forall seen,
    List.filter f (fromkeys l seen) = fromkeys (List.filter f l) seen.
Proof.
  induction l as [| x l IH]; intros seen; cbn [fromkeys List.filter];
    [reflexivity |].
  destruct (existsb (Nat.eqb x) seen) eqn:E.
  - destruct (f x) eqn:Hf; [cbn [fromkeys]; rewrite E |]; apply IH.
  - cbn [List.filter]. destruct (f x) eqn:Hf.
    + cbn [fromkeys]. rewrite E. f_equal. apply IH.
    + rewrite IH, fromkeys_cons_seen. apply filter_all_true.
      intros a Ha. apply list_elem_of_In, fromkeys_elem_of in Ha as [Ha _].
      apply list_elem_of_In, filter_In in Ha as [_ Ha].
      apply negb_true_iff, Nat.eqb_neq. intros ->. congruence.
Qed.

(** X11.  [unique_parameters] keeps exactly one slot for every object of the
    container, in the order in which the objects first occur: the first slot
    stays first and the rest is the unique list of the remaining slots
    without that object.  It changes nothing on a container without
    repetition, so applying it twice is applying it once.
    [free_unique_parameters] is the same list whether the frozen objects are
    dropped before or after the repetitions, and it is no longer than
    [unique_parameters], which is no longer than the container. *)
Theorem unique_parameters_first_occurrences (a : nat) (ps : list nat)
    (h : nat -> parameter) :
  NoDup (unique_parameters ps) /\
  (forall b, b ∈ unique_parameters ps <-> b ∈ ps) /\
  unique_parameters (a :: ps)
    = a :: List.filter (fun b => negb (Nat.eqb b a)) (unique_parameters ps) /\
  (NoDup ps -> unique_parameters ps = ps) /\
  unique_parameters (unique_parameters ps) = unique_parameters ps /\
  free_unique_parameters ps h = unique_parameters (free_parameters ps h) /\
  free_unique_parameters ps h = free_parameters (unique_parameters ps) h /\
  (length (free_unique_parameters ps h) <= length (unique_parameters ps)
   <= length ps)%nat.
Proof.
  unfold free_unique_parameters, unique_parameters, free_parameters.
  assert (Hdistinct : forall l, NoDup l -> fromkeys l [] = l).
  { intros l Hl. apply fromkeys_distinct; [exact Hl |].
    intros b _ Hb. inversion Hb. }
  split; [apply fromkeys_NoDup |].
  split; [intros b; rewrite fromkeys_elem_of; split;
          [intros [H _]; exact H | intros H; split; [exact H | intros Hb; inversion Hb]] |].
  split; [cbn [fromkeys existsb]; f_equal; apply fromkeys_cons_seen |].
  split; [apply Hdistinct |].
  split; [apply Hdistinct, fromkeys_NoDup |].
  split; [apply fromkeys_filter |].
  split; [reflexivity |].
  split; [apply filter_length_le | apply fromkeys_length].
Qed.

Lemma unique_parameters_first_occurrences_witness :
  unique_parameters ps_distinct = ps_distinct /\
  unique_parameters ps_linked = [0; 1; 2]%nat.
Proof.
  split.
  - destruct (unique_parameters_first_occurrences 0%nat ps_distinct store3)
      as (_ & _ & _ & H & _).
    exact (H NoDup_ps_distinct).
  - destruct (unique_parameters_first_occurrences 0%nat [1; 0; 2; 1]%nat store3)
      as (_ & _ & H & _).
    exact H.
Defined.

(** *** [index] and [__getitem__] *)

Lemma name_index_Some (s : string) (ps : list nat) (h : nat -> parameter) :
  forall i,
    name_index s ps h = Some i <->
    names ps h !! i = Some s /\
    (forall j, (j < i)%nat -> names ps h !! j <> Some s).
Proof.
  induction ps as [| a ps IH]; intros i; cbn [name_index names map].
  - split; [discriminate | intros [H _]; destruct i; discriminate].
  - fold (names ps h). destruct (String.eqb s (_name (h a))) eqn:E.
    + apply String.eqb_eq in E. split.
      * intros [= <-]. split; [cbn; congruence | intros j Hj; lia].
      * intros [_ Hfirst]. destruct i as [| i]; [reflexivity |].
        exfalso. apply (Hfirst O); [lia | cbn; congruence].
    + apply String.eqb_neq in E. split.
      * destruct (name_index s ps h) as [i' |] eqn:Hi; [| discriminate].
        intros [= <-]. destruct (proj1 (IH i') eq_refl) as [Hi' Hfirst].
        split; [exact Hi' |]. intros [| j] Hj; cbn; [congruence |].
        apply Hfirst. lia.
      * intros [Hi Hfirst]. destruct i as [| i]; [cbn in Hi; congruence |].
        cbn in Hi. rewrite (proj2 (IH i)); [reflexivity |].
        split; [exact Hi |]. intros j Hj. apply (Hfirst (S j)). lia.
Qed.

Lemma name_index_None (s : string) (ps : list nat) (h : nat -> parameter) :
  name_index s ps h = None <-> s ∉ names ps h.
Proof.
  induction ps as [| a ps IH]; cbn [name_index names map].
  - split; [intros _ H; inversion H | reflexivity].
  - fold (names ps h). rewrite not_elem_of_cons.
    destruct (String.eqb s (_name (h a))) eqn:E.
    + apply String.eqb_eq in E. split; [discriminate | intros [H _]; contradiction].
    + apply String.eqb_neq in E.
      destruct (name_index s ps h) as [i |] eqn:Hi.
      * split; [discriminate |]. intros [_ H]. apply IH in H. discriminate.
      * split; [| reflexivity]. intros _. split; [exact E | apply IH; reflexivity].
Qed.

Lemma list_index_Some (x : nat) (l : list nat) :
  forall i,
    list_index x l = Some i <->
    l !! i = Some x /\ (forall j, (j < i)%nat -> l !! j <> Some x).
Proof.
  induction l as [| y l IH]; intros i; cbn [list_index].
  - split; [discriminate | intros [H _]; destruct i; discriminate].
  - destruct (Nat.eqb y x) eqn:E.
    + apply Nat.eqb_eq in E. subst y. split.
      * intros [= <-]. split; [reflexivity | intros j Hj; lia].
      * intros [_ Hfirst]. destruct i as [| i]; [reflexivity |].
        exfalso. apply (Hfirst O); [lia | reflexivity].
    + apply Nat.eqb_neq in E. split.
      * destruct (list_index x l) as [i' |] eqn:Hi; [| discriminate].
        intros [= <-]. destruct (proj1 (IH i') eq_refl) as [Hi' Hfirst].
        split; [exact Hi' |]. intros [| j] Hj; cbn; [congruence |].
        apply Hfirst. lia.
      * intros [Hi Hfirst]. destruct i as [| i]; [cbn in Hi; congruence |].
        cbn in Hi. rewrite (proj2 (IH i)); [reflexivity |].
        split; [exact Hi |]. intros j Hj. apply (Hfirst (S j)). lia.
Qed.

Lemma list_index_None (x : nat) (l : list nat) :
  list_index x l = None <-> x ∉ l.
Proof.
  induction l as [| y l IH]; cbn [list_index].
  - split; [intros _ H; inversion H | reflexivity].
  - rewrite not_elem_of_cons. destruct (Nat.eqb y x) eqn:E.
    + apply Nat.eqb_eq in E. split; [discriminate | intros [H _]; congruence].
    + apply Nat.eqb_neq in E. destruct (list_index x l) as [i |] eqn:Hi.
      * split; [discriminate |]. intros [_ H]. apply IH in H. discriminate.
      * split; [| reflexivity]. intros _.
        split; [congruence | apply IH; reflexivity].
Qed.

Lemma py_getitem_of_nat {A : Type} (l : list A) (i : nat) :
  py_getitem l (Z.of_nat i) = l !! i.
Proof.
  unfold py_getitem. rewrite (proj2 (Z.leb_le 0 (Z.of_nat i))) by lia.
  rewrite Nat2Z.id. apply nth_error_lookup.
Qed.

(** X12.  [index] and [__getitem__] with a name or an object.  A name gives
    the position of the first parameter of that name, and [IndexError]
    exactly when no parameter has it; an object gives the position of its
    first slot, and [ValueError] exactly when it is not in the container.
    [parameters[name]] is then a member of the container that has this name,
    and [parameters[par]] is [par] itself. *)
Theorem index_first_match (ps : list nat) (h : nat -> parameter) (s : string)
    (a : nat) :
  (forall i, index ps h (ByName s) = inr (Z.of_nat i) <->
             names ps h !! i = Some s /\
             (forall j, (j < i)%nat -> names ps h !! j <> Some s)) /\
  (index ps h (ByName s) = inl IndexError <-> s ∉ names ps h) /\
  (forall i, index ps h (ByParameter a) = inr (Z.of_nat i) <->
             ps !! i = Some a /\ (forall j, (j < i)%nat -> ps !! j <> Some a)) /\
  (index ps h (ByParameter a) = inl (Raised ValueError) <-> a ∉ ps) /\
  (s ∈ names ps h ->
   exists b, getitem ps h (ByName s) = inr b /\ b ∈ ps /\ _name (h b) = s) /\
  (s ∉ names ps h -> getitem ps h (ByName s) = inl IndexError) /\
  (a ∈ ps -> getitem ps h (ByParameter a) = inr a).
Proof.
  split; [| split; [| split; [| split; [| split; [| split]]]]].
  - intros i. rewrite <- name_index_Some. cbn [index].
    destruct (name_index s ps h) as [k |]; split; try discriminate.
    + intros [= H]. apply Nat2Z.inj in H. congruence.
    + intros [= ->]. reflexivity.
  - rewrite <- name_index_None. cbn [index].
    destruct (name_index s ps h); split; try discriminate; reflexivity.
  - intros i. rewrite <- list_index_Some. cbn [index].
    destruct (list_index a ps) as [k |]; split; try discriminate.
    + intros [= H]. apply Nat2Z.inj in H. congruence.
    + intros [= ->]. reflexivity.
  - rewrite <- list_index_None. cbn [index].
    destruct (list_index a ps); split; try discriminate; reflexivity.
  - intros Hs. unfold getitem. cbn [index].
    destruct (name_index s ps h) as [i |] eqn:Hi;
      [| apply name_index_None in Hi; contradiction].
    apply name_index_Some in Hi as [Hi _]. rewrite py_getitem_of_nat.
    unfold names in Hi. change (map ?f ?l) with (f <$> l) in Hi.
    rewrite list_lookup_fmap in Hi.
    destruct (ps !! i) as [b |] eqn:Hb; [| discriminate].
    exists b. split; [reflexivity |].
    split; [apply (list_elem_of_lookup_2 ps i), Hb | cbn in Hi; congruence].
  - intros Hs. unfold getitem. cbn [index].
    rewrite (proj2 (name_index_None s ps h) Hs). reflexivity.
  - intros Ha. unfold getitem. cbn [index].
    destruct (list_index a ps) as [i |] eqn:Hi;
      [| apply list_index_None in Hi; contradiction].
    apply list_index_Some in Hi as [Hi _]. rewrite py_getitem_of_nat, Hi.
    reflexivity.
Qed.

Lemma index_first_match_witness :
  getitem ps_linked store3 (ByName "nope") = inl IndexError /\
  getitem ps_linked store3 (ByParameter 2%nat) = inr 2%nat /\
  index ps_linked store3 (ByParameter 7%nat) = inl (Raised ValueError).
Proof.
  destruct (index_first_match ps_linked store3 "nope" 2%nat)
    as (_ & _ & _ & _ & _ & Hname & Hpar).
  destruct (index_first_match ps_linked store3 "nope" 7%nat)
    as (_ & _ & _ & Hval & _).
  split; [| split].
  - apply Hname. intros H. apply list_elem_of_In in H. cbn in H.
    repeat (destruct H as [H | H]; [discriminate |]). exact H.
  - apply Hpar. rewrite <- existsb_nat_elem_of. reflexivity.
  - apply Hval. rewrite <- existsb_nat_not_elem_of. reflexivity.
Defined.

(** *** [__eq__] *)

(** X13.  Two containers compare equal exactly when they have the same
    length and hold the same objects slot by slot: the comparison is by
    identity, so a container never equals a proper prefix of itself. *)
Theorem parameters_eq_same_slots (ps other : list nat) :
  (parameters_eq ps other = true <-> ps = other) /\
  (forall extra, parameters_eq ps (ps ++ extra) = true -> extra = []).
Proof.
  assert (Hiff : forall l l', parameters_eq l l' = true <-> l = l').
  { unfold parameters_eq. induction l as [| a l IH]; intros [| b l'];
      cbn [zip zip_with forallb length Nat.eqb fst snd].
    - split; reflexivity.
    - split; discriminate.
    - split; discriminate.
    - specialize (IH l'). destruct (Nat.eqb a b) eqn:E; cbn [andb].
      + apply Nat.eqb_eq in E. subst b. rewrite IH.
        split; [intros -> | intros [= ->]]; reflexivity.
      + apply Nat.eqb_neq in E. split; [discriminate | intros [= ? ?]; contradiction]. }
  split; [apply Hiff |].
  intros extra H. apply Hiff in H.
  rewrite <- (app_nil_r ps) in H at 1. apply app_inv_head in H. congruence.
Qed.

Lemma parameters_eq_same_slots_witness :
  parameters_eq ps_distinct [0; 1; 2]%nat = true /\
  parameters_eq ps_distinct [0; 1]%nat = false.
Proof.
  split.
  - apply (parameters_eq_same_slots ps_distinct [0; 1; 2]%nat). reflexivity.
  - destruct (parameters_eq ps_distinct [0; 1]%nat) eqn:E; [| reflexivity].
    apply (parameters_eq_same_slots ps_distinct [0; 1]%nat) in E. discriminate.
Defined.

(** *** [update_link_label] *)

Lemma shared_loop_spec (ps : list nat) :
  forall (seen shared : list nat),
    NoDup shared -> (forall a, a ∈ shared -> a ∈ seen) ->
    NoDup (shared_loop ps seen shared) /\
    (forall a, a ∈ shared_loop ps seen shared <->
               a ∈ shared \/ (a ∈ seen /\ a ∈ ps) \/
               (2 <= count_occ Nat.eq_dec ps a)%nat).
Proof.
  induction ps as [| p ps IH]; intros seen shared Hnd Hsub.
  - cbn [shared_loop count_occ]. split; [exact Hnd |]. intros a. split.
    + intros H. left. exact H.
    + intros [H | [[_ H] | H]]; [exact H | inversion H | lia].
  - cbn [shared_loop].
    assert (Hcount : forall a, (0 < count_occ Nat.eq_dec ps a)%nat <-> a ∈ ps).
    { intros a. rewrite list_elem_of_In. symmetry. apply count_occ_In. }
    destruct (existsb (Nat.eqb p) seen) eqn:Eseen; cbn [negb].
    + apply existsb_nat_elem_of in Eseen.
      destruct (existsb (Nat.eqb p) shared) eqn:Eshared; cbn [negb].
      * apply existsb_nat_elem_of in Eshared.
        destruct (IH seen shared Hnd Hsub) as [Hnd' Hiff].
        split; [exact Hnd' |]. intros a. rewrite Hiff, elem_of_cons.
        destruct (decide (p = a)) as [-> | Hne].
        -- split; intros _; left; exact Eshared.
        -- rewrite (count_occ_cons_neq Nat.eq_dec ps Hne).
           split; (intros [H | [[H1 H2] | H]];
                   [left; exact H | right; left | right; right; exact H]).
           ++ split; [exact H1 | right; exact H2].
           ++ destruct H2 as [-> | H2]; [contradiction | split; assumption].
      * apply existsb_nat_not_elem_of in Eshared.
        destruct (IH seen (shared ++ [p])) as [Hnd' Hiff].
        { apply NoDup_app. split; [exact Hnd |]. split; [| apply NoDup_singleton].
          intros x Hx Hx'. apply list_elem_of_singleton in Hx'. subst x.
          contradiction. }
        { intros a Ha. apply elem_of_app in Ha as [Ha | Ha]; [apply Hsub, Ha |].
          apply list_elem_of_singleton in Ha. subst a. exact Eseen. }
        split; [exact Hnd' |]. intros a.
        rewrite Hiff, elem_of_app, list_elem_of_singleton, elem_of_cons.
        destruct (decide (p = a)) as [-> | Hne].
        -- split; intros _; [right; left; split; [exact Eseen | left; reflexivity]
                            | left; right; reflexivity].
        -- rewrite (count_occ_cons_neq Nat.eq_dec ps Hne).
           split.
           ++ intros [[H | H] | [[H1 H2] | H]];
                [left; exact H | congruence
                | right; left; split; [exact H1 | right; exact H2]
                | right; right; exact H].
           ++ intros [H | [[H1 [H2 | H2]] | H]];
                [left; left; exact H | congruence
                | right; left; split; assumption
                | right; right; exact H].
    + apply existsb_nat_not_elem_of in Eseen.
      destruct (IH (seen ++ [p; p]) shared Hnd) as [Hnd' Hiff].
      { intros a Ha. apply elem_of_app. left. apply Hsub, Ha. }
      split; [exact Hnd' |]. intros a.
      rewrite Hiff, elem_of_app, !elem_of_cons.
      destruct (decide (p = a)) as [-> | Hne].
      -- rewrite (count_occ_cons_eq Nat.eq_dec ps (eq_refl a)).
         specialize (Hcount a). split.
         ++ intros [H | [[_ H] | H]].
            ** exfalso. apply Eseen, Hsub, H.
            ** right. right. apply Hcount in H. lia.
            ** right. right. lia.
         ++ intros [H | [[H _] | H]].
            ** left. exact H.
            ** contradiction.
            ** right. left. split; [right; left; reflexivity |].
               apply Hcount. lia.
      -- rewrite (count_occ_cons_neq Nat.eq_dec ps Hne). split.
         ++ intros [H | [[[H1 | [H1 | [H1 | H1]]] H2] | H]];
              [left; exact H
              | right; left; split; [exact H1 | right; exact H2]
              | congruence | congruence | inversion H1
              | right; right; exact H].
         ++ intros [H | [[H1 [H2 | H2]] | H]];
              [left; exact H | congruence
              | right; left; split; [left; exact H1 | exact H2]
              | right; right; exact H].
Qed.

Lemma label_loop_spec (make_name : nat -> string) (shared : list nat) :
  forall (k : nat) (h : nat -> parameter) (labels : nat -> option string),
    NoDup shared ->
    forall a,
      label_loop make_name k shared h labels a
      = match list_index a shared with
        | Some i => Some (_name (h a) ++ "@" ++ make_name (k + i)%nat)%string
        | None => labels a
        end.
Proof.
  induction shared as [| p shared IH]; intros k h labels Hnd a;
    cbn [label_loop list_index]; [reflexivity |].
  apply NoDup_cons in Hnd as [Hp Hnd]. rewrite (IH _ _ _ Hnd).
  destruct (Nat.eqb p a) eqn:E.
  - apply Nat.eqb_eq in E. subst p.
    rewrite (proj2 (list_index_None a shared) Hp), fn_lookup_insert, Nat.add_0_r.
    reflexivity.
  - apply Nat.eqb_neq in E. destruct (list_index a shared) as [i |].
    + rewrite Nat.add_succ_r. reflexivity.
    + apply fn_lookup_insert_ne. exact E.
Qed.

(** X14.  [update_link_label] writes a label on exactly the objects that
    occupy two or more slots of the container: each of them gets
    [name + "@" + make_name()], with one fresh call of the name generator per
    object however many slots it occupies, and the label of every other
    object is left as it was. *)
Theorem update_link_label_shared_only (make_name : nat -> string)
    (ps : list nat) (h : nat -> parameter) (labels : nat -> option string) :
  exists shared : list nat,
    NoDup shared /\
    (forall a, a ∈ shared <-> (2 <= count_occ Nat.eq_dec ps a)%nat) /\
    (forall a, update_link_label make_name ps h labels a
               = match list_index a shared with
                 | Some k => Some (_name (h a) ++ "@" ++ make_name k)%string
                 | None => labels a
                 end) /\
    (forall a, (count_occ Nat.eq_dec ps a < 2)%nat ->
               update_link_label make_name ps h labels a = labels a).
Proof.
  destruct (shared_loop_spec ps [] [] (NoDup_nil_2 (A := nat))) as [Hnd Hiff];
    [intros a Ha; inversion Ha |].
  assert (Hmem : forall a, a ∈ shared_loop ps [] [] <->
                           (2 <= count_occ Nat.eq_dec ps a)%nat).
  { intros a. rewrite Hiff. split.
    - intros [H | [[H _] | H]]; [inversion H | inversion H | exact H].
    - intros H. right. right. exact H. }
  assert (Hlab : forall a, update_link_label make_name ps h labels a
               = match list_index a (shared_loop ps [] []) with
                 | Some k => Some (_name (h a) ++ "@" ++ make_name k)%string
                 | None => labels a
                 end).
  { intros a. unfold update_link_label.
    rewrite (label_loop_spec make_name _ 0 h labels Hnd a). reflexivity. }
  exists (shared_loop ps [] []). split; [exact Hnd |]. split; [exact Hmem |].
  split; [exact Hlab |].
  intros a Ha. rewrite Hlab.
  rewrite (proj2 (list_index_None a (shared_loop ps [] []))); [reflexivity |].
  rewrite Hmem. lia.
Qed.

Lemma update_link_label_shared_only_witness :
  update_link_label sample_make_name ps_linked store3 no_labels 2%nat = None.
Proof.
  destruct (update_link_label_shared_only sample_make_name ps_linked store3 no_labels)
    as (shared & _ & _ & _ & H).
  apply (H 2%nat). cbn. lia.
Defined.

(** *** [select] *)

Lemma select_entry_matches (name : list string) (type : option string)
    (frozen : option bool) (p : parameter) (p_type : option string) :
  select_entry name type frozen p p_type = matches name type frozen p p_type.
Proof.
  unfold select_entry, matches.
  destruct name as [| n name];
    [| generalize (existsb (fun n0 => String.eqb n0 (_name p)) (n :: name));
       intros e; destruct e];
    destruct type as [t |]; try destruct (String.eqb t "");
    try destruct p_type as [t' |]; try destruct (String.eqb t t');
    destruct frozen as [[|] |]; destruct (_frozen p); reflexivity.
Qed.

Lemma getitem_mask_map (f : nat -> bool) (ps : list nat) :
  getitem_mask ps (map f ps) = List.filter f ps.
Proof.
  induction ps as [| a ps IH]; cbn [map getitem_mask List.filter];
    [reflexivity |].
  rewrite IH. reflexivity.
Qed.

(** X15.  [select(name, type, frozen)] returns, in container order, exactly
    the slots whose parameter passes every filter that was given; with the
    bitwise [&=] and [~] of the source the mask still comes out as the plain
    conjunction.  Without filters it returns the whole container,
    [select(frozen=False)] is [free_parameters], and selecting by name and
    type first and by frozen status afterwards gives the same list as one
    call. *)
Theorem select_is_filter (ps : list nat) (h : nat -> parameter)
    (types : nat -> option string) (name : name_arg) (type : option string)
    (frozen : option bool) :
  select ps h types name type frozen
    = List.filter
        (fun a => matches (name_filter name) type frozen (h a) (types a)) ps /\
  select ps h types NameNone None None = ps /\
  select ps h types (NameStr "") (Some ""%string) None = ps /\
  select ps h types NameNone None (Some false) = free_parameters ps h /\
  select (select ps h types name type None) h types NameNone None frozen
    = select ps h types name type frozen.
Proof.
  assert (Hfilter : forall l n t f,
            select l h types n t f
            = List.filter
                (fun a => matches (name_filter n) t f (h a) (types a)) l).
  { intros l n t f. unfold select.
    rewrite (map_ext _ (fun a => matches (name_filter n) t f (h a) (types a))).
    - apply getitem_mask_map.
    - intros a. apply select_entry_matches. }
  split; [apply Hfilter |].
  split; [rewrite Hfilter; apply filter_all_true; reflexivity |].
  split; [rewrite Hfilter; apply filter_all_true; reflexivity |].
  split.
  - rewrite Hfilter. unfold free_parameters. apply filter_ext. intros a.
    unfold matches. cbn. destruct (_frozen (h a)); reflexivity.
  - rewrite !Hfilter. induction ps as [| a ps IH]; [reflexivity |].
    cbn [List.filter].
    assert (E : matches (name_filter name) type frozen (h a) (types a)
                = matches (name_filter name) type None (h a) (types a)
                  && matches (name_filter NameNone) None frozen (h a) (types a)).
    { unfold matches. cbn [name_filter]. cbn [andb].
      rewrite andb_true_r. reflexivity. }
    rewrite E.
    destruct (matches (name_filter name) type None (h a) (types a));
      cbn [andb List.filter]; [| exact IH].
    destruct (matches (name_filter NameNone) None frozen (h a) (types a));
      [f_equal |]; exact IH.
Qed.

(** *** [Parameters.autoscale] *)





End ParameterMoreFacts.

(** ** Further properties of [DataStore] *)

Module DataStoreMoreFacts.
Import DataStoreModel DataSamples DataMoreSamples DataStoreFacts.

(** *** [obs]: arguments that are refused *)

Lemma Z_mem_false (x : Z) (l : list Z) : Z_mem x l = false <-> x ∉ l.
Proof.
  rewrite <- Z_mem_elem_of. destruct (Z_mem x l); split; congruence.
Qed.

Lemma issubset_false (l1 l2 : list string) (k : string) :
  k ∈ l1 -> k ∉ l2 -> issubset l1 l2 = false.
Proof.
  intros H1 H2. destruct (issubset l1 l2) eqn:E; [| reflexivity].
  exfalso. apply H2, (issubset_elem_of _ _ E), H1.
Qed.

(** X16.  What [obs] refuses, in the order in which it checks: an [obs_id]
    that is not in the HDU index table raises [ValueError] whatever the other
    arguments are; for a known id, a string that is not one of the presets
    raises [KeyError], and a list with a key outside [ALL_IRFS] raises
    [ValueError] - also for ["events"] and ["gti"], which name HDU types but
    are not accepted as requirements. *)
Theorem obs_refused_arguments (t : HDUIndexTable) (obs_id : Z)
    (require_events : bool) :
  (obs_id ∉ OBS_ID_column t ->
   forall arg, obs t obs_id arg require_events = inl ValueError) /\
  (obs_id ∈ OBS_ID_column t ->
   (forall name, REQUIRED_IRFS name = None ->
                 obs t obs_id (IrfPreset name) require_events = inl (KeyError name)) /\
   (forall keys k, k ∈ keys -> k ∉ ALL_IRFS ->
                   obs t obs_id (IrfList keys) require_events = inl ValueError) /\
   obs t obs_id (IrfList ["events"]) require_events = inl ValueError /\
   obs t obs_id (IrfList ["aeff"; "gti"]) require_events = inl ValueError).
Proof.
  split.
  - intros Hid arg. unfold obs. rewrite (proj2 (Z_mem_false _ _) Hid). reflexivity.
  - intros Hid. apply Z_mem_elem_of in Hid.
    assert (Hkeys : forall keys k, k ∈ keys -> k ∉ ALL_IRFS ->
                      obs t obs_id (IrfList keys) require_events = inl ValueError).
    { intros keys k Hk Hnot. unfold obs. rewrite Hid. cbn [negb resolve_required_irf bind].
      rewrite (issubset_false keys ALL_IRFS k Hk Hnot). reflexivity. }
    split; [| split; [exact Hkeys | split]].
    + intros name Hname. unfold obs. rewrite Hid. cbn [negb resolve_required_irf].
      rewrite Hname. reflexivity.
    + apply (Hkeys _ "events"); [apply list_elem_of_here |].
      rewrite <- mem_elem_of. discriminate.
    + apply (Hkeys _ "gti"); [apply list_elem_of_further, list_elem_of_here |].
      rewrite <- mem_elem_of. discriminate.
Qed.

Lemma obs_refused_arguments_witness :
  obs table_1_3_5 2 (IrfPreset "no such preset") true = inl ValueError /\
  obs table_1_3_5 3 (IrfPreset "full") true = inl (KeyError "full") /\
  obs table_1_3_5 3 (IrfList ["events"]) false = inl ValueError.
Proof.
  destruct (obs_refused_arguments table_1_3_5 2 true) as [Hunknown _].
  destruct (obs_refused_arguments table_1_3_5 3 true) as [_ Hknown].
  destruct (obs_refused_arguments table_1_3_5 3 false) as [_ Hknown'].
  assert (H3 : 3%Z ∈ OBS_ID_column table_1_3_5)
    by (apply Z_mem_elem_of; reflexivity).
  split; [| split].
  - apply Hunknown. apply Z_mem_false. reflexivity.
  - apply (proj1 (Hknown H3)). reflexivity.
  - apply (proj1 (proj2 (proj2 (Hknown' H3)))).
Defined.

(** *** [obs]: the requirements only decide between error and result *)

Lemma obs_inr_inv (t : HDUIndexTable) (i : Z) (arg : required_irf_arg)
    (re : bool) (o : Observation) :
  obs t i arg re = inr o ->
  Z_mem i (OBS_ID_column t) = true /\
  exists req, resolve_required_irf arg = inr req /\
              issubset req ALL_IRFS = true.
Proof.
  unfold obs. destruct (Z_mem i (OBS_ID_column t)); [| discriminate].
  cbn [negb]. destruct (resolve_required_irf arg) as [e | req]; [discriminate |].
  cbn [bind]. destruct (issubset req ALL_IRFS) eqn:Hsub; [| discriminate].
  intros _. split; [reflexivity |]. exists req. split; [reflexivity | exact Hsub].
Qed.

Lemma located_independent (t : HDUIndexTable) (i : Z) (required required' : list string) :
  fst (locate_hdus t i required ALL_HDUS ∅ [])
  = fst (locate_hdus t i required' ALL_HDUS ∅ []).
Proof.
  destruct (locate_all_hdus t i required) as (_ & Hin & Hout).
  destruct (locate_all_hdus t i required') as (_ & Hin' & Hout').
  cbv zeta in *. apply map_eq. intros h.
  destruct (decide (h ∈ ALL_HDUS)) as [Hh | Hh].
  - rewrite (Hin h Hh), (Hin' h Hh). reflexivity.
  - rewrite (Hout h Hh), (Hout' h Hh). reflexivity.
Qed.

Lemma missing_of_nil_mono (t : HDUIndexTable) (i : Z) (required required' : list string) :
  (forall h, h ∈ required' -> h ∈ required) ->
  missing_of t i required = [] -> missing_of t i required' = [].
Proof.
  intros Hsub Hnil. destruct (missing_of t i required') as [| h rest] eqn:E;
    [reflexivity |]. exfalso.
  assert (Hh : h ∈ missing_of t i required') by (rewrite E; apply list_elem_of_here).
  unfold missing_of in Hh. apply list_elem_of_filter in Hh as [Hreq Hh].
  apply mem_elem_of, Hsub in Hreq.
  assert (Hin : h ∈ missing_of t i required).
  { unfold missing_of. apply list_elem_of_filter. split; [| exact Hh].
    apply mem_elem_of, Hreq. }
  rewrite Hnil in Hin. inversion Hin.
Qed.

Lemma obs_inr_missing (t : HDUIndexTable) (i : Z) (arg : required_irf_arg)
    (req : list string) (re : bool) :
  Z_mem i (OBS_ID_column t) = true ->
  resolve_required_irf arg = inr req ->
  issubset req ALL_IRFS = true ->
  forall o,
    obs t i arg re = inr o <->
    missing_of t i (required_set req re) = [] /\
    o = mkObservation i
          (add_derived (fst (locate_hdus t i (required_set req re) ALL_HDUS ∅ []))).
Proof.
  intros Hid Hreq Hsub o. rewrite (obs_unfold t i arg req re Hid Hreq Hsub).
  cbv zeta. destruct (locate_all_hdus t i (required_set req re)) as (Hm & _).
  cbv zeta in Hm. rewrite Hm.
  destruct (missing_of t i (required_set req re)) as [| h rest];
    cbn [length Nat.ltb Nat.leb].
  - split; [intros [= <-]; split; reflexivity | intros [_ ->]; reflexivity].
  - split; [discriminate | intros [H _]; discriminate].
Qed.

(** X17.  The requirements of [obs] only decide between an error and a
    result; they do not change the result.  If [obs] returns an observation
    for one set of requirements, it returns the same observation for every
    weaker valid set.  With the preset ["all-optional"] and
    [require_events=False] it returns for every id of the index table, and
    whatever [obs] returns for that id under other requirements is this
    observation. *)
Theorem obs_requirements_only_gate (t : HDUIndexTable) (obs_id : Z) :
  (forall arg arg' req' re re' o,
     obs t obs_id arg re = inr o ->
     resolve_required_irf arg' = inr req' ->
     issubset req' ALL_IRFS = true ->
     (forall req, resolve_required_irf arg = inr req ->
        forall h, h ∈ required_set req' re' -> h ∈ required_set req re) ->
     obs t obs_id arg' re' = inr o) /\
  (obs_id ∈ OBS_ID_column t ->
   exists o,
     obs t obs_id (IrfPreset "all-optional") false = inr o /\
     forall arg re o', obs t obs_id arg re = inr o' -> o' = o).
Proof.
  assert (Hweaker : forall arg arg' req' re re' o,
     obs t obs_id arg re = inr o ->
     resolve_required_irf arg' = inr req' ->
     issubset req' ALL_IRFS = true ->
     (forall req, resolve_required_irf arg = inr req ->
        forall h, h ∈ required_set req' re' -> h ∈ required_set req re) ->
     obs t obs_id arg' re' = inr o).
  { intros arg arg' req' re re' o Hobs Hreq' Hsub' Hweak.
    destruct (obs_inr_inv _ _ _ _ _ Hobs) as (Hid & req & Hreq & Hsub).
    apply (obs_inr_missing t obs_id arg req re Hid Hreq Hsub) in Hobs as [Hnil ->].
    apply (obs_inr_missing t obs_id arg' req' re' Hid Hreq' Hsub'). split.
    - apply (missing_of_nil_mono t obs_id (required_set req re));
        [apply Hweak, Hreq | exact Hnil].
    - rewrite (located_independent t obs_id _ (required_set req' re')).
      reflexivity. }
  split; [exact Hweaker |].
  intros Hid. apply Z_mem_elem_of in Hid.
  assert (Hobs : exists o, obs t obs_id (IrfPreset "all-optional") false = inr o).
  { eexists.
    apply (obs_inr_missing t obs_id (IrfPreset "all-optional") [] false Hid
             eq_refl eq_refl).
    split; [| reflexivity]. cbn [required_set]. unfold missing_of.
    induction (filter _ ALL_HDUS) as [| h l IH]; [reflexivity |].
    rewrite filter_cons. rewrite decide_False by discriminate. exact IH. }
  destruct Hobs as [o Hobs]. exists o. split; [exact Hobs |].
  intros arg re o' Hobs'.
  pose proof (Hweaker arg (IrfPreset "all-optional") [] re false o' Hobs'
                eq_refl eq_refl) as H.
  rewrite Hobs in H. symmetry.
  assert (Heq : @inr exn Observation o = inr o'); [| congruence].
  apply H. intros req _ h Hh. inversion Hh.
Qed.

Lemma obs_requirements_only_gate_witness :
  exists o, obs table_1_3_5 3 (IrfPreset "point-like") true = inr o /\
            obs table_1_3_5 3 (IrfList ["aeff"]) false = inr o.
Proof.
  destruct (obs table_1_3_5 3 (IrfPreset "point-like") true) as [e | o] eqn:Hobs;
    [vm_compute in Hobs; discriminate |].
  exists o. split; [reflexivity |].
  destruct (obs_requirements_only_gate table_1_3_5 3) as [Hweaker _].
  apply (Hweaker (IrfPreset "point-like") (IrfList ["aeff"]) ["aeff"] true false o
           Hobs eq_refl eq_refl).
  intros req [= <-] h Hh. apply list_elem_of_In in Hh. apply list_elem_of_In.
  cbn in Hh. cbn. intuition.
Defined.

(** *** [get_observations]: order, repetitions and the log *)

Lemma filter_bool {A : Type} (f : A -> bool) (l : list A) :
  filter (fun x => f x = true) l = List.filter f l.
Proof.
  induction l as [| x l IH]; [reflexivity |].
  rewrite filter_cons. cbn [List.filter]. destruct (f x) eqn:E.
  - rewrite decide_True by reflexivity. f_equal. exact IH.
  - rewrite decide_False by discriminate. exact IH.
Qed.

Lemma obs_inr_id (t : HDUIndexTable) (i : Z) (arg : required_irf_arg)
    (re : bool) (o : Observation) :
  obs t i arg re = inr o -> obs_id_of o = i.
Proof.
  intros Hobs.
  destruct (obs_inr_inv _ _ _ _ _ Hobs) as (Hid & req & Hreq & Hsub).
  apply (obs_inr_missing t i arg req re Hid Hreq Hsub) in Hobs as [_ ->].
  reflexivity.
Qed.

Lemma resolved_ids (t : HDUIndexTable) (arg : required_irf_arg) (re : bool)
    (ids : list Z) :
  map obs_id_of (resolved t arg re ids) = List.filter (resolves t arg re) ids.
Proof.
  induction ids as [| i rest IH]; [reflexivity |].
  cbn [resolved List.filter]. unfold resolves at 1.
  destruct (obs t i arg re) as [e | o] eqn:Hobs; [exact IH |].
  cbn [map]. rewrite IH, (obs_inr_id _ _ _ _ _ Hobs). reflexivity.
Qed.

(** A loop that returns has kept the observations that resolve, in order,
    and has written one warning for each of the others. *)
Lemma resolve_loop_inr (t : HDUIndexTable) (arg : required_irf_arg) (re : bool)
    (ids : list Z) :
  forall log acc log' obs_list,
    resolve_loop t arg re ids log acc = (log', inr obs_list) ->
    log' = log ++ skip_warnings t arg re ids /\
    obs_list = acc ++ resolved t arg re ids.
Proof.
  induction ids as [| i rest IH]; intros log acc log' obs_list;
    cbn [resolve_loop skip_warnings resolved].
  - intros [= <- <-]. rewrite !app_nil_r. split; reflexivity.
  - destruct (obs t i arg re) as [err | o].
    + destruct err; try discriminate.
      intros H. apply IH in H as [-> ->]. rewrite <- app_assoc. split; reflexivity.
    + intros H. apply IH in H as [-> ->]. rewrite <- app_assoc. split; reflexivity.
Qed.

Lemma check_requested_spec (ids_known : list Z) (skip : bool) (ids : list Z) :
  forall log,
    check_requested ids_known skip ids log
    = if skip
      then (log ++ map WarnSkipMissingObsId
                     (List.filter (fun i => negb (Z_mem i ids_known)) ids),
            inr tt)
      else if forallb (fun i => Z_mem i ids_known) ids
           then (log, inr tt)
           else (log, inl ValueError).
Proof.
  induction ids as [| i rest IH]; intros log;
    cbn [check_requested List.filter forallb map].
  - destruct skip; [rewrite app_nil_r |]; reflexivity.
  - destruct (Z_mem i ids_known); cbn [negb andb].
    + apply IH.
    + destruct skip; [| reflexivity].
      rewrite IH. cbn [map]. rewrite <- app_assoc. reflexivity.
Qed.

Lemma remove_dups_length {A : Type} `{EqDecision A} (l : list A) :
  (length (remove_dups l) <= length l)%nat.
Proof.
  induction l as [| x l IH]; cbn [remove_dups length]; [lia |].
  destruct (decide_rel elem_of x l); cbn [length]; lia.
Qed.

Lemma remove_dups_length_NoDup {A : Type} `{EqDecision A} (l : list A) :
  length (remove_dups l) = length l <-> NoDup l.
Proof.
  induction l as [| x l IH]; cbn [remove_dups length].
  - split; [intros _; apply NoDup_nil_2 | reflexivity].
  - rewrite NoDup_cons. pose proof (remove_dups_length l) as Hle.
    destruct (decide_rel elem_of x l) as [Hx | Hx]; cbn [length].
    + split; [lia | intros [H _]; contradiction].
    + rewrite <- IH. split; [intros [= H]; split; assumption | intros [_ ->]; reflexivity].
Qed.

Lemma np_unique_length_NoDup (ids : list Z) :
  (length (np_unique ids) =? length ids)%nat = true <-> NoDup ids.
Proof.
  unfold np_unique. rewrite Nat.eqb_eq.
  rewrite (Permutation_length (merge_sort_Permutation Z.le (remove_dups ids))).
  apply remove_dups_length_NoDup.
Qed.

Lemma not_unique_warning_spec (ids : list Z) (log : list log_record) :
  (if negb (length (np_unique ids) =? length ids)%nat
   then log ++ [WarnNotUnique (multiples_of ids)]
   else log)
  = log ++ not_unique_warning ids.
Proof.
  unfold not_unique_warning. destruct (decide (NoDup ids)) as [Hnd | Hnd].
  - rewrite (proj2 (np_unique_length_NoDup ids) Hnd). cbn [negb].
    rewrite app_nil_r. reflexivity.
  - destruct (length (np_unique ids) =? length ids)%nat eqn:E; [| reflexivity].
    exfalso. apply Hnd, np_unique_length_NoDup, E.
Qed.

Lemma filter_all_false_known (t : HDUIndexTable) (ids : list Z) :
  forallb (known t) ids = true ->
  List.filter (fun i => negb (known t i)) ids = [].
Proof.
  induction ids as [| i rest IH]; [reflexivity |]. cbn [forallb List.filter].
  destruct (known t i); cbn [andb negb]; [exact IH | discriminate].
Qed.

(** X18.  A call [get_observations(obs_id=ids, ...)] that returns has
    resolved the requested ids in the order of the request: the result holds
    one observation for every requested id that is in the index table and
    whose required HDUs are there, repeated as often as the id was requested.
    A repeated id is reported by one warning and is not removed.  The log is
    the warnings for the ids that are not in the table, then that warning,
    then one warning for every id skipped for missing HDUs, then the count. *)
Theorem get_observations_request_order (t : HDUIndexTable) (ids : list Z)
    (skip : bool) (arg : required_irf_arg) (re : bool)
    (log : list log_record) (obs_list : list Observation) :
  get_observations t (Some ids) skip arg re = (log, inr obs_list) ->
  map obs_id_of obs_list
    = List.filter (resolves t arg re) (List.filter (known t) ids) /\
  log = missing_warnings t ids ++ not_unique_warning ids
        ++ skip_warnings t arg re (List.filter (known t) ids)
        ++ [InfoSelected (length obs_list) (length ids)] /\
  (skip = false -> missing_warnings t ids = []).
Proof.
  assert (Hshape : forall log0,
    match resolve_loop t arg re (List.filter (known t) ids)
            (log0 ++ not_unique_warning ids) [] with
    | (log1, inl e) => (log1, inl e)
    | (log1, inr l) => (log1 ++ [InfoSelected (length l) (length ids)], inr l)
    end = (log, inr obs_list) ->
    map obs_id_of obs_list
      = List.filter (resolves t arg re) (List.filter (known t) ids) /\
    log = log0 ++ not_unique_warning ids
          ++ skip_warnings t arg re (List.filter (known t) ids)
          ++ [InfoSelected (length obs_list) (length ids)]).
  { intros log0.
    destruct (resolve_loop t arg re (List.filter (known t) ids)
                (log0 ++ not_unique_warning ids) []) as [log1 [e | l]] eqn:Hloop;
      [discriminate |].
    intros [= <- <-]. apply resolve_loop_inr in Hloop as [-> ->]. cbn [app].
    split; [apply resolved_ids |]. rewrite <- !app_assoc. reflexivity. }
  unfold get_observations. rewrite check_requested_spec. destruct skip.
  - cbv beta iota zeta. rewrite filter_bool, not_unique_warning_spec.
    cbn [app]. intros H. apply Hshape in H as [H1 H2].
    split; [exact H1 |]. split; [exact H2 | discriminate].
  - destruct (forallb (fun i => Z_mem i (obs_ids t)) ids) eqn:Hall;
      cbv beta iota zeta; [| discriminate].
    rewrite filter_bool, not_unique_warning_spec.
    assert (Hnone : missing_warnings t ids = []).
    { unfold missing_warnings. rewrite filter_all_false_known; [reflexivity |].
      exact Hall. }
    intros H. apply (Hshape []) in H as [H1 H2].
    split; [exact H1 |]. split; [rewrite Hnone; exact H2 | intros _; exact Hnone].
Qed.

Lemma get_observations_request_order_witness :
  exists log obs_list,
    get_observations table_1_3_5 (Some [3; 1; 3; 5; 2]%Z) true
      (IrfPreset "point-like") true = (log, inr obs_list) /\
    map obs_id_of obs_list = [3; 1; 3]%Z /\
    length log = 4%nat.
Proof.
  destruct (get_observations table_1_3_5 (Some [3; 1; 3; 5; 2]%Z) true
              (IrfPreset "point-like") true) as [log [e | obs_list]] eqn:H;
    [vm_compute in H; discriminate |].
  exists log, obs_list. split; [reflexivity |].
  destruct (get_observations_request_order _ _ _ _ _ _ _ H) as (H1 & H2 & _).
  split; [rewrite H1; vm_compute; reflexivity |].
  rewrite H2, !length_app. vm_compute. reflexivity.
Defined.

(** *** [get_observations] without a list of ids *)

Lemma np_unique_NoDup (l : list Z) : NoDup (np_unique l).
Proof.
  unfold np_unique. rewrite merge_sort_Permutation. apply NoDup_remove_dups.
Qed.

Lemma np_unique_sorted (l : list Z) : StronglySorted Z.le (np_unique l).
Proof.
  unfold np_unique. apply StronglySorted_merge_sort.
  - intros x y z. apply Z.le_trans.
  - apply Z.le_total.
Qed.

Lemma sorted_distinct_strict (l : list Z) :
  StronglySorted Z.le l -> NoDup l -> StronglySorted Z.lt l.
Proof.
  induction l as [| x l IH]; intros Hs Hnd; [constructor |].
  apply StronglySorted_inv in Hs as [Hs Hall].
  apply NoDup_cons in Hnd as [Hx Hnd].
  constructor; [apply IH; assumption |].
  rewrite List.Forall_forall in *. intros y Hy.
  specialize (Hall y Hy).
  assert (x <> y) by (intros ->; apply Hx, list_elem_of_In, Hy). lia.
Qed.

Lemma filter_strongly_sorted {A : Type} (R : A -> A -> Prop) (f : A -> bool)
    (l : list A) :
  StronglySorted R l -> StronglySorted R (List.filter f l).
Proof.
  induction l as [| x l IH]; intros Hs; [constructor |].
  apply StronglySorted_inv in Hs as [Hs Hall]. cbn [List.filter].
  destruct (f x); [| apply IH, Hs].
  constructor; [apply IH, Hs |].
  rewrite List.Forall_forall in *. intros y Hy.
  apply filter_In in Hy as [Hy _]. apply Hall, Hy.
Qed.

(** X19.  A call [get_observations()] without a list of ids that returns
    has resolved the ids of the index table in strictly ascending order,
    each one once however many rows it has: the result holds exactly the ids
    of the table whose required HDUs are there.  Its log has one warning for
    every id skipped and the count, and no warning about the request. *)
Theorem get_observations_all_ascending (t : HDUIndexTable) (skip : bool)
    (arg : required_irf_arg) (re : bool)
    (log : list log_record) (obs_list : list Observation) :
  get_observations t None skip arg re = (log, inr obs_list) ->
  map obs_id_of obs_list = List.filter (resolves t arg re) (obs_ids t) /\
  StronglySorted Z.lt (map obs_id_of obs_list) /\
  (forall i, i ∈ map obs_id_of obs_list <->
             i ∈ OBS_ID_column t /\ resolves t arg re i = true) /\
  log = skip_warnings t arg re (obs_ids t)
        ++ [InfoSelected (length obs_list) (length (obs_ids t))].
Proof.
  unfold get_observations. cbv beta iota zeta.
  rewrite (not_unique_warning_spec (obs_ids t) []).
  unfold not_unique_warning.
  rewrite decide_True by (apply np_unique_NoDup). cbn [app].
  destruct (resolve_loop t arg re (obs_ids t) [] []) as [log1 [e | l]] eqn:Hloop;
    [discriminate |].
  intros [= <- <-]. apply resolve_loop_inr in Hloop as [-> ->]. cbn [app].
  assert (Hids : map obs_id_of (resolved t arg re (obs_ids t))
                 = List.filter (resolves t arg re) (obs_ids t))
    by apply resolved_ids.
  split; [exact Hids |]. rewrite Hids. split; [| split; [| reflexivity]].
  - apply filter_strongly_sorted, sorted_distinct_strict;
      [apply np_unique_sorted | apply np_unique_NoDup].
  - intros i. rewrite list_elem_of_In, filter_In, <- list_elem_of_In.
    unfold obs_ids. rewrite elem_of_np_unique. reflexivity.
Qed.

Lemma get_observations_all_ascending_witness :
  exists log obs_list,
    get_observations table_1_3_5 None false (IrfPreset "point-like") true
      = (log, inr obs_list) /\
    map obs_id_of obs_list = [1; 3]%Z.
Proof.
  destruct (get_observations table_1_3_5 None false (IrfPreset "point-like") true)
    as [log [e | obs_list]] eqn:H; [vm_compute in H; discriminate |].
  exists log, obs_list. split; [reflexivity |].
  destruct (get_observations_all_ascending _ _ _ _ _ _ H) as (H1 & _).
  rewrite H1. vm_compute. reflexivity.
Defined.

(** *** [get_observations] with [skip_missing=False] *)

Lemma forallb_known_false (t : HDUIndexTable) (ids : list Z) (i : Z) :
  i ∈ ids -> i ∉ OBS_ID_column t ->
  forallb (fun j => Z_mem j (obs_ids t)) ids = false.
Proof.
  intros Hin Hnot.
  destruct (forallb (fun j => Z_mem j (obs_ids t)) ids) eqn:E; [| reflexivity].
  exfalso. apply Hnot. rewrite forallb_forall in E.
  apply list_elem_of_In, E in Hin. rewrite Z_mem_obs_ids in Hin.
  apply Z_mem_elem_of, Hin.
Qed.

Lemma forallb_known_true (t : HDUIndexTable) (ids : list Z) :
  (forall i, i ∈ ids -> i ∈ OBS_ID_column t) ->
  forallb (fun j => Z_mem j (obs_ids t)) ids = true.
Proof.
  intros H. apply forallb_forall. intros i Hi.
  rewrite Z_mem_obs_ids. apply Z_mem_elem_of, H, list_elem_of_In, Hi.
Qed.

(** X20.  With [skip_missing=False], a requested id that is not in the
    index table makes [get_observations] raise [ValueError] before it
    resolves anything and before it looks at [required_irf]; nothing is
    logged.  When every requested id is in the table, [skip_missing] makes no
    difference to the result or to the log. *)
Theorem get_observations_strict (t : HDUIndexTable) (ids : list Z)
    (arg : required_irf_arg) (re : bool) :
  (forall i, i ∈ ids -> i ∉ OBS_ID_column t ->
     get_observations t (Some ids) false arg re = ([], inl ValueError)) /\
  ((forall i, i ∈ ids -> i ∈ OBS_ID_column t) ->
     get_observations t (Some ids) false arg re
     = get_observations t (Some ids) true arg re).
Proof.
  split.
  - intros i Hin Hnot. unfold get_observations. rewrite check_requested_spec.
    rewrite (forallb_known_false t ids i Hin Hnot). reflexivity.
  - intros Hall. unfold get_observations. rewrite !check_requested_spec.
    pose proof (forallb_known_true t ids Hall) as Hb. rewrite Hb.
    change (fun j => Z_mem j (obs_ids t)) with (known t) in Hb.
    change (fun i => negb (Z_mem i (obs_ids t)))
      with (fun i => negb (known t i)).
    rewrite (filter_all_false_known t ids Hb). reflexivity.
Qed.

Lemma get_observations_strict_witness :
  get_observations table_1_3_5 (Some [1; 2; 3]%Z) false (IrfPreset "nope") true
  = ([], inl ValueError).
Proof.
  destruct (get_observations_strict table_1_3_5 [1; 2; 3]%Z (IrfPreset "nope") true)
    as [H _].
  apply (H 2%Z).
  - apply list_elem_of_further, list_elem_of_here.
  - apply Z_mem_false. reflexivity.
Defined.

End DataStoreMoreFacts.

(** ** Further properties of [DataStoreMaker] *)

Module DataStoreMakerMoreFacts.
Import DataStoreModel DataStoreMakerModel DataStoreMakerMore DataSamples
  MakerMoreSamples DataStoreMakerFacts.

(** *** Which entries a step of [read_events_info] leaves alone *)

Lemma set_time_keywords_other (header : gmap string value) (names : list string) :
  forall info k, k ∉ names ->
                 dict_get (set_time_keywords header names info) k = dict_get info k.
Proof.
  induction names as [| name rest IH]; intros info k Hk; cbn; [reflexivity |].
  apply not_elem_of_cons in Hk as [Hne Hk].
  rewrite IH by exact Hk. apply dict_get_set_ne. exact Hne.
Qed.

Lemma set_dates_other (header : gmap string value) (info : dict) (k : string) :
  k <> "DATE-OBS"%string -> k <> "TIME-OBS"%string ->
  k <> "DATE-END"%string -> k <> "TIME-END"%string ->
  dict_get (set_dates header info) k = dict_get info k.
Proof.
  intros H1 H2 H3 H4. unfold set_dates.
  destruct (has_all_keys header _); rewrite !dict_get_set_ne by assumption;
    reflexivity.
Qed.

Section MakerMoreFacts.

Variable fits_events_header : string -> result (gmap string value).
Variable galactic : Q -> Q -> Q * Q.
Variable int_of_str : string -> option Z.
Variable str_of_number : value -> string.
Variable first_file_name : string -> result string.
Variable TIME_KEYWORDS : list string.
Variable path_parent : string -> string.
Variable path_name : string -> string.

Local Abbreviation read :=
  (read_events_info fits_events_header galactic int_of_str str_of_number
     first_file_name TIME_KEYWORDS).
Local Abbreviation get_info :=
  (get_events_info fits_events_header galactic int_of_str str_of_number
     first_file_name TIME_KEYWORDS).
Local Abbreviation file_path := (caldb_file_path str_of_number first_file_name).
Local Abbreviation irf_filename := (set_irf_filename str_of_number first_file_name).

Lemma set_galactic_other (info info' : dict) (k : string) :
  set_galactic galactic info = inr info' ->
  k <> "GLON_PNT"%string -> k <> "GLAT_PNT"%string ->
  dict_get info' k = dict_get info k.
Proof.
  unfold set_galactic. intros H H1 H2. bind_ok H. injection H as <-.
  rewrite !dict_get_set_ne by assumption. reflexivity.
Qed.

Lemma set_pointing_other (header : gmap string value) (info info' : dict)
    (k : string) :
  set_pointing header info = inr info' ->
  k <> "ALT_PNT"%string -> k <> "AZ_PNT"%string -> k <> "ZEN_PNT"%string ->
  k <> "RA_PNT"%string -> k <> "DEC_PNT"%string ->
  dict_get info' k = dict_get info k.
Proof.
  unfold set_pointing. intros H H1 H2 H3 H4 H5.
  destruct (value_eqb _ _); bind_ok H.
  - injection H as <-. rewrite dict_get_set_ne by assumption.
    repeat match goal with
    | E : set_quantity _ ?key _ _ = inr ?b |- context [dict_get ?b k] =>
        rewrite (set_quantity_other _ _ _ k _ _ E) by assumption
    end.
    reflexivity.
  - rewrite (set_quantity_other _ _ _ k _ _ H) by assumption.
    repeat match goal with
    | E : set_quantity _ ?key _ _ = inr ?b |- context [dict_get ?b k] =>
        rewrite (set_quantity_other _ _ _ k _ _ E) by assumption
    end.
    reflexivity.
Qed.

Lemma set_quantity_present (header : gmap string value) (key unit : string)
    (info info' : dict) :
  set_quantity header key unit info = inr info' -> is_Some (header !! key).
Proof.
  unfold set_quantity, header_getitem. intros H.
  destruct (header !! key); [eauto | discriminate].
Qed.

Lemma header_getitem_present (header : gmap string value) (key : string)
    (v : value) :
  header_getitem header key = inr v -> header !! key = Some v.
Proof.
  unfold header_getitem. destruct (header !! key); [congruence | discriminate].
Qed.

(** What [set_irf_filename] writes, and that it writes nothing else. *)
Lemma set_irf_filename_spec (irf_path : option string) (info info' : dict) :
  irf_filename irf_path info = inr info' ->
  (forall k, k <> "IRF_FILENAME"%string -> dict_get info' k = dict_get info k) /\
  match irf_path with
  | Some path => dict_get info' "IRF_FILENAME" = Some (VStr path)
  | None =>
      exists caldb irf,
        dict_get info "CALDB" = Some caldb /\ dict_get info "IRF" = Some irf /\
        if negb (value_eqb caldb na_str) && negb (value_eqb irf na_str)
        then exists path, file_path info = inr path /\
                          dict_get info' "IRF_FILENAME" = Some (VStr path)
        else dict_get info' "IRF_FILENAME" = dict_get info "EVENTS_FILENAME"
  end.
Proof.
  unfold set_irf_filename. destruct irf_path as [path |].
  - intros [= <-]. split; [| apply dict_get_set_eq].
    intros k Hk. apply dict_get_set_ne. exact Hk.
  - unfold getitem at 1 2.
    destruct (dict_get info "CALDB") as [caldb |]; [| discriminate].
    destruct (dict_get info "IRF") as [irf |]; [| discriminate].
    cbn [bind].
    destruct (negb (value_eqb caldb na_str) && negb (value_eqb irf na_str))
      eqn:Hc.
    + destruct (file_path info) as [e | path]; [discriminate |].
      cbn [bind]. intros [= <-]. split.
      * intros k Hk. apply dict_get_set_ne. exact Hk.
      * exists caldb, irf. split; [reflexivity |]. split; [reflexivity |].
        rewrite Hc. exists path. split; [reflexivity | apply dict_get_set_eq].
    + unfold getitem.
      destruct (dict_get info "EVENTS_FILENAME") as [name |]; [| discriminate].
      cbn [bind]. intros [= <-]. split.
      * intros k Hk. apply dict_get_set_ne. exact Hk.
      * exists caldb, irf. split; [reflexivity |]. split; [reflexivity |].
        rewrite Hc. apply dict_get_set_eq.
Qed.

(** The shape of every successful read: the header that was read, the
    entries that the later steps rely on, and the header keys that had to be
    there. *)
Lemma read_events_info_inr (path : string) (irf_path : option string)
    (info : dict) :
  read path irf_path = inr info ->
  exists header v z info0 info1,
    fits_events_header path = inr header /\
    header !! "OBS_ID" = Some v /\ py_int int_of_str v = inr z /\
    irf_filename irf_path info0 = inr info1 /\
    info = set_time_keywords header TIME_KEYWORDS info1 /\
    dict_get info0 "OBS_ID" = Some (VInt z) /\
    dict_get info0 "TELESCOP" = Some (header_get header "TELESCOP" na_str) /\
    dict_get info0 "EVENTS_FILENAME" = Some (VStr path) /\
    dict_get info0 "CALDB" = Some (header_get header "CALDB" na_str) /\
    dict_get info0 "IRF" = Some (header_get header "IRF" na_str) /\
    Forall (fun k => is_Some (header !! k))
      ["OBS_ID"; "TSTART"; "TSTOP"; "ONTIME"; "LIVETIME"; "DEADC"; "NAXIS2"]%string /\
    (exists info_a info_b, set_pointing header info_a = inr info_b).
Proof.
  intros Hread. unfold read_events_info in Hread. bind_ok Hread.
  injection Hread as <-.
  repeat match goal with
  | E : header_getitem _ _ = inr _ |- _ => apply header_getitem_present in E
  end.
  match goal with
  | E : fits_events_header path = inr ?h |- _ => exists h
  end.
  match goal with
  | E : _ !! "OBS_ID" = Some ?v, E' : py_int _ ?v = inr ?z |- _ => exists v, z
  end.
  match goal with
  | E : set_irf_filename _ _ _ ?i0 = inr ?i1 |- _ => exists i0, i1
  end.
  assert (Hkeep : forall k,
            k <> "GLON_PNT"%string -> k <> "GLAT_PNT"%string ->
            k <> "ALT_PNT"%string -> k <> "AZ_PNT"%string ->
            k <> "ZEN_PNT"%string -> k <> "RA_PNT"%string ->
            k <> "DEC_PNT"%string ->
            forall a b c, set_pointing a b = inr c ->
            forall d, set_galactic galactic c = inr d ->
            dict_get d k = dict_get b k).
  { intros k ? ? ? ? ? ? ? xa xb xc Hp xd Hg.
    rewrite (set_galactic_other _ _ k Hg) by assumption.
    apply (set_pointing_other _ _ _ k Hp); assumption. }
  repeat split; try eassumption.
  - rewrite !dict_get_set_ne by discriminate.
    rewrite set_dates_other by discriminate.
    match goal with
    | Hp : set_pointing _ _ = inr ?c, Hg : set_galactic _ ?c = inr _ |- _ =>
        rewrite (Hkeep "OBS_ID"%string ltac:(discriminate) ltac:(discriminate)
                   ltac:(discriminate) ltac:(discriminate) ltac:(discriminate)
                   ltac:(discriminate) ltac:(discriminate) _ _ _ Hp _ Hg)
    end.
    rewrite !dict_get_set_ne by discriminate.
    repeat match goal with
    | E : set_quantity _ _ _ _ = inr ?b |- context [dict_get ?b "OBS_ID"] =>
        rewrite (set_quantity_other _ _ _ "OBS_ID" _ _ E) by discriminate
    end.
    reflexivity.
  - rewrite !dict_get_set_ne by discriminate.
    rewrite set_dates_other by discriminate.
    match goal with
    | Hp : set_pointing _ _ = inr ?c, Hg : set_galactic _ ?c = inr _ |- _ =>
        rewrite (Hkeep "TELESCOP"%string ltac:(discriminate) ltac:(discriminate)
                   ltac:(discriminate) ltac:(discriminate) ltac:(discriminate)
                   ltac:(discriminate) ltac:(discriminate) _ _ _ Hp _ Hg)
    end.
    apply dict_get_set_eq.
  - rewrite !dict_get_set_ne by discriminate. apply dict_get_set_eq.
  - rewrite !dict_get_set_ne by discriminate. apply dict_get_set_eq.
  - apply dict_get_set_eq.
  - repeat constructor; eauto;
      match goal with
      | E : set_quantity _ ?key _ _ = inr _ |- is_Some (_ !! ?key) =>
          apply (set_quantity_present _ _ _ _ _ E)
      end.
  - eauto.
Qed.


Local Abbreviation from_file :=
  (info_of_file fits_events_header galactic int_of_str str_of_number
     first_file_name TIME_KEYWORDS).
Local Abbreviation ok_cache :=
  (cache_ok fits_events_header galactic int_of_str str_of_number
     first_file_name TIME_KEYWORDS).
Local Abbreviation readable :=
  (all_readable fits_events_header galactic int_of_str str_of_number
     first_file_name TIME_KEYWORDS).

(** *** The cache of [get_events_info] *)

Lemma get_events_info_inr (m m1 : DataStoreMaker) (events_path : string)
    (irf_path : option string) (info : dict) :
  get_info m events_path irf_path = (m1, inr info) ->
  _events_info m1 !! events_path = Some info /\
  (forall p i, _events_info m !! p = Some i -> _events_info m1 !! p = Some i) /\
  events_paths m1 = events_paths m /\ irfs_paths m1 = irfs_paths m.
Proof.
  unfold get_events_info.
  destruct (_events_info m !! events_path) as [cached |] eqn:Hlook.
  - intros [= <- <-]. repeat split; auto.
  - destruct (read events_path irf_path) as [e | info'] eqn:Hread;
      intros [= <- <-].
    cbn [_events_info events_paths irfs_paths].
    split; [apply lookup_insert_eq |]. split; [| split; reflexivity].
    intros p i Hp. rewrite lookup_insert_ne; [exact Hp |].
    intros <-. congruence.
Qed.

(** X21.  [get_events_info] reads an events file at most once.  After a
    call that returned, every later call for the same events path returns the
    same information without reading the file, whatever [irf_path] it is
    given: the [IRF_FILENAME] of the first call stays.  A call that raised
    leaves the cache as it was, and no call changes or drops the entry of
    another file. *)
Theorem get_events_info_caches (m m1 : DataStoreMaker) (events_path : string)
    (irf_path : option string) (r : result dict) :
  get_info m events_path irf_path = (m1, r) ->
  (forall info, r = inr info ->
     forall irf_path', get_info m1 events_path irf_path' = (m1, inr info)) /\
  (forall e, r = inl e -> m1 = m) /\
  (forall p i, _events_info m !! p = Some i -> _events_info m1 !! p = Some i) /\
  (forall p, p <> events_path -> _events_info m1 !! p = _events_info m !! p) /\
  events_paths m1 = events_paths m /\ irfs_paths m1 = irfs_paths m.
Proof.
  unfold get_events_info.
  destruct (_events_info m !! events_path) as [cached |] eqn:Hlook.
  - intros [= <- <-]. repeat split; try discriminate; try (intros; assumption).
    intros info [= <-] irf'. rewrite Hlook. reflexivity.
  - destruct (read events_path irf_path) as [e | info] eqn:Hread;
      intros [= <- <-].
    + repeat split; try discriminate; intros; assumption.
    + cbn [_events_info events_paths irfs_paths].
      split; [| split; [discriminate | split; [| split; [| split; reflexivity]]]].
      * intros info' [= <-] irf'. rewrite lookup_insert_eq. reflexivity.
      * intros p i Hp. rewrite lookup_insert_ne; [exact Hp |].
        intros <-. congruence.
      * intros p Hp. apply lookup_insert_ne. congruence.
Qed.

(** *** [IRF_FILENAME] *)

Lemma value_eqb_str (v : value) (s : string) :
  value_eqb v (VStr s) = true -> v = VStr s.
Proof.
  destruct v; cbn; try discriminate. intros H. apply String.eqb_eq in H.
  congruence.
Qed.

(** X22.  Where [read_events_info] takes [IRF_FILENAME] from, when the time
    keywords do not name that entry: an [irf_path] that is given wins; without
    one, a header that has both [CALDB] and [IRF] (neither "NOT AVAILABLE")
    gives the first file of
    [$CALDB/data/<telescop in lower case>/<caldb>/bcf/<irf>]; otherwise it is
    the events file itself.  [EVENTS_FILENAME] is always the events path. *)
Theorem read_events_info_irf_filename (events_path : string)
    (irf_path : option string) (info : dict) :
  read events_path irf_path = inr info ->
  time_keywords_apart TIME_KEYWORDS ->
  exists header,
    fits_events_header events_path = inr header /\
    dict_get info "EVENTS_FILENAME" = Some (VStr events_path) /\
    match irf_path with
    | Some path => dict_get info "IRF_FILENAME" = Some (VStr path)
    | None =>
        let caldb := header_get header "CALDB" na_str in
        let irf := header_get header "IRF" na_str in
        if negb (value_eqb caldb na_str) && negb (value_eqb irf na_str)
        then
          exists telescop file_name,
            header_get header "TELESCOP" na_str = VStr telescop /\
            let file_dir :=
              ("$CALDB/data/" ++ lower telescop ++ "/" ++ py_str str_of_number caldb
                 ++ "/bcf/" ++ py_str str_of_number irf)%string in
            first_file_name file_dir = inr file_name /\
            dict_get info "IRF_FILENAME"
            = Some (VStr (file_dir ++ "/" ++ file_name)%string)
        else dict_get info "IRF_FILENAME" = Some (VStr events_path)
    end.
Proof.
  intros Hread (_ & Hirf & Hev).
  destruct (read_events_info_inr _ _ _ Hread)
    as (header & v & z & info0 & info1 & Hfits & _ & _ & Hset & -> & _ & Htel
        & Hname & Hcaldb & Hirfkey & _).
  destruct (set_irf_filename_spec _ _ _ Hset) as [Hother Hwritten].
  exists header. split; [exact Hfits |]. split.
  - rewrite set_time_keywords_other by exact Hev.
    rewrite Hother by discriminate. exact Hname.
  - rewrite set_time_keywords_other by exact Hirf.
    destruct irf_path as [path |]; [exact Hwritten |].
    destruct Hwritten as (caldb & irf & Hc & Hi & Hbranch).
    rewrite Hcaldb in Hc. rewrite Hirfkey in Hi.
    injection Hc as <-. injection Hi as <-. cbv zeta.
    destruct (negb (value_eqb (header_get header "CALDB" na_str) na_str)
              && negb (value_eqb (header_get header "IRF" na_str) na_str)).
    + destruct Hbranch as (path & Hpath & Hget). rewrite Hget.
      unfold caldb_file_path, getitem in Hpath.
      rewrite Htel, Hcaldb, Hirfkey in Hpath. cbn [bind] in Hpath.
      destruct (header_get header "TELESCOP" na_str) as [| | telescop | |];
        try discriminate.
      destruct (first_file_name _) as [e | file_name] eqn:Hfile;
        [discriminate |].
      cbn [bind] in Hpath. injection Hpath as <-.
      exists telescop, file_name. split; [reflexivity |].
      split; [exact Hfile | reflexivity].
    + rewrite Hbranch. exact Hname.
Qed.

(** *** The header keys that must be there *)

(** X23.  What [read_events_info] needs.  The error of a file that cannot
    be opened is passed on, and a header without [OBS_ID] raises
    [KeyError("OBS_ID")].  Whenever it returns, the header had [OBS_ID],
    [TSTART], [TSTOP], [ONTIME], [LIVETIME], [DEADC], [RA_PNT], [DEC_PNT] and
    [NAXIS2], and the [OBS_ID] of the result is the [int] of the header's. *)
Theorem read_events_info_mandatory_keys (events_path : string)
    (irf_path : option string) :
  (forall e, fits_events_header events_path = inl e ->
             read events_path irf_path = inl e) /\
  (forall header, fits_events_header events_path = inr header ->
                  header !! "OBS_ID" = None ->
                  read events_path irf_path = inl (KeyError "OBS_ID")) /\
  (forall info, read events_path irf_path = inr info ->
     exists header,
       fits_events_header events_path = inr header /\
       Forall (fun k => is_Some (header !! k))
         ["OBS_ID"; "TSTART"; "TSTOP"; "ONTIME"; "LIVETIME"; "DEADC";
          "RA_PNT"; "DEC_PNT"; "NAXIS2"]%string /\
       ("OBS_ID"%string ∉ TIME_KEYWORDS ->
        exists v z, header !! "OBS_ID" = Some v /\
                    py_int int_of_str v = inr z /\
                    dict_get info "OBS_ID" = Some (VInt z))).
Proof.
  split; [| split].
  - intros e He. unfold read_events_info. rewrite He. reflexivity.
  - intros header Hh Hid. unfold read_events_info, header_getitem.
    rewrite Hh. cbn [bind]. rewrite Hid. reflexivity.
  - intros info Hread.
    destruct (read_events_info_inr _ _ _ Hread)
      as (header & v & z & info0 & info1 & Hfits & Hv & Hz & Hset & -> & Hid & _
          & _ & _ & _ & Hkeys & (ia & ib & Hpoint)).
    exists header. split; [exact Hfits |]. split.
    + assert (Hmode : value_eqb (header_get header "OBS_MODE" (VStr "POINTING"))
                        (VStr "DRIFT") = false).
      { destruct (value_eqb _ _) eqn:E; [| reflexivity]. exfalso.
        apply value_eqb_str in E. unfold header_get in E.
        destruct (header !! "OBS_MODE") as [mode |] eqn:Hm; [| discriminate].
        subst mode.
        destruct (read_events_info_drift fits_events_header galactic int_of_str
                    str_of_number first_file_name TIME_KEYWORDS events_path
                    irf_path header Hfits Hm) as [e He].
        congruence. }
      unfold set_pointing in Hpoint. rewrite Hmode in Hpoint. bind_ok Hpoint.
      match goal with
      | E : set_quantity _ "RA_PNT" _ _ = inr _ |- _ =>
          pose proof (set_quantity_present _ _ _ _ _ E) as Hra
      end.
      pose proof (set_quantity_present _ _ _ _ _ Hpoint) as Hdec.
      rewrite !Forall_cons in Hkeys.
      destruct Hkeys as (K1 & K2 & K3 & K4 & K5 & K6 & K7 & _).
      repeat (apply Forall_cons; split; [assumption |]). apply Forall_nil_2.
    + intros Hapart. exists v, z. split; [exact Hv |]. split; [exact Hz |].
      rewrite set_time_keywords_other by exact Hapart.
      destruct (set_irf_filename_spec _ _ _ Hset) as [Hother _].
      rewrite Hother by discriminate. exact Hid.
Qed.

(** *** [make_hdu_table] *)

Local Abbreviation hdu_rows :=
  (get_hdu_table_rows fits_events_header galactic int_of_str str_of_number
     first_file_name TIME_KEYWORDS path_parent path_name).
Local Abbreviation hdu_loop :=
  (hdu_table_loop fits_events_header galactic int_of_str str_of_number
     first_file_name TIME_KEYWORDS path_parent path_name).
Local Abbreviation make_hdu :=
  (make_hdu_table fits_events_header galactic int_of_str str_of_number
     first_file_name TIME_KEYWORDS path_parent path_name).
Local Abbreviation run_maker :=
  (run fits_events_header galactic int_of_str str_of_number
     first_file_name TIME_KEYWORDS path_parent path_name).
Local Abbreviation obs_loop :=
  (obs_table_loop fits_events_header galactic int_of_str str_of_number
     first_file_name TIME_KEYWORDS).
Local Abbreviation make_obs :=
  (make_obs_table fits_events_header galactic int_of_str str_of_number
     first_file_name TIME_KEYWORDS).
Local Abbreviation info_file := (file_info path_parent path_name).
Local Abbreviation six_rows entry :=
  (let '(path, obs_id, irf) := entry in
   [hdu_row "events" "events" "EVENTS" (info_file obs_id path);
    hdu_row "gti" "gti" "GTI" (info_file obs_id path);
    hdu_row "aeff" "aeff_2d" "EFFECTIVE AREA" (info_file obs_id irf);
    hdu_row "edisp" "edisp_2d" "ENERGY DISPERSION" (info_file obs_id irf);
    hdu_row "psf" "psf_3gauss" "POINT SPREAD FUNCTION" (info_file obs_id irf);
    hdu_row "bkg" "bkg_3d" "BACKGROUND" (info_file obs_id irf)]).

(** An entry [(path, obs_id, irf)] describes what the cache of [m] holds for
    the events file of [pair]. *)
Local Abbreviation cached_entry m :=
  (fun (pair : string * option string) (entry : string * value * string) =>
     let '(path, obs_id, irf) := entry in
     path = fst pair /\
     exists info, _events_info m !! path = Some info /\
                  dict_get info "OBS_ID" = Some obs_id /\
                  dict_get info "IRF_FILENAME" = Some (VStr irf)).

Lemma get_hdu_table_rows_inr (m m1 : DataStoreMaker) (events_path : string)
    (irf_path : option string) (rows : list dict) :
  hdu_rows m events_path irf_path = (m1, inr rows) ->
  exists info obs_id irf,
    get_info m events_path irf_path = (m1, inr info) /\
    dict_get info "OBS_ID" = Some obs_id /\
    dict_get info "IRF_FILENAME" = Some (VStr irf) /\
    rows = six_rows (events_path, obs_id, irf).
Proof.
  unfold get_hdu_table_rows, get_obs_info.
  destruct (get_info m events_path irf_path) as [m' [e | info]];
    [discriminate |].
  unfold getitem.
  destruct (dict_get info "OBS_ID") as [obs_id |] eqn:Hid; [| discriminate].
  destruct (dict_get info "IRF_FILENAME") as [[| | irf | |] |] eqn:Hirf;
    try discriminate.
  cbn [bind py_Path]. intros [= <- <-].
  exists info, obs_id, irf. repeat split; assumption.
Qed.

Lemma get_hdu_table_rows_ok (m m1 : DataStoreMaker) (events_path : string)
    (irf_path : option string) (info : dict) (obs_id : value) (irf : string) :
  get_info m events_path irf_path = (m1, inr info) ->
  dict_get info "OBS_ID" = Some obs_id ->
  dict_get info "IRF_FILENAME" = Some (VStr irf) ->
  hdu_rows m events_path irf_path = (m1, inr (six_rows (events_path, obs_id, irf))).
Proof.
  intros Hget Hid Hirf. unfold get_hdu_table_rows, get_obs_info, getitem.
  rewrite Hget, Hid, Hirf. reflexivity.
Qed.

Lemma cached_entry_mono (m m' : DataStoreMaker)
    (pairs : list (string * option string))
    (entries : list (string * value * string)) :
  (forall p i, _events_info m !! p = Some i -> _events_info m' !! p = Some i) ->
  Forall2 (cached_entry m) pairs entries ->
  Forall2 (cached_entry m') pairs entries.
Proof.
  intros Hmono H. induction H as [| pair [[path v] s] pairs entries Hhead _ IH];
    constructor; [| exact IH].
  destruct Hhead as (Hp & info & Hc & Hv & Hs).
  split; [exact Hp |]. exists info. split; [apply Hmono, Hc |].
  split; assumption.
Qed.

(** A loop that returns has added six rows for every pair, from what the
    cache holds for its events file at the end. *)
Lemma hdu_table_loop_inr (pairs : list (string * option string)) :
  forall m rows0 m' rows,
    hdu_loop m pairs rows0 = (m', inr rows) ->
    exists entries,
      rows = rows0 ++ flat_map (fun entry => six_rows entry) entries /\
      Forall2 (cached_entry m') pairs entries /\
      (forall p i, _events_info m !! p = Some i -> _events_info m' !! p = Some i) /\
      events_paths m' = events_paths m /\ irfs_paths m' = irfs_paths m.
Proof.
  induction pairs as [| [events_path irf_path] rest IH]; intros m rows0 m' rows;
    cbn [hdu_table_loop].
  - intros [= <- <-]. exists []. cbn [flat_map]. rewrite app_nil_r.
    split; [reflexivity |]. split; [constructor | auto].
  - destruct (hdu_rows m events_path irf_path) as [m1 [e | new_rows]] eqn:Hrows;
      [discriminate |].
    intros Hloop.
    destruct (get_hdu_table_rows_inr _ _ _ _ _ Hrows)
      as (info & obs_id & irf & Hget & Hid & Hirf & ->).
    destruct (get_events_info_inr _ _ _ _ _ Hget) as (Hhit & Hmono1 & He1 & Hi1).
    destruct (IH _ _ _ _ Hloop) as (entries & -> & Hall & Hmono & He & Hi).
    exists ((events_path, obs_id, irf) :: entries). split; [| split; [| split]].
    + cbn [flat_map]. rewrite <- app_assoc. reflexivity.
    + constructor; [| exact Hall]. split; [reflexivity |].
      exists info. split; [apply Hmono, Hhit | split; assumption].
    + intros p i Hp. apply Hmono, Hmono1, Hp.
    + split; congruence.
Qed.

(** The same for the loop of [make_obs_table]: its rows are what the cache
    holds at the end. *)
Lemma obs_table_loop_inr (pairs : list (string * option string)) :
  forall m rows0 trs0 m' rows trs,
    obs_loop m pairs rows0 trs0 = (m', inr (rows, trs)) ->
    exists infos,
      rows = rows0 ++ infos /\
      Forall2 (fun pair info => _events_info m' !! fst pair = Some info)
        pairs infos /\
      (forall p i, _events_info m !! p = Some i -> _events_info m' !! p = Some i).
Proof.
  induction pairs as [| [events_path irf_path] rest IH];
    intros m rows0 trs0 m' rows trs; cbn [obs_table_loop].
  - intros [= <- <- <-]. exists []. rewrite app_nil_r.
    split; [reflexivity |]. split; [constructor | auto].
  - unfold get_obs_info.
    destruct (get_info m events_path irf_path) as [m1 [e | info]] eqn:Hget;
      [discriminate |].
    destruct (extract_time_info TIME_KEYWORDS info) as [e | tr];
      [discriminate |].
    intros Hloop.
    destruct (get_events_info_inr _ _ _ _ _ Hget) as (Hhit & Hmono1 & _).
    destruct (IH _ _ _ _ _ _ Hloop) as (infos & -> & Hall & Hmono).
    exists (info :: infos). split; [| split].
    + rewrite <- app_assoc. reflexivity.
    + constructor; [apply Hmono, Hhit | exact Hall].
    + intros p i Hp. apply Hmono, Hmono1, Hp.
Qed.

Lemma column_flat_map {A : Type} (f : A -> list dict) (l : list A) (k : string) :
  column (flat_map f l) k = flat_map (fun x => column (f x) k) l.
Proof.
  unfold column. induction l as [| x l IH]; [reflexivity |].
  cbn [flat_map]. rewrite map_app, IH. reflexivity.
Qed.

Lemma flat_map_length_const {A B : Type} (f : A -> list B) (l : list A) (n : nat) :
  (forall x, length (f x) = n) -> length (flat_map f l) = (n * length l)%nat.
Proof.
  intros H. induction l as [| x l IH]; cbn [flat_map length]; [lia |].
  rewrite length_app, H, IH. lia.
Qed.

(** What a file's information must hold for its six rows. *)
Lemma from_file_fields (path : string) (info : dict) :
  time_keywords_apart TIME_KEYWORDS -> from_file path info ->
  exists z irf, dict_get info "OBS_ID" = Some (VInt z) /\
                dict_get info "IRF_FILENAME" = Some (VStr irf).
Proof.
  intros (Hid & Hirf & _) [irf_path Hread].
  destruct (read_events_info_inr _ _ _ Hread)
    as (header & v & z & info0 & info1 & _ & _ & _ & Hset & -> & Hz & _ & Hname
        & _).
  destruct (set_irf_filename_spec _ _ _ Hset) as [Hother Hwritten].
  exists z. rewrite !set_time_keywords_other by assumption.
  rewrite Hother by discriminate.
  destruct irf_path as [p |]; [exists p; split; assumption |].
  destruct Hwritten as (caldb & irf & _ & _ & Hbranch).
  destruct (negb (value_eqb caldb na_str) && negb (value_eqb irf na_str)).
  - destruct Hbranch as (p & _ & Hp). exists p. split; assumption.
  - exists path. rewrite Hbranch. split; assumption.
Qed.

Lemma hdu_table_loop_ok (pairs : list (string * option string)) :
  forall m rows0,
    time_keywords_apart TIME_KEYWORDS -> ok_cache m ->
    Forall (fun pair => exists info, read (fst pair) (snd pair) = inr info) pairs ->
    exists m' entries,
      hdu_loop m pairs rows0
      = (m', inr (rows0 ++ flat_map (fun entry => six_rows entry) entries)) /\
      ok_cache m' /\
      Forall2 (fun (pair : string * option string)
                   (entry : string * value * string) =>
                 let '(path, obs_id, irf) := entry in
                 path = fst pair /\
                 exists info, from_file path info /\
                              dict_get info "OBS_ID" = Some obs_id /\
                              dict_get info "IRF_FILENAME" = Some (VStr irf))
        pairs entries.
Proof.
  induction pairs as [| [events_path irf_path] rest IH];
    intros m rows0 Hapart Hc Hall.
  - exists m, []. cbn [hdu_table_loop flat_map]. rewrite app_nil_r.
    split; [reflexivity |]. split; [exact Hc | constructor].
  - apply Forall_cons in Hall as [Hhead Hrest]. cbn [fst snd] in Hhead.
    destruct (get_obs_info_ok fits_events_header galactic int_of_str
                str_of_number first_file_name TIME_KEYWORDS m events_path
                irf_path Hc Hhead) as (m1 & info & Hget & Hc1 & Hfile & _).
    destruct (from_file_fields _ _ Hapart Hfile) as (z & irf & Hid & Hirf).
    destruct (IH m1 (rows0 ++ six_rows (events_path, VInt z, irf)) Hapart Hc1 Hrest)
      as (m' & entries & Hloop & Hc' & Hentries).
    exists m', ((events_path, VInt z, irf) :: entries).
    cbn [hdu_table_loop].
    rewrite (get_hdu_table_rows_ok _ _ _ _ _ _ _ Hget Hid Hirf), Hloop.
    cbn [flat_map]. rewrite <- app_assoc.
    split; [reflexivity |]. split; [exact Hc' |].
    constructor; [| exact Hentries]. split; [reflexivity |].
    exists info. repeat split; assumption.
Qed.

(** X24.  [make_hdu_table] for a maker whose paired events files can all be
    read (at least one pair; time keywords that do not name [OBS_ID] or a
    file name entry).  It makes six rows for every pair of an events path
    and an IRF path, of the HDU types events, gti, aeff, edisp, psf and bkg
    in this order, all with the [OBS_ID] of the events file; the first two
    point to the events file and the other four to its [IRF_FILENAME].  The
    events files beyond the number of IRF paths get no row.  The columns are
    named in the order of the keys of the first row. *)
Theorem make_hdu_table_rows (m : DataStoreMaker) :
  time_keywords_apart TIME_KEYWORDS ->
  ok_cache m ->
  readable m ->
  zip (events_paths m) (irfs_paths m) <> [] ->
  exists m' table entries,
    make_hdu m = (m', inr table) /\
    Forall2 (fun (pair : string * option string)
                 (entry : string * value * string) =>
               let '(path, obs_id, irf) := entry in
               path = fst pair /\
               exists info, from_file path info /\
                            dict_get info "OBS_ID" = Some obs_id /\
                            dict_get info "IRF_FILENAME" = Some (VStr irf))
      (zip (events_paths m) (irfs_paths m)) entries /\
    column (hdu_table_rows table) "HDU_TYPE"
    = flat_map (fun _ => map (fun t => Some (VStr t)) made_hdu_types) entries /\
    column (hdu_table_rows table) "OBS_ID"
    = flat_map (fun entry => repeat (Some (snd (fst entry))) 6) entries /\
    column (hdu_table_rows table) "FILE_DIR"
    = flat_map (fun entry =>
                  repeat (Some (VStr (path_parent (fst (fst entry))))) 2
                  ++ repeat (Some (VStr (path_parent (snd entry)))) 4) entries /\
    column (hdu_table_rows table) "FILE_NAME"
    = flat_map (fun entry =>
                  repeat (Some (VStr (path_name (fst (fst entry))))) 2
                  ++ repeat (Some (VStr (path_name (snd entry)))) 4) entries /\
    hdu_table_names table
    = ["HDU_TYPE"; "HDU_CLASS"; "HDU_NAME"; "OBS_ID"; "FILE_DIR"; "FILE_NAME"]%string /\
    length (hdu_table_rows table)
    = (6 * Nat.min (length (events_paths m)) (length (irfs_paths m)))%nat.
Proof.
  intros Hapart Hc Hread Hne.
  destruct (hdu_table_loop_ok _ m [] Hapart Hc Hread)
    as (m' & entries & Hloop & _ & Hentries).
  cbn [app] in Hloop. unfold make_hdu_table. rewrite Hloop.
  destruct entries as [| [[path0 v0] s0] entries'] eqn:He.
  { apply Forall2_nil_inv_r in Hentries. contradiction. }
  rewrite <- He in *.
  assert (Hrows : exists row0 rest,
            flat_map (fun entry => six_rows entry) entries = row0 :: rest /\
            dict_keys row0
            = ["HDU_TYPE"; "HDU_CLASS"; "HDU_NAME"; "OBS_ID"; "FILE_DIR";
               "FILE_NAME"]%string).
  { rewrite He. cbn [flat_map app]. eexists _, _. split; reflexivity. }
  destruct Hrows as (row0 & rest & Hflat & Hkeys).
  rewrite Hflat. eexists m', _, entries. split; [reflexivity |].
  cbn [hdu_table_rows hdu_table_names]. rewrite <- Hflat.
  split; [exact Hentries |].
  rewrite !column_flat_map.
  split; [apply flat_map_ext; intros [[p v] s]; reflexivity |].
  split; [apply flat_map_ext; intros [[p v] s]; reflexivity |].
  split; [apply flat_map_ext; intros [[p v] s]; reflexivity |].
  split; [apply flat_map_ext; intros [[p v] s]; reflexivity |].
  split; [exact Hkeys |].
  rewrite (flat_map_length_const _ _ 6) by (intros [[p v] s]; reflexivity).
  rewrite <- (Forall2_length _ _ _ Hentries), length_zip. reflexivity.
Qed.

(** *** [run] *)

Lemma value_eqb_refl (v : value) : value_eqb v v = true.
Proof.
  destruct v; cbn.
  - apply Z.eqb_refl.
  - apply Qeq_bool_refl.
  - apply String.eqb_refl.
  - rewrite Qeq_bool_refl, String.eqb_refl. reflexivity.
  - reflexivity.
Qed.

Lemma cell_mem_In (x : option value) (l : list (option value)) :
  In x l -> cell_mem x l = true.
Proof.
  intros H. unfold cell_mem. apply existsb_exists. exists x. split; [exact H |].
  destruct x as [v |]; [apply value_eqb_refl | reflexivity].
Qed.

Lemma set_eqb_repeated (a : list (option value)) (n : nat) :
  set_eqb a (flat_map (fun c => repeat c (S n)) a) = true.
Proof.
  unfold set_eqb. apply andb_true_iff. split; apply forallb_forall; intros x Hx;
    apply cell_mem_In.
  - apply in_flat_map. exists x. split; [exact Hx | left; reflexivity].
  - apply in_flat_map in Hx as (y & Hy & Hx).
    apply repeat_spec in Hx. subst x. exact Hy.
Qed.

Lemma cached_rows_obs_id (m : DataStoreMaker)
    (pairs : list (string * option string)) :
  forall (entries : list (string * value * string)) (infos : list dict),
    Forall2 (cached_entry m) pairs entries ->
    Forall2 (fun pair info => _events_info m !! fst pair = Some info) pairs infos ->
    column infos "OBS_ID" = map (fun entry => Some (snd (fst entry))) entries.
Proof.
  induction pairs as [| pair pairs IH]; intros entries infos He Hi.
  - apply Forall2_nil_inv_l in He. apply Forall2_nil_inv_l in Hi. subst.
    reflexivity.
  - apply Forall2_cons_inv_l in He as ([[path v] s] & entries' & Hhead & He & ->).
    apply Forall2_cons_inv_l in Hi as (info & infos' & Hinfo & Hi & ->).
    destruct Hhead as (-> & info' & Hc & Hv & _).
    rewrite Hinfo in Hc. injection Hc as <-.
    unfold column in *. cbn [map fst snd]. rewrite Hv. f_equal.
    apply IH; assumption.
Qed.

(** X25.  Whenever [run] returns, its two tables fit together: the HDU
    index table has six rows for every row of the observation table, in the
    same order and with that row's [OBS_ID], also when an events path occurs
    more than once.  So the [OBS_ID] sets of the two tables are equal, and
    [check_consistency] on their [OBS_ID] columns yields nothing. *)
Theorem run_tables_consistent (m m' : DataStoreMaker) (hdu : HDUIndexTableRows)
    (obs_table : ObservationTable) :
  run_maker m = (m', inr (hdu, obs_table)) ->
  column (hdu_table_rows hdu) "OBS_ID"
  = flat_map (fun c => repeat c 6) (column (obs_rows obs_table) "OBS_ID") /\
  length (hdu_table_rows hdu) = (6 * length (obs_rows obs_table))%nat /\
  check_consistency (column (obs_rows obs_table) "OBS_ID")
    (column (hdu_table_rows hdu) "OBS_ID") = [].
Proof.
  unfold run.
  destruct (make_hdu m) as [m1 [e | hdu']] eqn:Hh; [discriminate |].
  destruct (make_obs m1) as [m2 [e | obs']] eqn:Ho; [discriminate |].
  intros [= <- <- <-].
  unfold make_hdu_table in Hh.
  destruct (hdu_loop m (zip (events_paths m) (irfs_paths m)) [])
    as [ma [e | rows]] eqn:Hloop; [discriminate |].
  destruct (hdu_table_loop_inr _ _ _ _ _ Hloop)
    as (entries & Hrows & Hentries & _ & Hev & Hir).
  cbn [app] in Hrows.
  assert (Hhdu : ma = m1 /\ hdu_table_rows hdu' = rows).
  { destruct rows; [discriminate |]. injection Hh as <- <-. split; reflexivity. }
  destruct Hhdu as [-> Hhdu]. clear Hh.
  unfold make_obs_table in Ho. rewrite Hev, Hir in Ho.
  destruct (obs_loop m1 (zip (events_paths m) (irfs_paths m)) [] [])
    as [mb [e | [orows trs]]] eqn:Hol; [discriminate |].
  destruct (obs_table_loop_inr _ _ _ _ _ _ _ Hol) as (infos & Horows & Hinfos & Hmono).
  cbn [app] in Horows.
  assert (Hobs : mb = m2 /\ obs_rows obs' = orows).
  { destruct orows; [discriminate |].
    destruct (negb (unique_time_info trs)); [discriminate |].
    injection Ho as <- Ho.
    destruct (copy_keys _ _ _); cbn [bind] in Ho; [discriminate |].
    injection Ho as <-. split; reflexivity. }
  destruct Hobs as [-> Hobs]. clear Ho.
  pose proof (cached_rows_obs_id m2 _ _ _
                (cached_entry_mono _ _ _ _ Hmono Hentries) Hinfos) as Hcol.
  rewrite Hhdu, Hobs, Hrows, Horows, Hcol, column_flat_map.
  assert (Hsix : flat_map (fun x => column (six_rows x) "OBS_ID") entries
                 = flat_map (fun c => repeat c 6)
                     (map (fun entry => Some (snd (fst entry))) entries)).
  { clear. induction entries as [| [[p v] s] entries IH]; [reflexivity |].
    cbn [flat_map map]. rewrite IH. reflexivity. }
  split; [exact Hsix |]. split.
  - rewrite (flat_map_length_const _ _ 6) by (intros [[p v] s]; reflexivity).
    rewrite <- (Forall2_length _ _ _ Hinfos), <- (Forall2_length _ _ _ Hentries).
    reflexivity.
  - rewrite Hsix. unfold check_consistency. rewrite set_eqb_repeated.
    reflexivity.
Qed.

End MakerMoreFacts.

(** *** [DataStoreMaker.__init__] *)

Lemma zip_repeat {A B : Type} (l : list A) (x : B) :
  zip l (repeat x (length l)) = map (fun e => (e, x)) l.
Proof.
  induction l as [| a l IH]; [reflexivity |]. cbn. rewrite IH. reflexivity.
Qed.

Lemma zip_fst_take {A B : Type} (l : list A) :
  forall k : list B, map fst (zip l k) = take (length k) l.
Proof.
  induction l as [| a l IH]; intros [| b k]; cbn; try reflexivity.
  rewrite IH. reflexivity.
Qed.

Lemma zip_snd_take {A B : Type} (l : list A) :
  forall k : list B, map snd (zip l k) = take (length l) k.
Proof.
  induction l as [| a l IH]; intros [| b k]; cbn; try reflexivity.
  rewrite IH. reflexivity.
Qed.

(** X26.  How the constructor pairs events files with IRF paths.  Without
    [irfs_paths], or with a single path, every events file is paired with
    that same value.  With a list, the pairing is by position and stops at
    the shorter list: the tables are made from the first events files only
    when there are fewer IRF paths, and the IRF paths beyond the number of
    events files are never used.  The cache starts empty. *)
Theorem DataStoreMaker_init_pairs (events : list string) :
  (let m := DataStoreMaker_init events IrfsNone in
   zip (events_paths m) (irfs_paths m) = map (fun e => (e, None)) events) /\
  (forall path,
     let m := DataStoreMaker_init events (IrfsSingle path) in
     zip (events_paths m) (irfs_paths m) = map (fun e => (e, Some path)) events) /\
  (forall paths,
     let m := DataStoreMaker_init events (IrfsList paths) in
     map fst (zip (events_paths m) (irfs_paths m)) = take (length paths) events /\
     map snd (zip (events_paths m) (irfs_paths m))
     = map Some (take (length events) paths) /\
     length (zip (events_paths m) (irfs_paths m))
     = Nat.min (length events) (length paths)) /\
  (forall irfs, _events_info (DataStoreMaker_init events irfs) = ∅).
Proof.
  split; [| split; [| split]].
  - cbn. apply zip_repeat.
  - intros path. cbn. apply zip_repeat.
  - intros paths. cbn [DataStoreMaker_init events_paths irfs_paths].
    rewrite zip_fst_take, zip_snd_take, length_zip, !length_map.
    split; [reflexivity |]. split; [| reflexivity].
    change (map Some paths) with (Some <$> paths). rewrite fmap_take.
    reflexivity.
  - intros irfs. reflexivity.
Qed.

(** *** The sample files *)

Lemma sample_time_keywords_apart : time_keywords_apart sample_TIME_KEYWORDS.
Proof.
  unfold time_keywords_apart, sample_TIME_KEYWORDS.
  repeat split; intros H; apply list_elem_of_In in H; cbn in H;
    repeat (destruct H as [H | H]; [discriminate |]); exact H.
Qed.

Lemma sample_cache_ok (events : list string) (irfs : irfs_paths_arg) :
  cache_ok sample_fits sample_galactic sample_int_of_str sample_str_of_number
    sample_first_file_name sample_TIME_KEYWORDS (DataStoreMaker_init events irfs).
Proof.
  intros path info H. cbn in H. rewrite lookup_empty in H. discriminate.
Qed.

Lemma get_events_info_caches_witness :
  exists m1 info,
    sample_get_events_info (DataStoreMaker_init ["run1.fits"] IrfsNone)
      "run1.fits" (Some "a.fits"%string) = (m1, inr info) /\
    sample_get_events_info m1 "run1.fits" (Some "b.fits"%string) = (m1, inr info).
Proof.
  destruct (sample_get_events_info (DataStoreMaker_init ["run1.fits"] IrfsNone)
              "run1.fits" (Some "a.fits"%string)) as [m1 [e | info]] eqn:H;
    [vm_compute in H; discriminate |].
  exists m1, info. split; [reflexivity |].
  destruct (get_events_info_caches sample_fits sample_galactic sample_int_of_str
              sample_str_of_number sample_first_file_name sample_TIME_KEYWORDS
              _ _ _ _ _ H) as (Hhit & _).
  apply (Hhit info eq_refl).
Defined.

Lemma read_events_info_irf_filename_witness :
  exists info,
    sample_read "run1.fits" (Some "irf.fits"%string) = inr info /\
    dict_get info "IRF_FILENAME" = Some (VStr "irf.fits") /\
    dict_get info "EVENTS_FILENAME" = Some (VStr "run1.fits").
Proof.
  destruct (sample_read "run1.fits" (Some "irf.fits"%string)) as [e | info] eqn:H;
    [vm_compute in H; discriminate |].
  exists info. split; [reflexivity |].
  destruct (read_events_info_irf_filename sample_fits sample_galactic
              sample_int_of_str sample_str_of_number sample_first_file_name
              sample_TIME_KEYWORDS _ _ _ H sample_time_keywords_apart)
    as (header & _ & Hev & Hirf).
  split; [exact Hirf | exact Hev].
Defined.

Lemma read_events_info_mandatory_keys_witness :
  sample_read "nowhere.fits" None = inl OSError /\
  exists info header,
    sample_read "run2.fits" None = inr info /\
    sample_fits "run2.fits" = inr header /\
    is_Some (header !! "RA_PNT").
Proof.
  destruct (read_events_info_mandatory_keys sample_fits sample_galactic
              sample_int_of_str sample_str_of_number sample_first_file_name
              sample_TIME_KEYWORDS "nowhere.fits" None) as (Herr & _).
  destruct (read_events_info_mandatory_keys sample_fits sample_galactic
              sample_int_of_str sample_str_of_number sample_first_file_name
              sample_TIME_KEYWORDS "run2.fits" None) as (_ & _ & Hok).
  split; [apply Herr; reflexivity |].
  destruct (sample_read "run2.fits" None) as [e | info] eqn:H;
    [vm_compute in H; discriminate |].
  destruct (Hok info H) as (header & Hfits & Hkeys & _).
  exists info, header. split; [reflexivity |]. split; [exact Hfits |].
  rewrite !Forall_cons in Hkeys.
  destruct Hkeys as (_ & _ & _ & _ & _ & _ & Hra & _). exact Hra.
Defined.

Lemma make_hdu_table_rows_witness :
  exists m' table,
    sample_make_hdu_table maker_short_irfs = (m', inr table) /\
    length (hdu_table_rows table) = 12%nat.
Proof.
  destruct (make_hdu_table_rows sample_fits sample_galactic sample_int_of_str
              sample_str_of_number sample_first_file_name sample_TIME_KEYWORDS
              sample_path_parent sample_path_name maker_short_irfs)
    as (m' & table & entries & Hmake & _ & _ & _ & _ & _ & _ & Hlen).
  - exact sample_time_keywords_apart.
  - apply sample_cache_ok.
  - repeat constructor; eexists; vm_compute; reflexivity.
  - discriminate.
  - exists m', table. split; [exact Hmake | exact Hlen].
Defined.

Lemma run_tables_consistent_witness :
  exists m' hdu obs_table,
    sample_run maker_same_time = (m', inr (hdu, obs_table)) /\
    column (hdu_table_rows hdu) "OBS_ID"
    = repeat (Some (VInt 1)) 6 ++ repeat (Some (VInt 2)) 6.
Proof.
  destruct (sample_run maker_same_time) as [m' [e | [hdu obs_table]]] eqn:H;
    [vm_compute in H; discriminate |].
  exists m', hdu, obs_table. split; [reflexivity |].
  destruct (run_tables_consistent sample_fits sample_galactic sample_int_of_str
              sample_str_of_number sample_first_file_name sample_TIME_KEYWORDS
              sample_path_parent sample_path_name _ _ _ _ H) as (Hcol & _).
  rewrite Hcol. vm_compute in H. injection H as _ _ <-. reflexivity.
Defined.

End DataStoreMakerMoreFacts.
